(** * Buffered byte streams over a Unix file descriptor

    A shallow embedding of [printf/ostream.cpp]: the readable and writable
    stream interfaces, the two descriptor-backed streams and the two
    buffering decorators, followed by the properties of the buffering
    engine.

    Conventions of the embedding.
    - [size_t] is the 64-bit unsigned type; a conversion to it is written
      [size_t z] and is reduction modulo [2^64].
    - [char] is the signed 8-bit type of the x86-64 System V ABI; a byte is
      an [ascii] and its value as an [int] is [char_to_int].
    - A member function that receives [(s, len)] from its caller and only
      reads it takes the bytes [s[0..len)] as a list; one that stores
      through [s] returns the bytes it stored, in storing order, next to its
      count.
    - Undefined behaviour (a store or load outside an allocation, a load of
      an indeterminate value, pointer arithmetic outside an array) is the
      outcome [Fault]; a C++ exception is [Throw], and one that leaves a
      destructor is [Terminate] ([std::terminate]); loops that the source
      does not bound take fuel and yield [OutOfFuel] when it runs out.
    - [this_thread::sleep_for] has no observable effect on the data and is
      left out. *)

From Stdlib Require Import ZArith List Ascii String Bool Lia.
Import ListNotations.
Local Open Scope Z_scope.

(** ** Platform constants (glibc, x86-64) *)

Module Platform.

Definition size_t (z : Z) : Z := z mod 2 ^ 64.
Definition SIZE_MAX : Z := 2 ^ 64 - 1.

(** [<cstdio>]: [BUFSIZ], [EOF] and the [setvbuf] mode macros, with the
    values glibc gives them.  8192 is the [BUFSIZ] that [printf/cstdio.cpp]
    notes for Linux; the enumerators of [BufferedOutStream::BufferMode],
    which the source compares with [_IONBF] and [_IOLBF], have the values
    0, 1, 2 of the three macros. *)
Definition BUFSIZ : Z := 8192.
Definition EOF : Z := -1.
Definition _IOFBF : Z := 0.
Definition _IOLBF : Z := 1.
Definition _IONBF : Z := 2.

(** [<cerrno>] *)
Definition EPIPE : Z := 32.
Definition EIO : Z := 5.

(** Integral promotion of a (signed) [char] and the narrowing back. *)
Definition char_to_int (c : ascii) : Z :=
  let n := Z.of_N (N_of_ascii c) in
  if n <? 128 then n else n - 256.
Definition int_to_char (z : Z) : ascii := ascii_of_N (Z.to_N (z mod 256)).

End Platform.
Import Platform.

(** ** Outcomes *)

Inductive fault : Type :=
  | StoreOutOfBounds (index capacity : Z)
  | LoadOutOfBounds (index capacity : Z)
  | NullBuffer
  | IndeterminateValue
  | PointerOutOfRange.

Inductive exn : Type :=
  | system_error (code : Z).

Inductive result (A : Type) : Type :=
  | Ok (a : A)
  | Throw (e : exn)
  | Fault (f : fault)
  | Terminate
  | OutOfFuel.
Arguments Ok {A} a.
Arguments Throw {A} e.
Arguments Fault {A} f.
Arguments Terminate {A}.
Arguments OutOfFuel {A}.

Definition bind {A B : Type} (r : result A) (k : A -> result B) : result B :=
  match r with
  | Ok a => k a
  | Throw e => Throw e
  | Fault f => Fault f
  | Terminate => Terminate
  | OutOfFuel => OutOfFuel
  end.

Declare Scope result_scope.
Delimit Scope result_scope with result.
Notation "'do' x <- c ; k" := (bind c (fun x => k))
  (at level 10, x pattern, c at level 100, k at level 200) : result_scope.
Local Open Scope result_scope.

Definition len_of {A : Type} (l : list A) : Z := Z.of_nat (List.length l).
Definition take {A : Type} (n : Z) (l : list A) : list A := firstn (Z.to_nat n) l.
Definition drop {A : Type} (n : Z) (l : list A) : list A := skipn (Z.to_nat n) l.

(** ** The kernel side of one descriptor

    What the descriptor will deliver to successive [::read] calls and how
    much successive [::write] calls will accept is a script; past the end of
    the script a read is at end of file and a write accepts everything.
    [k_trace] records the system calls made, oldest first. *)

Inductive rd_event : Type :=
  | RdData (bytes : list ascii)
  | RdErr (errno : Z).

Inductive wr_event : Type :=
  | WrAccept (k : Z)
  | WrErr (errno : Z).

Inductive syscall : Type :=
  | SysRead (len : Z)
  | SysWrite (len : Z)
  | SysClose.

Record kernel : Type := mkKernel {
  k_in : list rd_event;
  k_wr : list wr_event;
  k_out : list ascii;
  k_errno : Z;
  k_trace : list syscall
}.

Definition sys_read (k : kernel) (len : Z) : Z * list ascii * kernel :=
  let tr := k_trace k ++ [SysRead len] in
  match k_in k with
  | [] => (0, [], mkKernel [] (k_wr k) (k_out k) (k_errno k) tr)
  | RdData bytes :: rest =>
      if len_of bytes <=? len
      then (len_of bytes, bytes,
            mkKernel rest (k_wr k) (k_out k) (k_errno k) tr)
      else (len, take len bytes,
            mkKernel (RdData (drop len bytes) :: rest) (k_wr k) (k_out k)
                     (k_errno k) tr)
  | RdErr e :: rest => (-1, [], mkKernel rest (k_wr k) (k_out k) e tr)
  end.

Definition sys_write (k : kernel) (src : list ascii) (len : Z) : Z * kernel :=
  let tr := k_trace k ++ [SysWrite len] in
  match k_wr k with
  | [] => (len, mkKernel (k_in k) [] (k_out k ++ take len src) (k_errno k) tr)
  | WrAccept a :: rest =>
      let n := Z.max 0 (Z.min a len) in
      (n, mkKernel (k_in k) rest (k_out k ++ take n src) (k_errno k) tr)
  | WrErr e :: rest => (-1, mkKernel (k_in k) rest (k_out k) e tr)
  end.

Definition sys_close (k : kernel) : kernel :=
  mkKernel (k_in k) (k_wr k) (k_out k) (k_errno k) (k_trace k ++ [SysClose]).

(** ** [struct InStream] *)

Class InStream (St : Type) : Type := {
  read : St -> Z -> result (Z * list ascii * St);
  getchar : St -> result (Z * St);
  readn : nat -> St -> Z -> result (Z * list ascii * St)
}.

Section InStreamDefaults.
Context {St : Type}.
Variable read' : St -> Z -> result (Z * list ascii * St).

(** [InStream::getchar] *)
Definition InStream_getchar (st : St) : result (Z * St) :=
  do (n, data, st1) <- read' st 1;
  if n =? 0 then Ok (EOF, st1)
  else match data with
       | c :: _ => Ok (char_to_int c, st1)
       | [] => Fault IndeterminateValue
       end.

(** The [while (n != len)] loop of [InStream::readn]. *)
Fixpoint InStream_readn_loop (fuel : nat) (st : St) (len n : Z)
    (acc : list ascii) : result (Z * list ascii * St) :=
  if n =? len then Ok (n, acc, st)
  else match fuel with
       | O => OutOfFuel
       | S fuel' =>
           if len <? n then Fault PointerOutOfRange
           else
             do (m, data, st1) <- read' st (size_t (len - n));
             if m =? 0 then Ok (n, acc, st1)
             else InStream_readn_loop fuel' st1 len (size_t (n + m))
                    (acc ++ data)
       end.

(** [InStream::readn] *)
Definition InStream_readn (fuel : nat) (st : St) (len : Z)
    : result (Z * list ascii * St) :=
  do (n, data, st1) <- read' st len;
  if n =? 0 then Ok (0, data, st1)
  else InStream_readn_loop fuel st1 len n data.
End InStreamDefaults.

Fixpoint bytes_eqb (a b : list ascii) : bool :=
  match a, b with
  | [], [] => true
  | x :: a', y :: b' => Ascii.eqb x y && bytes_eqb a' b'
  | _, _ => false
  end.

(** [ret.size() >= neol && memcmp(ret.data() + ret.size() - neol, eol, neol) == 0] *)
Definition ends_with (ret eol : list ascii) : bool :=
  (len_of eol <=? len_of ret)
  && bytes_eqb (drop (len_of ret - len_of eol) ret) eol.

Definition is_empty {A : Type} (l : list A) : bool :=
  match l with [] => true | _ => false end.

Definition zero_byte : ascii := Ascii.zero.
Definition newline : ascii := "010"%char.

Section InStreamDerived.
Context {St : Type} `{InStream St}.

(** [InStream::readuntil(char eol)]; [ret] is the local [std::string ret],
    empty when the function is entered. *)
Fixpoint readuntil_char (fuel : nat) (st : St) (eol : ascii)
    (ret : list ascii) : result (list ascii * St) :=
  match fuel with
  | O => OutOfFuel
  | S fuel' =>
      do (c, st1) <- getchar st;
      if c =? EOF then Ok (ret, st1)
      else
        let ret1 := ret ++ [int_to_char c] in
        if c =? char_to_int eol then Ok (ret1, st1)
        else readuntil_char fuel' st1 eol ret1
  end.

(** [InStream::readuntil(const char *eol, size_t neol)], [ret] as above;
    the [std::string const &] overload passes [eol.data(), eol.size()]. *)
Fixpoint readuntil (fuel : nat) (st : St) (eol : list ascii)
    (ret : list ascii) : result (list ascii * St) :=
  match fuel with
  | O => OutOfFuel
  | S fuel' =>
      do (c, st1) <- getchar st;
      if c =? EOF then Ok (ret, st1)
      else
        let ret1 := ret ++ [int_to_char c] in
        if ends_with ret1 eol then Ok (ret1, st1)
        else readuntil fuel' st1 eol ret1
  end.

(** [InStream::getline(char eol)] *)
Definition getline_char (fuel : nat) (st : St) (eol : ascii)
    : result (list ascii * St) :=
  do (ret, st1) <- readuntil_char fuel st eol [];
  if (0 <? len_of ret) && Ascii.eqb (last ret zero_byte) eol
  then Ok (removelast ret, st1)
  else Ok (ret, st1).

(** [InStream::getline(const char *eol, size_t neol)] *)
Definition getline (fuel : nat) (st : St) (eol : list ascii)
    : result (list ascii * St) :=
  do (ret, st1) <- readuntil fuel st eol [];
  if ends_with ret eol
  then Ok (take (len_of ret - len_of eol) ret, st1)
  else Ok (ret, st1).
End InStreamDerived.

(** ** [struct UnixFileInStream]

    The stream owns its descriptor; its state is the kernel side of it. *)

(** [UnixFileInStream::read]: [n] is a [size_t], so the result of [::read]
    is converted before it is tested. *)
Definition UnixFileInStream_read (st : kernel) (len : Z)
    : result (Z * list ascii * kernel) :=
  if len =? 0 then Ok (0, [], st)
  else
    let '(r, data, st1) := sys_read st len in
    let n := size_t r in
    if n <? 0 then Throw (system_error (k_errno st1))
    else Ok (n, data, st1).

#[export] Instance UnixFileInStream : InStream kernel := {
  read := UnixFileInStream_read;
  getchar := InStream_getchar UnixFileInStream_read;
  readn := InStream_readn UnixFileInStream_read
}.

(** ** [struct BufferedInStream] *)

Record BufferedInStream (St : Type) : Type := mkBufferedInStream {
  i_in : St;
  i_buf : list ascii;
  i_top : Z;
  i_max : Z
}.
Arguments mkBufferedInStream {St}.
Arguments i_in {St}.
Arguments i_buf {St}.
Arguments i_top {St}.
Arguments i_max {St}.

(** [valloc(n)]: a block of [n] bytes.  Its contents are indeterminate;
    zero bytes stand for them, and no statement below reads a byte of a
    block that has not been stored before. *)
Definition valloc (n : Z) : list ascii := repeat zero_byte (Z.to_nat n).

Section BufferedIn.
Context {St : Type} `{InStream St}.

(** The constructor. *)
Definition BufferedInStream_new (in_ : St) : BufferedInStream St :=
  mkBufferedInStream in_ (valloc BUFSIZ) 0 0.

(** [BufferedInStream::refill] *)
Definition refill (st : BufferedInStream St)
    : result (bool * BufferedInStream St) :=
  do (n, data, in1) <- read (i_in st) BUFSIZ;
  if len_of (i_buf st) <? len_of data
  then Fault (StoreOutOfBounds (len_of (i_buf st)) (len_of (i_buf st)))
  else
    let buf1 := data ++ drop (len_of data) (i_buf st) in
    Ok (negb (n =? 0), mkBufferedInStream in1 buf1 0 n).

(** [buf[top++]] *)
Definition next_byte (st : BufferedInStream St)
    : result (ascii * BufferedInStream St) :=
  if (0 <=? i_top st) && (i_top st <? len_of (i_buf st))
  then Ok (nth (Z.to_nat (i_top st)) (i_buf st) zero_byte,
           mkBufferedInStream (i_in st) (i_buf st)
             (size_t (i_top st + 1)) (i_max st))
  else Fault (LoadOutOfBounds (i_top st) (len_of (i_buf st))).

(** [BufferedInStream::getchar] *)
Definition BufferedInStream_getchar (st : BufferedInStream St)
    : result (Z * BufferedInStream St) :=
  do (go, st1) <-
    (if i_top st =? i_max st then refill st else Ok (true, st));
  if go then
    do (c, st2) <- next_byte st1;
    Ok (char_to_int c, st2)
  else Ok (EOF, st1).

(** [BufferedInStream::read]; [k] counts the bytes still to copy, that
    is [s + len - p], and [copied] is [s[0..p)]. *)
Fixpoint BufferedInStream_read_loop (k : nat) (st : BufferedInStream St)
    (copied : list ascii) : result (Z * list ascii * BufferedInStream St) :=
  match k with
  | O => Ok (len_of copied, copied, st)
  | S k' =>
      do (go, st1) <-
        (if i_top st =? i_max st then
           if negb (is_empty copied) then Ok (false, st)
           else refill st
         else Ok (true, st));
      if go then
        do (c, st2) <- next_byte st1;
        BufferedInStream_read_loop k' st2
          (copied ++ [int_to_char (char_to_int c)])
      else Ok (len_of copied, copied, st1)
  end.

Definition BufferedInStream_read (st : BufferedInStream St) (len : Z)
    : result (Z * list ascii * BufferedInStream St) :=
  BufferedInStream_read_loop (Z.to_nat len) st [].

(** [BufferedInStream::readn] *)
Fixpoint BufferedInStream_readn_loop (k : nat) (st : BufferedInStream St)
    (copied : list ascii) : result (Z * list ascii * BufferedInStream St) :=
  match k with
  | O => Ok (len_of copied, copied, st)
  | S k' =>
      do (go, st1) <-
        (if i_top st =? i_max st then refill st else Ok (true, st));
      if go then
        do (c, st2) <- next_byte st1;
        BufferedInStream_readn_loop k' st2
          (copied ++ [int_to_char (char_to_int c)])
      else Ok (len_of copied, copied, st1)
  end.

Definition BufferedInStream_readn (fuel : nat) (st : BufferedInStream St)
    (len : Z) : result (Z * list ascii * BufferedInStream St) :=
  BufferedInStream_readn_loop (Z.to_nat len) st [].

#[export] Instance BufferedInStream_InStream
    : InStream (BufferedInStream St) := {
  read := BufferedInStream_read;
  getchar := BufferedInStream_getchar;
  readn := BufferedInStream_readn
}.
End BufferedIn.

(** ** [struct OutStream] *)

Class OutStream (St : Type) : Type := {
  write : St -> list ascii -> result St;
  putchar : St -> ascii -> result St;
  flush : St -> result St;
  destroy : St -> result St
}.

(** [OutStream::putchar] and [OutStream::flush] *)
Definition OutStream_putchar {St : Type}
    (write' : St -> list ascii -> result St) (st : St) (c : ascii)
    : result St :=
  write' st [c].

Definition OutStream_flush {St : Type} (st : St) : result St := Ok st.

(** [strlen]: the bytes before the first zero byte. *)
Fixpoint strlen (s : list ascii) : Z :=
  match s with
  | [] => 0
  | c :: s' => if Ascii.eqb c zero_byte then 0 else 1 + strlen s'
  end.

(** [OutStream::puts]: [write(s, strlen(s))], through the [write] of the
    stream it is called on. *)
Definition OutStream_puts {St : Type} `{OutStream St} (st : St)
    (s : list ascii) : result St :=
  write st (take (strlen s) s).

(** A destructor is [noexcept]. *)
Definition in_destructor {A : Type} (r : result A) : result A :=
  match r with
  | Throw _ => Terminate
  | _ => r
  end.

(** ** [struct UnixFileOutStream] *)

(** The [while ((size_t)written != len)] loop. *)
Fixpoint UnixFileOutStream_write_loop (fuel : nat) (st : kernel)
    (s : list ascii) (len written : Z) : result kernel :=
  if written =? len then Ok st
  else match fuel with
       | O => OutOfFuel
       | S fuel' =>
           if len <? written then Fault PointerOutOfRange
           else
             let '(r, st1) :=
               sys_write st (drop written s) (size_t (len - written)) in
             let new_written := size_t r in
             if new_written <? 0 then Throw (system_error (k_errno st1))
             else UnixFileOutStream_write_loop fuel' st1 s len
                    (size_t (written + new_written))
       end.

(** [UnixFileOutStream::write].  Every turn of the loop uses up one event
    of the script, and past the script the kernel accepts the whole request,
    so the fuel given here is never used up
    ([UnixFileOutStream_write_returns]). *)
Definition UnixFileOutStream_write (st : kernel) (s : list ascii)
    : result kernel :=
  let len := len_of s in
  if len =? 0 then Ok st
  else
    let '(r, st1) := sys_write st s len in
    let written := size_t r in
    if written <? 0 then Throw (system_error (k_errno st1))
    else if written =? 0 then Throw (system_error EPIPE)
    else UnixFileOutStream_write_loop (S (List.length (k_wr st1))) st1 s len
           written.

#[export] Instance UnixFileOutStream : OutStream kernel := {
  write := UnixFileOutStream_write;
  putchar := OutStream_putchar UnixFileOutStream_write;
  flush := OutStream_flush;
  destroy := fun st => Ok (sys_close st)
}.

(** ** [struct BufferedOutStream] *)

Inductive BufferMode : Type := FullBuf | LineBuf | NoBuf.

(** The enumerators' values, as compared with [_IONBF] and [_IOLBF]. *)
Definition mode_value (m : BufferMode) : Z :=
  match m with
  | FullBuf => 0
  | LineBuf => 1
  | NoBuf => 2
  end.

(** [o_buf = None] is the null pointer. *)
Record BufferedOutStream (St : Type) : Type := mkBufferedOutStream {
  o_out : St;
  o_top : Z;
  o_mode : BufferMode;
  o_buf : option (list ascii)
}.
Arguments mkBufferedOutStream {St}.
Arguments o_out {St}.
Arguments o_top {St}.
Arguments o_mode {St}.
Arguments o_buf {St}.

Fixpoint store_at {A : Type} (i : nat) (x : A) (l : list A) : list A :=
  match l, i with
  | [], _ => []
  | _ :: l', O => x :: l'
  | y :: l', S i' => y :: store_at i' x l'
  end.

Section BufferedOut.
Context {St : Type} `{OutStream St}.

(** The constructor. *)
Definition BufferedOutStream_new (out_ : St) (mode_ : BufferMode)
    (buf_ : option (list ascii)) : BufferedOutStream St :=
  mkBufferedOutStream out_ 0 mode_
    (match buf_ with
     | None =>
         if negb (mode_value mode_ =? _IONBF) then Some (valloc 4096)
         else None
     | Some b => Some b
     end).

(** The bytes [buf[0..top)] handed to [out->write(buf, top)]. *)
Definition pending_bytes (st : BufferedOutStream St)
    : result (list ascii) :=
  match o_buf st with
  | None => if o_top st =? 0 then Ok [] else Fault NullBuffer
  | Some b =>
      if o_top st <=? len_of b then Ok (take (o_top st) b)
      else Fault (LoadOutOfBounds (len_of b) (len_of b))
  end.

(** [BufferedOutStream::flush] *)
Definition BufferedOutStream_flush (st : BufferedOutStream St)
    : result (BufferedOutStream St) :=
  do bytes <- pending_bytes st;
  do out1 <- write (o_out st) bytes;
  Ok (mkBufferedOutStream out1 0 (o_mode st) (o_buf st)).

(** [buf[top++] = c] *)
Definition store_byte (st : BufferedOutStream St) (c : ascii)
    : result (BufferedOutStream St) :=
  match o_buf st with
  | None => Fault NullBuffer
  | Some b =>
      if (0 <=? o_top st) && (o_top st <? len_of b)
      then Ok (mkBufferedOutStream (o_out st) (size_t (o_top st + 1))
                 (o_mode st)
                 (Some (store_at (Z.to_nat (o_top st)) c b)))
      else Fault (StoreOutOfBounds (o_top st) (len_of b))
  end.

(** The statements that [putchar] and the body of the loop of [write]
    have in common. *)
Definition append_byte (st : BufferedOutStream St) (c : ascii)
    : result (BufferedOutStream St) :=
  do st1 <-
    (if o_top st =? BUFSIZ then BufferedOutStream_flush st else Ok st);
  do st2 <- store_byte st1 c;
  if (mode_value (o_mode st2) =? _IOLBF) && Ascii.eqb c newline
  then BufferedOutStream_flush st2
  else Ok st2.

(** [BufferedOutStream::putchar] *)
Definition BufferedOutStream_putchar (st : BufferedOutStream St)
    (c : ascii) : result (BufferedOutStream St) :=
  if mode_value (o_mode st) =? _IONBF then
    do out1 <- write (o_out st) [c];
    Ok (mkBufferedOutStream out1 (o_top st) (o_mode st) (o_buf st))
  else append_byte st c.

(** The [for] loop of [BufferedOutStream::write]. *)
Fixpoint BufferedOutStream_write_loop (st : BufferedOutStream St)
    (s : list ascii) : result (BufferedOutStream St) :=
  match s with
  | [] => Ok st
  | c :: s' =>
      do st1 <- append_byte st c;
      BufferedOutStream_write_loop st1 s'
  end.

(** [BufferedOutStream::write] *)
Definition BufferedOutStream_write (st : BufferedOutStream St)
    (s : list ascii) : result (BufferedOutStream St) :=
  if mode_value (o_mode st) =? _IONBF then
    do out1 <- write (o_out st) s;
    Ok (mkBufferedOutStream out1 (o_top st) (o_mode st) (o_buf st))
  else BufferedOutStream_write_loop st s.

(** [BufferedOutStream::~BufferedOutStream]: [flush()], [free(buf)], then
    the member [out] is destroyed. *)
Definition BufferedOutStream_destroy (st : BufferedOutStream St)
    : result (BufferedOutStream St) :=
  do st1 <- in_destructor (BufferedOutStream_flush st);
  do out1 <- in_destructor (destroy (o_out st1));
  Ok (mkBufferedOutStream out1 (o_top st1) (o_mode st1) None).

#[export] Instance BufferedOutStream_OutStream
    : OutStream (BufferedOutStream St) := {
  write := BufferedOutStream_write;
  putchar := BufferedOutStream_putchar;
  flush := BufferedOutStream_flush;
  destroy := BufferedOutStream_destroy
}.
End BufferedOut.

(** ** Descriptors and streams used in the statements *)

(** A descriptor just opened: nothing written, nothing called yet. *)
Definition fresh_kernel (input : list rd_event) (accepts : list wr_event)
    : kernel :=
  mkKernel input accepts [] 0 [].

Definition CR : ascii := "013"%char.
Definition LF : ascii := newline.
Definition bytes_of (s : string) : list ascii := list_ascii_of_string s.

(** [BufferedOutStream(std::make_unique<UnixFileOutStream>(fd), mode)]:
    the buffer argument is defaulted. *)
Definition buffered_out (mode : BufferMode) (k : kernel)
    : BufferedOutStream kernel :=
  BufferedOutStream_new k mode None.

(** The size of the block the constructor allocates when it is given none. *)
Definition allocated_capacity {St : Type} (st : BufferedOutStream St) : Z :=
  match o_buf st with
  | Some b => len_of b
  | None => 0
  end.

(** The pending bytes [buf[0..top)] of a write buffer. *)
Definition pending {St : Type} (st : BufferedOutStream St) : list ascii :=
  match o_buf st with
  | Some b => take (o_top st) b
  | None => []
  end.

(** The representation invariant of a write buffer that this development
    relies on: [top] is within the flush threshold and within the block. *)
Definition wf_out {St : Type} (st : BufferedOutStream St) : Prop :=
  0 <= o_top st <= BUFSIZ /\
  match o_buf st with
  | Some b => o_top st <= len_of b
  | None => o_top st = 0
  end.

(** The bytes of [s] find room: the block reaches the flush threshold, or
    it holds the pending bytes and all of [s]. *)
Definition fits {St : Type} (st : BufferedOutStream St) (s : list ascii)
    : Prop :=
  BUFSIZ <= allocated_capacity st \/
  o_top st + len_of s <= allocated_capacity st.

Definition is_accept (e : wr_event) : Prop :=
  match e with
  | WrAccept _ => True
  | WrErr _ => False
  end.

(** A descriptor on which no [::write] fails. *)
Definition wr_error_free (k : kernel) : Prop := Forall is_accept (k_wr k).

(** Every byte submitted to a write buffer so far, in order: what the
    backend holds followed by what is pending. *)
Definition submitted {St : Type} (sink : St -> list ascii)
    (st : BufferedOutStream St) : list ascii :=
  sink (o_out st) ++ pending st.

Definition is_data (e : rd_event) : Prop :=
  match e with
  | RdData _ => True
  | RdErr _ => False
  end.

(** A descriptor on which no [::read] fails. *)
Definition rd_error_free (k : kernel) : Prop := Forall is_data (k_in k).

(** The bytes a descriptor delivers before it first reports end of file:
    an empty delivery is a [::read] that returns 0. *)
Fixpoint avail (script : list rd_event) : list ascii :=
  match script with
  | [] => []
  | RdData [] :: _ => []
  | RdData bytes :: rest => bytes ++ avail rest
  | RdErr _ :: _ => []
  end.

(** All the bytes a descriptor will ever deliver. *)
Fixpoint all_bytes (script : list rd_event) : list ascii :=
  match script with
  | [] => []
  | RdData bytes :: rest => bytes ++ all_bytes rest
  | RdErr _ :: rest => all_bytes rest
  end.

(** The representation invariant of a read buffer: [0 <= top <= max <= C]
    with [C = BUFSIZ] the size of the block. *)
Definition wf_in {St : Type} (st : BufferedInStream St) : Prop :=
  0 <= i_top st <= i_max st /\ i_max st <= len_of (i_buf st) /\
  len_of (i_buf st) = BUFSIZ.

(** The valid unread bytes [buf[top..max)]. *)
Definition window {St : Type} (st : BufferedInStream St) : list ascii :=
  take (i_max st - i_top st) (drop (i_top st) (i_buf st)).

(** [reads_chars st cs st']: successive calls of [getchar] from [st]
    return the values [cs], none of them [EOF], and leave [st']. *)
Inductive reads_chars {St : Type} `{InStream St}
    : St -> list Z -> St -> Prop :=
  | reads_nil (st : St) : reads_chars st [] st
  | reads_cons (st st1 st2 : St) (c : Z) (cs : list Z) :
      getchar st = Ok (c, st1) -> c <> EOF ->
      reads_chars st1 cs st2 ->
      reads_chars st (c :: cs) st2.

(** What a read buffer over a descriptor holds and will be delivered
    before end of file, and all that it holds and will ever be delivered. *)
Definition buffered_avail (st : BufferedInStream kernel) : list ascii :=
  window st ++ avail (k_in (i_in st)).

Definition buffered_all (st : BufferedInStream kernel) : list ascii :=
  window st ++ all_bytes (k_in (i_in st)).

(** ** [InStream::readall] *)

(** [std::string::resize(n)]: truncation, or padding with zero bytes. *)
Definition string_resize (n : Z) (ret : list ascii) : list ascii :=
  take n ret ++ repeat zero_byte (Z.to_nat (n - len_of ret)).

(** The bytes [data] stored at offset [pos] of [ret]. *)
Definition blit (pos : Z) (data ret : list ascii) : list ascii :=
  take pos ret ++ data ++ drop (pos + len_of data) ret.

Section ReadAll.
Context {St : Type} `{InStream St}.

(** The [while (true)] loop of [InStream::readall].  [buf] is set to
    [&ret[0]] once, while [ret] has 32 bytes, and is not set again after
    [ret.resize(ret.size() * 2)] has moved the characters to a larger
    block: a store through [buf + pos] that ends past the 32 bytes [buf]
    pointed to is a store outside that block. *)
Fixpoint readall_loop (fuel : nat) (st : St) (ret : list ascii) (pos : Z)
    : result (list ascii * St) :=
  match fuel with
  | O => OutOfFuel
  | S fuel' =>
      do (n, data, st1) <- read st (size_t (len_of ret - pos));
      if negb (is_empty data) && (32 <? pos + len_of data)
      then Fault (StoreOutOfBounds (Z.max pos 32) 32)
      else
        let ret1 := blit pos data ret in
        if n =? 0 then Ok (string_resize pos ret1, st1)
        else
          let pos1 := size_t (pos + n) in
          let ret2 :=
            if pos1 =? len_of ret1
            then string_resize (size_t (len_of ret1 * 2)) ret1
            else ret1 in
          readall_loop fuel' st1 ret2 pos1
  end.

(** [InStream::readall] *)
Definition readall (fuel : nat) (st : St) : result (list ascii * St) :=
  readall_loop fuel st (string_resize 32 []) 0.
End ReadAll.

(** ** The process-wide streams and [mperror] *)

(** [myin], [mout] and [merr], each over the descriptor it is given. *)
Definition myin_new (k : kernel) : BufferedInStream kernel :=
  BufferedInStream_new k.
Definition mout_new (k : kernel) : BufferedOutStream kernel :=
  BufferedOutStream_new k LineBuf None.
Definition merr_new (k : kernel) : BufferedOutStream kernel :=
  BufferedOutStream_new k NoBuf None.

(** The characters of a C string: those before its first zero byte. *)
Definition c_str (s : list ascii) : list ascii := take (strlen s) s.

(** [mperror]; [strerror] and the value of [errno] are the C library's. *)
Definition mperror (strerror : Z -> list ascii) (errno : Z)
    (merr : BufferedOutStream kernel) (msg : list ascii)
    : result (BufferedOutStream kernel) :=
  do m1 <- OutStream_puts merr msg;
  do m2 <- OutStream_puts m1 (bytes_of ": ");
  do m3 <- OutStream_puts m2 (strerror errno);
  OutStream_puts m3 [newline].

(** A byte whose value as an [int] is not [EOF]. *)
Definition plain_byte (b : ascii) : Prop := char_to_int b <> EOF.

(** Successive [write] calls, as a caller makes them one after another. *)
Definition write_each {St : Type} `{OutStream St} (st : St)
    (ss : list (list ascii)) : result St :=
  fold_left (fun r s => do st1 <- r; write st1 s) ss (Ok st).

(** The invariants of a concrete buffer, by evaluation. *)
Ltac eval_wf_in :=
  unfold wf_in;
  split; [vm_compute; split; discriminate |];
  split; [vm_compute; discriminate | vm_compute; reflexivity].

Ltac eval_wf_out :=
  unfold wf_out;
  split; [vm_compute; split; discriminate |];
  vm_compute; first [reflexivity | discriminate].

(** * Properties *)

(** ** Reads of length zero *)

(** C10: on the descriptor-backed stream and on the buffering decorator
    over any stream, [read(dst, 0)] returns 0, stores nothing and leaves
    the whole state as it was: the kernel trace of system calls, the
    buffer cursors and the wrapped stream are unchanged, so no OS or
    backend call has been made. *)
Theorem read_zero_length_makes_no_call :
  (forall k : kernel, read k 0 = Ok (0, [], k)) /\
  (forall (St : Type) (I : InStream St) (st : BufferedInStream St),
      read st 0 = Ok (0, [], st)).
Proof.
  split.
  - intro k. reflexivity.
  - intros St I st. reflexivity.
Qed.

Lemma size_t_nonneg (z : Z) : (size_t z <? 0) = false.
Proof. apply Z.ltb_ge. unfold size_t. apply Z.mod_pos_bound. lia. Qed.

Lemma sys_read_trace (k : kernel) (len : Z) :
  k_trace (snd (sys_read k len)) = k_trace k ++ [SysRead len].
Proof.
  unfold sys_read.
  destruct (k_in k) as [| [bytes | e] rest]; [reflexivity | | reflexivity].
  destruct (len_of bytes <=? len); reflexivity.
Qed.

(** A positive length always reaches the kernel. *)
Lemma UnixFileInStream_read_calls_kernel (k : kernel) (len : Z) :
  len <> 0 ->
  exists n data k',
    read k len = Ok (n, data, k') /\
    k_trace k' = k_trace k ++ [SysRead len].
Proof.
  intro Hlen. cbn. unfold UnixFileInStream_read.
  destruct (Z.eqb_spec len 0) as [E | _]; [contradiction |].
  pose proof (sys_read_trace k len) as Htr.
  destruct (sys_read k len) as [[r data] k1].
  rewrite size_t_nonneg. eauto.
Qed.

(** ** Operating-system failures *)

(** C4: the kernel fails a [::read] with [-1] and [errno = EIO]; the
    stream's [read] returns [SIZE_MAX] instead of raising the error, and a
    failed first [::write] takes [write] into pointer arithmetic outside the
    source array instead of raising it. *)
Theorem os_failure_is_not_raised :
  read (fresh_kernel [RdErr EIO] []) 10
    = Ok (SIZE_MAX, [], mkKernel [] [] [] EIO [SysRead 10]) /\
  write (fresh_kernel [] [WrErr EIO]) (bytes_of "ab")
    = Fault PointerOutOfRange.
Proof. split; reflexivity. Qed.

(** No input makes [UnixFileInStream::read] throw: the test [n < 0] is on
    a [size_t]. *)
Lemma UnixFileInStream_read_never_throws (k : kernel) (len : Z) (e : exn) :
  read k len <> Throw e.
Proof.
  cbn. unfold UnixFileInStream_read.
  destruct (len =? 0); [discriminate |].
  destruct (sys_read k len) as [[r data] k1].
  rewrite size_t_nonneg. discriminate.
Qed.

(** ** Short and empty writes *)

(** C3: two bytes are written, the kernel takes one, then none, then the
    rest; the second [::write] transfers nothing while a byte remains, and
    [write] neither raises [EPIPE] nor stops: it calls [::write] a third
    time and returns normally. *)
Theorem zero_length_write_in_loop_is_not_broken_pipe :
  write (fresh_kernel [] [WrAccept 1; WrAccept 0]) (bytes_of "ab")
    = Ok (mkKernel [] [] (bytes_of "ab") 0
            [SysWrite 2; SysWrite 1; SysWrite 1]) /\
  write (fresh_kernel [] [WrAccept 0]) (bytes_of "ab")
    = Throw (system_error EPIPE).
Proof. split; reflexivity. Qed.

(** ** Lists indexed by [Z] *)

Lemma len_of_nonneg {A : Type} (l : list A) : 0 <= len_of l.
Proof. unfold len_of. lia. Qed.

Lemma len_of_app {A : Type} (a b : list A) :
  len_of (a ++ b) = len_of a + len_of b.
Proof. unfold len_of. rewrite length_app. lia. Qed.

Lemma len_of_cons {A : Type} (x : A) (l : list A) :
  len_of (x :: l) = 1 + len_of l.
Proof. unfold len_of. cbn [List.length]. lia. Qed.

Lemma take_drop {A : Type} (n : Z) (l : list A) : take n l ++ drop n l = l.
Proof. apply firstn_skipn. Qed.

Lemma take_all {A : Type} (n : Z) (l : list A) :
  len_of l <= n -> take n l = l.
Proof. unfold len_of, take. intro. apply firstn_all2. lia. Qed.

Lemma drop_all {A : Type} (n : Z) (l : list A) :
  len_of l <= n -> drop n l = [].
Proof. unfold len_of, drop. intro. apply skipn_all2. lia. Qed.

Lemma take_nonpos {A : Type} (n : Z) (l : list A) : n <= 0 -> take n l = [].
Proof.
  unfold take. intro. replace (Z.to_nat n) with O by lia. reflexivity.
Qed.

Lemma drop_nonpos {A : Type} (n : Z) (l : list A) : n <= 0 -> drop n l = l.
Proof.
  unfold drop. intro. replace (Z.to_nat n) with O by lia. reflexivity.
Qed.

Lemma drop_drop {A : Type} (a b : Z) (l : list A) :
  0 <= a -> 0 <= b -> drop b (drop a l) = drop (a + b) l.
Proof.
  unfold drop. intros. rewrite skipn_skipn. f_equal. lia.
Qed.

Lemma len_of_take {A : Type} (n : Z) (l : list A) :
  0 <= n <= len_of l -> len_of (take n l) = n.
Proof.
  unfold len_of, take. intro. rewrite length_firstn. lia.
Qed.

Lemma len_of_drop {A : Type} (n : Z) (l : list A) :
  0 <= n <= len_of l -> len_of (drop n l) = len_of l - n.
Proof.
  unfold len_of, drop. intro. rewrite length_skipn. lia.
Qed.

Lemma take_app_exact {A : Type} (a b : list A) : take (len_of a) (a ++ b) = a.
Proof.
  unfold take, len_of. rewrite Nat2Z.id.
  rewrite firstn_app, Nat.sub_diag, firstn_all. cbn. apply app_nil_r.
Qed.

Lemma drop_app_exact {A : Type} (a b : list A) : drop (len_of a) (a ++ b) = b.
Proof.
  unfold drop, len_of. rewrite Nat2Z.id.
  rewrite skipn_app, Nat.sub_diag, skipn_all. reflexivity.
Qed.

Lemma take_app_ge {A : Type} (n : Z) (a b : list A) :
  len_of a <= n -> take n (a ++ b) = a ++ take (n - len_of a) b.
Proof.
  unfold take, len_of. intro. rewrite firstn_app.
  rewrite firstn_all2 by lia. f_equal. f_equal. lia.
Qed.

Lemma take_app_le {A : Type} (n : Z) (a b : list A) :
  n <= len_of a -> take n (a ++ b) = take n a.
Proof.
  unfold take, len_of. intro. rewrite firstn_app.
  replace (Z.to_nat n - List.length a)%nat with O by lia.
  cbn. apply app_nil_r.
Qed.

Lemma size_t_small (z : Z) : 0 <= z < 2 ^ 64 -> size_t z = z.
Proof. intro. unfold size_t. apply Z.mod_small. assumption. Qed.

Lemma BUFSIZ_value : BUFSIZ = 8192.
Proof. reflexivity. Qed.

(** ** [UnixFileOutStream::write] *)

Lemma UnixFileOutStream_write_loop_eq (fuel : nat) (st : kernel)
    (s : list ascii) (len written : Z) :
  UnixFileOutStream_write_loop fuel st s len written =
  if written =? len then Ok st
  else match fuel with
       | O => OutOfFuel
       | S fuel' =>
           if len <? written then Fault PointerOutOfRange
           else
             let '(r, st1) :=
               sys_write st (drop written s) (size_t (len - written)) in
             let new_written := size_t r in
             if new_written <? 0 then Throw (system_error (k_errno st1))
             else UnixFileOutStream_write_loop fuel' st1 s len
                    (size_t (written + new_written))
       end.
Proof. destruct fuel; reflexivity. Qed.

Lemma sys_write_script (k : kernel) (src : list ascii) (len : Z) :
  k_wr (snd (sys_write k src len)) = tl (k_wr k).
Proof.
  unfold sys_write. destruct (k_wr k) as [| [a | e] rest]; reflexivity.
Qed.

Lemma sys_write_past_script (k : kernel) (src : list ascii) (len : Z) :
  k_wr k = [] -> fst (sys_write k src len) = len.
Proof. unfold sys_write. intros ->. reflexivity. Qed.

(** The retry loop always comes to an end within the fuel that [write]
    gives it: one event of the script per turn, then one more turn. *)
Lemma UnixFileOutStream_write_loop_returns (fuel : nat) :
  forall (st : kernel) (s : list ascii) (len written : Z),
    0 <= len < 2 ^ 64 ->
    (List.length (k_wr st) < fuel)%nat ->
    UnixFileOutStream_write_loop fuel st s len written <> OutOfFuel.
Proof.
  induction fuel as [| fuel IH]; intros st s len written Hlen Hfuel;
    [lia |].
  rewrite UnixFileOutStream_write_loop_eq.
  destruct (written =? len); [discriminate |].
  destruct (len <? written); [discriminate |].
  pose proof (sys_write_script st (drop written s) (size_t (len - written)))
    as Hscript.
  pose proof (sys_write_past_script st (drop written s)
                (size_t (len - written))) as Hpast.
  destruct (sys_write st (drop written s) (size_t (len - written)))
    as [r st1]. cbn [fst snd] in Hscript, Hpast.
  cbv zeta. rewrite size_t_nonneg.
  destruct (k_wr st) as [| e rest] eqn:Escript.
  - rewrite UnixFileOutStream_write_loop_eq.
    rewrite Hpast by reflexivity.
    assert (E : size_t (written + size_t (size_t (len - written))) = len).
    { unfold size_t. rewrite Z.mod_mod by lia.
      rewrite Zplus_mod_idemp_r.
      replace (written + (len - written)) with len by lia.
      apply Z.mod_small. assumption. }
    rewrite E, Z.eqb_refl. discriminate.
  - apply IH; [assumption |].
    rewrite Hscript. cbn [tl]. cbn [List.length] in Hfuel. lia.
Qed.

Lemma UnixFileOutStream_write_returns (st : kernel) (s : list ascii) :
  len_of s < 2 ^ 64 -> write st s <> OutOfFuel.
Proof.
  intro Hlen. cbn [write UnixFileOutStream].
  unfold UnixFileOutStream_write. cbv zeta.
  destruct (len_of s =? 0); [discriminate |].
  destruct (sys_write st s (len_of s)) as [r st1].
  rewrite size_t_nonneg.
  destruct (size_t r =? 0); [discriminate |].
  apply UnixFileOutStream_write_loop_returns.
  - split; [apply len_of_nonneg | assumption].
  - lia.
Qed.

Lemma sys_write_accepts (k : kernel) (src : list ascii) (len : Z) :
  wr_error_free k -> 0 <= len ->
  exists n k',
    sys_write k src len = (n, k') /\
    0 <= n <= len /\
    k_out k' = k_out k ++ take n src /\
    k_in k' = k_in k /\
    wr_error_free k'.
Proof.
  unfold wr_error_free, sys_write. intros Hfree Hlen.
  destruct (k_wr k) as [| [a | e] rest] eqn:E.
  - do 2 eexists. split; [reflexivity |]. cbn.
    repeat split; try lia. constructor.
  - do 2 eexists. split; [reflexivity |]. cbn.
    repeat split; try lia. inversion Hfree; assumption.
  - inversion Hfree as [| x l Hx Hl]. destruct Hx.
Qed.

Lemma UnixFileOutStream_write_loop_sound (fuel : nat) :
  forall (st st' : kernel) (s : list ascii) (written : Z),
    wr_error_free st ->
    len_of s < 2 ^ 64 ->
    0 <= written <= len_of s ->
    UnixFileOutStream_write_loop fuel st s (len_of s) written = Ok st' ->
    wr_error_free st' /\
    k_out st' = k_out st ++ drop written s /\
    k_in st' = k_in st.
Proof.
  induction fuel as [| fuel IH]; intros st st' s written Hfree Hlen Hw;
    rewrite UnixFileOutStream_write_loop_eq;
    destruct (Z.eqb_spec written (len_of s)) as [E | NE].
  - intro R. injection R as <-. rewrite drop_all by lia.
    rewrite app_nil_r. auto.
  - discriminate.
  - intro R. injection R as <-. rewrite drop_all by lia.
    rewrite app_nil_r. auto.
  - destruct (Z.ltb_spec (len_of s) written) as [L | _]; [lia |].
    rewrite (size_t_small (len_of s - written)) by lia.
    destruct (sys_write_accepts st (drop written s) (len_of s - written)
                Hfree ltac:(lia))
      as (n & st1 & -> & Hn & Hout & Hin & Hfree1).
    cbv zeta. rewrite size_t_nonneg.
    rewrite (size_t_small n) by lia.
    rewrite (size_t_small (written + n)) by lia.
    intro R. apply IH in R; [| assumption | assumption | lia].
    destruct R as (Hf & Ho & Hi). split; [assumption |].
    split; [| congruence].
    rewrite Ho, Hout, <- app_assoc. f_equal.
    rewrite <- (drop_drop written n) by lia.
    apply take_drop.
Qed.

(** On a descriptor whose writes do not fail, a [write] that returns has
    pushed exactly the bytes of [s], in order, after what was there. *)
Lemma UnixFileOutStream_write_sound (st st' : kernel) (s : list ascii) :
  wr_error_free st ->
  len_of s < 2 ^ 64 ->
  write st s = Ok st' ->
  wr_error_free st' /\ k_out st' = k_out st ++ s /\ k_in st' = k_in st.
Proof.
  intros Hfree Hlen. cbn [write UnixFileOutStream].
  unfold UnixFileOutStream_write. cbv zeta.
  destruct (Z.eqb_spec (len_of s) 0) as [E | NE].
  - intro R. injection R as <-.
    assert (s = []) as ->.
    { destruct s; [reflexivity |]. rewrite len_of_cons in E.
      pose proof (len_of_nonneg s). lia. }
    rewrite app_nil_r. auto.
  - pose proof (len_of_nonneg s) as Hnn.
    destruct (sys_write_accepts st s (len_of s) Hfree Hnn)
      as (n & st1 & -> & Hn & Hout & Hin & Hfree1).
    rewrite size_t_nonneg, (size_t_small n) by lia.
    destruct (n =? 0); [discriminate |].
    intro R.
    apply UnixFileOutStream_write_loop_sound in R;
      [| assumption | assumption | lia].
    destruct R as (Hf & Ho & Hi). split; [assumption |].
    split; [| congruence].
    rewrite Ho, Hout, <- app_assoc. f_equal. apply take_drop.
Qed.

(** Past the end of its script the kernel takes every request whole. *)
Lemma UnixFileOutStream_write_total (st : kernel) (s : list ascii) :
  k_wr st = [] ->
  len_of s < 2 ^ 64 ->
  exists st', write st s = Ok st' /\ k_wr st' = [].
Proof.
  intros Hscript Hlen. cbn [write UnixFileOutStream].
  unfold UnixFileOutStream_write. cbv zeta.
  destruct (Z.eqb_spec (len_of s) 0) as [E | NE]; [eauto |].
  pose proof (len_of_nonneg s) as Hnn.
  unfold sys_write. rewrite Hscript.
  rewrite size_t_nonneg, (size_t_small (len_of s)) by lia.
  destruct (Z.eqb_spec (len_of s) 0) as [E | _]; [contradiction |].
  rewrite UnixFileOutStream_write_loop_eq, Z.eqb_refl.
  eexists. split; reflexivity.
Qed.

Lemma UnixFileOutStream_write_loop_never_throws (fuel : nat) :
  forall (st : kernel) (s : list ascii) (len written : Z) (e : exn),
    UnixFileOutStream_write_loop fuel st s len written <> Throw e.
Proof.
  induction fuel as [| fuel IH]; intros st s len written e;
    rewrite UnixFileOutStream_write_loop_eq;
    destruct (written =? len); try discriminate.
  destruct (len <? written); [discriminate |].
  destruct (sys_write st (drop written s) (size_t (len - written)))
    as [r st1].
  cbv zeta. rewrite size_t_nonneg. apply IH.
Qed.

(** The one exception [UnixFileOutStream::write] can raise is [EPIPE]:
    the tests [written < 0] and [new_written < 0] are on a [size_t]. *)
Lemma UnixFileOutStream_write_throws_only_EPIPE (st : kernel)
    (s : list ascii) (e : exn) :
  write st s = Throw e -> e = system_error EPIPE.
Proof.
  cbn [write UnixFileOutStream]. unfold UnixFileOutStream_write. cbv zeta.
  destruct (len_of s =? 0); [discriminate |].
  destruct (sys_write st s (len_of s)) as [r st1].
  rewrite size_t_nonneg.
  destruct (size_t r =? 0).
  - intro R. injection R as <-. reflexivity.
  - intro R. apply UnixFileOutStream_write_loop_never_throws in R.
    contradiction.
Qed.

(** However long the kernel keeps taking nothing, the loop keeps calling
    it: [n] empty writes after a short first one cost [n] more calls, and
    none of them is reported. *)
Lemma UnixFileOutStream_write_loop_spins (n : nat) :
  forall (fuel : nat) (out : list ascii) (tr : list syscall),
    (n < fuel)%nat ->
    UnixFileOutStream_write_loop fuel
      (mkKernel [] (repeat (WrAccept 0) n) out 0 tr) (bytes_of "ab") 2 1
    = Ok (mkKernel [] [] (out ++ ["b"%char]) 0
            (tr ++ repeat (SysWrite 1) (S n))).
Proof.
  induction n as [| n IH]; intros fuel out tr Hfuel;
    (destruct fuel as [| fuel]; [lia |]);
    rewrite UnixFileOutStream_write_loop_eq.
  - change (1 =? 2) with false. change (2 <? 1) with false.
    cbv iota. unfold sys_write. cbn [repeat k_wr k_in k_out k_errno k_trace].
    change (size_t (2 - 1)) with 1. cbv zeta. cbv iota.
    change (size_t 1 <? 0) with false. cbv iota.
    change (size_t (1 + size_t 1)) with 2.
    rewrite UnixFileOutStream_write_loop_eq. reflexivity.
  - change (1 =? 2) with false. change (2 <? 1) with false.
    cbv iota. unfold sys_write. cbn [repeat k_wr k_in k_out k_errno k_trace].
    change (size_t (2 - 1)) with 1. cbv zeta. cbv iota.
    change (Z.max 0 (Z.min 0 1)) with 0.
    change (size_t 0 <? 0) with false. cbv iota.
    change (size_t (1 + size_t 0)) with 1.
    rewrite IH by lia.
    change (take 0 (drop 1 (bytes_of "ab"))) with (@nil ascii).
    rewrite app_nil_r, <- app_assoc. reflexivity.
Qed.

Lemma UnixFileOutStream_write_spins (n : nat) :
  write (fresh_kernel [] (WrAccept 1 :: repeat (WrAccept 0) n))
    (bytes_of "ab")
  = Ok (mkKernel [] [] (bytes_of "ab") 0
          (SysWrite 2 :: repeat (SysWrite 1) (S n))).
Proof.
  cbn [write UnixFileOutStream].
  unfold UnixFileOutStream_write, fresh_kernel, sys_write.
  cbn [k_wr k_in k_out k_errno k_trace]. cbv zeta.
  change (len_of (bytes_of "ab")) with 2.
  change (size_t (Z.max 0 (Z.min 1 2))) with 1.
  change (2 =? 0) with false. change (1 <? 0) with false.
  change (1 =? 0) with false. cbv iota.
  rewrite UnixFileOutStream_write_loop_spins
    by (rewrite repeat_length; lia).
  reflexivity.
Qed.

(** ** The write buffer over a backend that keeps what it is given *)

Lemma store_at_length {A : Type} (i : nat) (x : A) (l : list A) :
  List.length (store_at i x l) = List.length l.
Proof.
  revert i. induction l as [| y l IH]; intros [| i]; cbn; congruence.
Qed.

Lemma firstn_store_at {A : Type} (i : nat) (x : A) (l : list A) :
  (i < List.length l)%nat ->
  firstn (S i) (store_at i x l) = firstn i l ++ [x].
Proof.
  revert i. induction l as [| y l IH]; intros [| i] Hi; cbn in *;
    try lia; [reflexivity |].
  f_equal. apply IH. lia.
Qed.

Section BufferedOutProps.
Context {St : Type} {O : OutStream St}.
Variable good : St -> Prop.
Variable sink : St -> list ascii.
Hypothesis write_sound :
  forall (st st' : St) (bs : list ascii),
    good st -> len_of bs < 2 ^ 64 -> write st bs = Ok st' ->
    good st' /\ sink st' = sink st ++ bs.

Lemma pending_bytes_wf (st : BufferedOutStream St) :
  wf_out st -> pending_bytes st = Ok (pending st).
Proof.
  unfold wf_out, pending_bytes, pending. intros [Htop Hbuf].
  destruct (o_buf st) as [b |].
  - destruct (Z.leb_spec (o_top st) (len_of b)); [reflexivity | lia].
  - rewrite Hbuf. reflexivity.
Qed.

Lemma pending_length (st : BufferedOutStream St) :
  wf_out st -> len_of (pending st) = o_top st.
Proof.
  unfold wf_out, pending. intros [Htop Hbuf].
  destruct (o_buf st) as [b |].
  - apply len_of_take. lia.
  - rewrite Hbuf. reflexivity.
Qed.

Lemma BufferedOutStream_flush_sound (st st' : BufferedOutStream St) :
  wf_out st -> good (o_out st) ->
  BufferedOutStream_flush st = Ok st' ->
  wf_out st' /\ good (o_out st') /\
  o_top st' = 0 /\ o_buf st' = o_buf st /\ o_mode st' = o_mode st /\
  sink (o_out st') = sink (o_out st) ++ pending st.
Proof.
  intros Hwf Hgood. unfold BufferedOutStream_flush.
  rewrite (pending_bytes_wf st Hwf). cbn [bind].
  destruct (write (o_out st) (pending st)) as [out1 | | | |] eqn:W;
    cbn [bind]; try discriminate.
  intro R. injection R as <-. cbn [o_out o_top o_buf o_mode].
  apply write_sound in W; [| assumption |].
  - destruct W as [Hg Hs].
    split; [| repeat split; assumption].
    unfold wf_out. cbn [o_top o_buf]. split; [unfold BUFSIZ; lia |].
    destruct (o_buf st) as [b |]; [apply len_of_nonneg | reflexivity].
  - rewrite (pending_length st Hwf). destruct Hwf as [Htop _].
    unfold BUFSIZ in Htop. lia.
Qed.

Lemma store_byte_sound (st st' : BufferedOutStream St) (c : ascii) :
  wf_out st -> o_top st < BUFSIZ ->
  store_byte st c = Ok st' ->
  wf_out st' /\ o_out st' = o_out st /\ o_top st' = o_top st + 1 /\
  o_mode st' = o_mode st /\
  allocated_capacity st' = allocated_capacity st /\
  pending st' = pending st ++ [c].
Proof.
  intros [Htop Hbuf] Hlt. unfold store_byte, wf_out, allocated_capacity, pending.
  destruct (o_buf st) as [b |]; [| discriminate].
  destruct (Z.leb_spec 0 (o_top st)); [| lia]. cbn [andb].
  destruct (Z.ltb_spec (o_top st) (len_of b)) as [Hin | _]; [| discriminate].
  intro R. injection R as <-. cbn [o_out o_top o_buf o_mode].
  unfold BUFSIZ in *.
  rewrite size_t_small by lia.
  assert (Hlen : len_of (store_at (Z.to_nat (o_top st)) c b) = len_of b).
  { unfold len_of. rewrite store_at_length. reflexivity. }
  rewrite Hlen. repeat split; try lia.
  unfold take. replace (Z.to_nat (o_top st + 1)) with (S (Z.to_nat (o_top st)))
    by lia.
  apply firstn_store_at. unfold len_of in Hin. lia.
Qed.

Lemma append_byte_sound (st st' : BufferedOutStream St) (c : ascii) :
  wf_out st -> good (o_out st) ->
  append_byte st c = Ok st' ->
  wf_out st' /\ good (o_out st') /\
  o_mode st' = o_mode st /\
  allocated_capacity st' = allocated_capacity st /\
  o_top st' <= o_top st + 1 /\
  submitted sink st' = submitted sink st ++ [c] /\
  (exists x, sink (o_out st') = sink (o_out st) ++ x) /\
  (o_mode st = LineBuf -> c = newline -> o_top st' = 0) /\
  (o_mode st = FullBuf -> o_top st < BUFSIZ -> o_out st' = o_out st).
Proof.
  intros Hwf Hgood. unfold append_byte.
  (* the capacity-triggered flush *)
  destruct (if o_top st =? BUFSIZ then BufferedOutStream_flush st else Ok st)
    as [st1 | | | |] eqn:E1; cbn [bind]; try discriminate.
  assert (H1 : wf_out st1 /\ good (o_out st1) /\ o_top st1 < BUFSIZ /\
               o_top st1 <= o_top st /\
               o_mode st1 = o_mode st /\
               allocated_capacity st1 = allocated_capacity st /\
               submitted sink st1 = submitted sink st /\
               (exists x, sink (o_out st1) = sink (o_out st) ++ x) /\
               (o_top st < BUFSIZ -> st1 = st)).
  { destruct (Z.eqb_spec (o_top st) BUFSIZ) as [Efull | Nfull].
    - apply BufferedOutStream_flush_sound in E1; [| assumption | assumption].
      destruct E1 as (Hw1 & Hg1 & Ht1 & Hb1 & Hm1 & Hs1).
      repeat split; try assumption; try (apply Hw1).
      + rewrite Ht1. unfold BUFSIZ. lia.
      + rewrite Ht1. destruct Hwf. lia.
      + unfold allocated_capacity. rewrite Hb1. reflexivity.
      + unfold submitted, pending at 1. rewrite Hb1, Ht1, Hs1.
        destruct (o_buf st); rewrite ?take_nonpos by lia;
          apply app_nil_r.
      + eauto.
      + lia.
    - injection E1 as <-. destruct Hwf as [Htop Hbuf].
      repeat split; try assumption; try lia.
      exists []. symmetry. apply app_nil_r. }
  destruct H1 as (Hw1 & Hg1 & Hlt1 & Hle1 & Hm1 & Hc1 & Hsub1 & Hsink1 & Hsame1).
  destruct (store_byte st1 c) as [st2 | | | |] eqn:E2; cbn [bind];
    try discriminate.
  apply store_byte_sound in E2; [| assumption | assumption].
  destruct E2 as (Hw2 & Ho2 & Ht2 & Hm2 & Hc2 & Hp2).
  assert (Hsub2 : submitted sink st2 = submitted sink st ++ [c]).
  { unfold submitted. rewrite Ho2, Hp2, app_assoc. f_equal. exact Hsub1. }
  destruct ((mode_value (o_mode st2) =? _IOLBF) && Ascii.eqb c newline)
    eqn:Eline.
  - (* the newline-triggered flush *)
    intro E3.
    apply BufferedOutStream_flush_sound in E3;
      [| assumption | rewrite Ho2; assumption].
    destruct E3 as (Hw3 & Hg3 & Ht3 & Hb3 & Hm3 & Hs3).
    apply andb_prop in Eline. destruct Eline as [Emode Enl].
    split; [assumption |]. split; [assumption |].
    split; [congruence |].
    split; [unfold allocated_capacity in *; rewrite Hb3; congruence |].
    split; [rewrite Ht3; destruct Hwf; lia |].
    split; [| split; [| split]].
    + unfold submitted in Hsub2 |- *. unfold pending at 1.
      rewrite Hb3, Ht3, Hs3, <- Hsub2.
      destruct (o_buf st2); rewrite ?take_nonpos by lia;
        apply app_nil_r.
    + destruct Hsink1 as [x Hx]. exists (x ++ pending st2).
      rewrite Hs3, Ho2, Hx. symmetry. apply app_assoc.
    + intros _ _. exact Ht3.
    + intros Hfull _. rewrite Hm2, Hm1, Hfull in Emode. discriminate.
  - intro R. injection R as <-.
    split; [assumption |]. split; [rewrite Ho2; assumption |].
    split; [congruence |]. split; [congruence |]. split; [lia |].
    split; [assumption |]. split; [| split].
    + rewrite Ho2. assumption.
    + intros Hline Hnl. rewrite Hm2, Hm1, Hline in Eline. subst c.
      discriminate.
    + intros _ Hroom. rewrite Ho2, (Hsame1 Hroom). reflexivity.
Qed.

Lemma BufferedOutStream_write_loop_app (a b : list ascii) :
  forall st : BufferedOutStream St,
    BufferedOutStream_write_loop st (a ++ b) =
    do st1 <- BufferedOutStream_write_loop st a;
    BufferedOutStream_write_loop st1 b.
Proof.
  induction a as [| c a IH]; intro st; cbn [app BufferedOutStream_write_loop].
  - reflexivity.
  - destruct (append_byte st c) as [st1 | | | |]; cbn [bind];
      [apply IH | reflexivity ..].
Qed.

Lemma BufferedOutStream_write_loop_sound (s : list ascii) :
  forall st st' : BufferedOutStream St,
    wf_out st -> good (o_out st) ->
    BufferedOutStream_write_loop st s = Ok st' ->
    wf_out st' /\ good (o_out st') /\
    o_mode st' = o_mode st /\
    allocated_capacity st' = allocated_capacity st /\
    submitted sink st' = submitted sink st ++ s /\
    (exists x, sink (o_out st') = sink (o_out st) ++ x) /\
    (o_mode st = FullBuf -> o_top st + len_of s <= BUFSIZ ->
     o_out st' = o_out st).
Proof.
  induction s as [| c s IH]; intros st st' Hwf Hgood;
    cbn [BufferedOutStream_write_loop].
  - intro R. injection R as <-.
    split; [assumption |]. split; [assumption |].
    split; [reflexivity |]. split; [reflexivity |].
    split; [symmetry; apply app_nil_r |].
    split; [exists []; symmetry; apply app_nil_r | reflexivity].
  - destruct (append_byte st c) as [st1 | | | |] eqn:E; cbn [bind];
      try discriminate.
    apply append_byte_sound in E; [| assumption | assumption].
    destruct E as (Hw1 & Hg1 & Hm1 & Hc1 & Ht1 & Hs1 & [x Hx] & _ & Hfull1).
    intro R. apply IH in R; [| assumption | assumption].
    destruct R as (Hw' & Hg' & Hm' & Hc' & Hs' & [y Hy] & Hfull').
    split; [assumption |]. split; [assumption |].
    split; [congruence |]. split; [congruence |].
    split; [rewrite Hs', Hs1, <- app_assoc; reflexivity |].
    split; [exists (x ++ y); rewrite Hy, Hx; symmetry; apply app_assoc |].
    intros Hmode Hroom. rewrite len_of_cons in Hroom.
    pose proof (len_of_nonneg s).
    rewrite Hfull'; [apply Hfull1; [assumption | lia] | congruence | lia].
Qed.

(** In Line mode the byte stored last by a [write] of [s ++ "\n"] is
    flushed with everything before it. *)
Lemma BufferedOutStream_write_loop_newline (s : list ascii)
    (st st' : BufferedOutStream St) :
  wf_out st -> good (o_out st) -> o_mode st = LineBuf ->
  BufferedOutStream_write_loop st (s ++ [newline]) = Ok st' ->
  wf_out st' /\ good (o_out st') /\ o_mode st' = LineBuf /\
  pending st' = [] /\
  sink (o_out st') = submitted sink st ++ s ++ [newline].
Proof.
  intros Hwf Hgood Hmode. rewrite BufferedOutStream_write_loop_app.
  destruct (BufferedOutStream_write_loop st s) as [st1 | | | |] eqn:E1;
    cbn [bind]; try discriminate.
  apply BufferedOutStream_write_loop_sound in E1; [| assumption | assumption].
  destruct E1 as (Hw1 & Hg1 & Hm1 & _ & Hs1 & _).
  cbn [BufferedOutStream_write_loop].
  destruct (append_byte st1 newline) as [st2 | | | |] eqn:E2; cbn [bind];
    try discriminate.
  intro R. injection R as <-.
  apply append_byte_sound in E2; [| assumption | assumption].
  destruct E2 as (Hw2 & Hg2 & Hm2 & _ & _ & Hs2 & _ & Hzero & _).
  split; [assumption |]. split; [assumption |]. split; [congruence |].
  assert (Ht : o_top st2 = 0) by (apply Hzero; congruence).
  assert (Hp : pending st2 = []).
  { unfold pending. rewrite Ht.
    destruct (o_buf st2); rewrite ?take_nonpos by lia; reflexivity. }
  split; [assumption |].
  rewrite app_assoc, <- Hs1, <- Hs2.
  unfold submitted. rewrite Hp. symmetry. apply app_nil_r.
Qed.

(** A newline at position [i] of [s]: when [write] returns, the backend
    holds everything submitted before the call and [s[0..n)] for some
    [n > i]. *)
Lemma BufferedOutStream_write_loop_line_mode (s : list ascii) (i : nat)
    (st st' : BufferedOutStream St) :
  wf_out st -> good (o_out st) -> o_mode st = LineBuf ->
  nth_error s i = Some newline ->
  BufferedOutStream_write_loop st s = Ok st' ->
  exists n,
    Z.of_nat i < n <= len_of s /\
    sink (o_out st') = submitted sink st ++ take n s.
Proof.
  intros Hwf Hgood Hmode Hnl.
  apply nth_error_split in Hnl. destruct Hnl as (s1 & s2 & -> & Hi).
  change (s1 ++ newline :: s2) with (s1 ++ [newline] ++ s2).
  rewrite app_assoc, BufferedOutStream_write_loop_app.
  destruct (BufferedOutStream_write_loop st (s1 ++ [newline]))
    as [st1 | | | |] eqn:E1; cbn [bind]; try discriminate.
  apply BufferedOutStream_write_loop_newline in E1; try assumption.
  destruct E1 as (Hw1 & Hg1 & Hm1 & Hp1 & Hs1).
  intro E2.
  apply BufferedOutStream_write_loop_sound in E2; [| assumption | assumption].
  destruct E2 as (_ & _ & _ & _ & Hs2 & [x Hx] & _).
  assert (Hsplit : x ++ pending st' = s2).
  { unfold submitted in Hs2. rewrite Hp1, app_nil_r, Hx, <- app_assoc in Hs2.
    apply app_inv_head in Hs2. exact Hs2. }
  exists (len_of (s1 ++ [newline]) + len_of x).
  pose proof (len_of_nonneg x). pose proof (len_of_nonneg (pending st')).
  rewrite <- Hsplit, !len_of_app.
  change (len_of [newline]) with 1.
  replace (len_of s1) with (Z.of_nat i) by (unfold len_of; lia).
  split; [lia |].
  rewrite Hx, Hs1, <- !app_assoc. f_equal.
  transitivity (take (len_of (s1 ++ [newline] ++ x))
                  ((s1 ++ [newline] ++ x) ++ pending st')).
  - symmetry. apply take_app_exact.
  - f_equal.
    + rewrite !len_of_app. change (len_of [newline]) with 1.
      unfold len_of. lia.
    + rewrite <- !app_assoc. reflexivity.
Qed.

(** The capacity trigger: with [top == BUFSIZ] the pending bytes are
    flushed before the new byte is stored. *)
Lemma append_byte_flushes_when_full (st st' : BufferedOutStream St)
    (c : ascii) :
  wf_out st -> good (o_out st) -> o_top st = BUFSIZ ->
  append_byte st c = Ok st' ->
  exists y, sink (o_out st') = sink (o_out st) ++ pending st ++ y.
Proof.
  intros Hwf Hgood Hfull E.
  assert (E' : (do st1 <- BufferedOutStream_flush st; append_byte st1 c)
               = Ok st').
  { unfold append_byte in E. rewrite Hfull, Z.eqb_refl in E.
    destruct (BufferedOutStream_flush st) as [st1 | | | |] eqn:F;
      cbn [bind] in E |- *; try discriminate.
    apply BufferedOutStream_flush_sound in F; [| assumption | assumption].
    destruct F as (_ & _ & Ht1 & _).
    unfold append_byte. rewrite Ht1. exact E. }
  destruct (BufferedOutStream_flush st) as [st1 | | | |] eqn:F;
    cbn [bind] in E'; try discriminate.
  apply BufferedOutStream_flush_sound in F; [| assumption | assumption].
  destruct F as (Hw1 & Hg1 & _ & _ & _ & Hs1).
  apply append_byte_sound in E'; [| assumption | assumption].
  destruct E' as (_ & _ & _ & _ & _ & _ & [x Hx] & _).
  exists x. rewrite Hx, Hs1. symmetry. apply app_assoc.
Qed.

Lemma append_byte_newline (st st' : BufferedOutStream St) :
  wf_out st -> good (o_out st) -> o_mode st = LineBuf ->
  append_byte st newline = Ok st' ->
  sink (o_out st') = sink (o_out st) ++ pending st ++ [newline] /\
  o_top st' = 0.
Proof.
  intros Hwf Hgood Hmode E.
  apply append_byte_sound in E; [| assumption | assumption].
  destruct E as (_ & _ & _ & _ & _ & Hs & _ & Hzero & _).
  assert (Ht : o_top st' = 0) by (apply Hzero; auto).
  split; [| assumption].
  rewrite app_assoc. fold (submitted sink st). rewrite <- Hs.
  unfold submitted, pending. rewrite Ht.
  destruct (o_buf st'); rewrite ?take_nonpos by lia;
    symmetry; apply app_nil_r.
Qed.

(** The destructor hands the pending bytes to the backend, then destroys
    the backend; an exception on the way ends the program. *)
Lemma BufferedOutStream_destroy_eq (st : BufferedOutStream St) :
  wf_out st ->
  BufferedOutStream_destroy st =
  do out1 <- in_destructor (write (o_out st) (pending st));
  do out2 <- in_destructor (destroy out1);
  Ok (mkBufferedOutStream out2 0 (o_mode st) None).
Proof.
  intro Hwf. unfold BufferedOutStream_destroy, BufferedOutStream_flush.
  rewrite (pending_bytes_wf st Hwf). cbn [bind].
  destruct (write (o_out st) (pending st)); reflexivity.
Qed.
End BufferedOutProps.

(** ** The write buffer over a backend that accepts every write *)

Section BufferedOutTotal.
Context {St : Type} {O : OutStream St}.
Variable ready : St -> Prop.
Hypothesis write_total :
  forall (st : St) (bs : list ascii),
    ready st -> len_of bs < 2 ^ 64 ->
    exists st', write st bs = Ok st' /\ ready st'.

Lemma BufferedOutStream_flush_total (st : BufferedOutStream St) :
  wf_out st -> ready (o_out st) ->
  exists st',
    BufferedOutStream_flush st = Ok st' /\
    ready (o_out st') /\ wf_out st' /\
    o_top st' = 0 /\ o_buf st' = o_buf st /\ o_mode st' = o_mode st.
Proof.
  intros Hwf Hready. unfold BufferedOutStream_flush.
  rewrite (pending_bytes_wf st Hwf). cbn [bind].
  destruct (write_total (o_out st) (pending st) Hready) as (out1 & -> & Hr1).
  { rewrite (pending_length st Hwf). destruct Hwf as [Htop _].
    unfold BUFSIZ in Htop. lia. }
  cbn [bind]. eexists. split; [reflexivity |]. cbn [o_out o_top o_buf o_mode].
  split; [assumption |]. split; [| auto].
  unfold wf_out. cbn [o_top o_buf]. split; [unfold BUFSIZ; lia |].
  destruct (o_buf st) as [b |]; [apply len_of_nonneg | reflexivity].
Qed.

Lemma store_byte_total (st : BufferedOutStream St) (c : ascii) :
  0 <= o_top st < allocated_capacity st ->
  exists st', store_byte st c = Ok st'.
Proof.
  unfold allocated_capacity, store_byte. intro Htop.
  destruct (o_buf st) as [b |]; [| lia].
  destruct (Z.leb_spec 0 (o_top st)); [| lia].
  destruct (Z.ltb_spec (o_top st) (len_of b)); [| lia].
  cbn [andb]. eauto.
Qed.

Lemma append_byte_total (st : BufferedOutStream St) (c : ascii) :
  wf_out st -> ready (o_out st) ->
  BUFSIZ <= allocated_capacity st \/ o_top st < allocated_capacity st ->
  exists st',
    append_byte st c = Ok st' /\
    ready (o_out st') /\ wf_out st' /\
    allocated_capacity st' = allocated_capacity st /\
    o_top st' <= o_top st + 1.
Proof.
  intros Hwf Hready Hroom. unfold append_byte.
  assert (H1 : exists st1,
             (if o_top st =? BUFSIZ then BufferedOutStream_flush st
              else Ok st) = Ok st1 /\
             ready (o_out st1) /\ wf_out st1 /\
             o_buf st1 = o_buf st /\
             o_top st1 < BUFSIZ /\ o_top st1 <= o_top st).
  { destruct (Z.eqb_spec (o_top st) BUFSIZ) as [Efull | Nfull].
    - destruct (BufferedOutStream_flush_total st Hwf Hready)
        as (st1 & E & Hr & Hw & Ht & Hb & _).
      exists st1. rewrite Ht. unfold BUFSIZ in *.
      destruct Hwf as [Htop _]. repeat split; try assumption; try lia;
        apply Hw.
    - exists st. destruct Hwf as [Htop Hbuf].
      repeat split; try assumption; lia. }
  destruct H1 as (st1 & -> & Hr1 & Hw1 & Hb1 & Hlt1 & Hle1). cbn [bind].
  assert (Hc1 : allocated_capacity st1 = allocated_capacity st)
    by (unfold allocated_capacity; rewrite Hb1; reflexivity).
  destruct (store_byte_total st1 c) as [st2 E2].
  { rewrite Hc1. destruct Hw1 as [Htop1 _]. lia. }
  rewrite E2. cbn [bind].
  apply store_byte_sound in E2; [| assumption | assumption].
  destruct E2 as (Hw2 & Ho2 & Ht2 & Hm2 & Hc2 & _).
  destruct ((mode_value (o_mode st2) =? _IOLBF) && Ascii.eqb c newline).
  - destruct (BufferedOutStream_flush_total st2 Hw2)
      as (st3 & E3 & Hr3 & Hw3 & Ht3 & Hb3 & _);
      [rewrite Ho2; assumption |].
    exists st3. split; [assumption |]. split; [assumption |].
    split; [assumption |]. destruct Hwf as [Htop _].
    split; [| lia].
    unfold allocated_capacity in *. rewrite Hb3. congruence.
  - exists st2. split; [reflexivity |].
    split; [rewrite Ho2; assumption |]. split; [assumption |].
    split; [congruence | lia].
Qed.

Lemma BufferedOutStream_write_loop_total (s : list ascii) :
  forall st : BufferedOutStream St,
    wf_out st -> ready (o_out st) -> fits st s ->
    exists st',
      BufferedOutStream_write_loop st s = Ok st' /\ ready (o_out st').
Proof.
  induction s as [| c s IH]; intros st Hwf Hready Hfits;
    cbn [BufferedOutStream_write_loop].
  - eauto.
  - unfold fits in *. rewrite len_of_cons in Hfits.
    pose proof (len_of_nonneg s) as Hs.
    destruct (append_byte_total st c Hwf Hready)
      as (st1 & -> & Hr1 & Hw1 & Hc1 & Ht1); [lia |].
    cbn [bind]. apply IH; [assumption | assumption |].
    unfold fits. rewrite Hc1. lia.
Qed.
End BufferedOutTotal.

(** ** The descriptor as the backend of a write buffer *)

Lemma UnixFileOutStream_write_loop_error_free (fuel : nat) :
  forall (st : kernel) (s : list ascii) (written : Z),
    wr_error_free st ->
    len_of s < 2 ^ 64 ->
    0 <= written <= len_of s ->
    (List.length (k_wr st) < fuel)%nat ->
    exists st', UnixFileOutStream_write_loop fuel st s (len_of s) written
                = Ok st'.
Proof.
  induction fuel as [| fuel IH]; intros st s written Hfree Hlen Hw Hfuel;
    [lia |].
  rewrite UnixFileOutStream_write_loop_eq.
  destruct (Z.eqb_spec written (len_of s)) as [E | NE]; [eauto |].
  destruct (Z.ltb_spec (len_of s) written) as [L | _]; [lia |].
  rewrite (size_t_small (len_of s - written)) by lia.
  pose proof (sys_write_script st (drop written s) (len_of s - written))
    as Hscript.
  pose proof (sys_write_past_script st (drop written s)
                (len_of s - written)) as Hpast.
  destruct (sys_write_accepts st (drop written s) (len_of s - written)
              Hfree ltac:(lia))
    as (n & st1 & E1 & Hn & Hout & Hin & Hfree1).
  rewrite E1 in Hscript, Hpast |- *. cbn [fst snd] in Hscript, Hpast.
  cbv zeta. rewrite size_t_nonneg.
  rewrite (size_t_small n) by lia.
  rewrite (size_t_small (written + n)) by lia.
  destruct (k_wr st) as [| e rest] eqn:Escript.
  - rewrite Hpast by reflexivity.
    rewrite UnixFileOutStream_write_loop_eq.
    replace (written + (len_of s - written)) with (len_of s) by lia.
    rewrite Z.eqb_refl. eauto.
  - apply IH; [assumption | assumption | lia |].
    rewrite Hscript. cbn [tl]. cbn [List.length] in Hfuel. lia.
Qed.

(** On a descriptor whose writes do not fail, [write] either pushes all
    of [s] or raises [EPIPE], and it raises [EPIPE] only when the first
    [::write] took nothing. *)
Lemma UnixFileOutStream_write_error_free (st : kernel) (s : list ascii) :
  wr_error_free st ->
  len_of s < 2 ^ 64 ->
  (exists st', write st s = Ok st') \/
  write st s = Throw (system_error EPIPE).
Proof.
  intros Hfree Hlen. cbn [write UnixFileOutStream].
  unfold UnixFileOutStream_write. cbv zeta.
  destruct (Z.eqb_spec (len_of s) 0) as [E | NE]; [eauto |].
  pose proof (len_of_nonneg s) as Hnn.
  destruct (sys_write_accepts st s (len_of s) Hfree Hnn)
    as (n & st1 & -> & Hn & Hout & Hin & Hfree1).
  rewrite size_t_nonneg, (size_t_small n) by lia.
  destruct (Z.eqb_spec n 0) as [E0 | N0]; [right; reflexivity |].
  left. apply UnixFileOutStream_write_loop_error_free;
    [assumption | assumption | lia | lia].
Qed.

Lemma wr_error_free_write_sound :
  forall (st st' : kernel) (bs : list ascii),
    wr_error_free st -> len_of bs < 2 ^ 64 -> write st bs = Ok st' ->
    wr_error_free st' /\ k_out st' = k_out st ++ bs.
Proof.
  intros st st' bs Hfree Hlen W.
  destruct (UnixFileOutStream_write_sound st st' bs Hfree Hlen W)
    as (Hf & Ho & _).
  auto.
Qed.

Lemma past_script_write_total :
  forall (st : kernel) (bs : list ascii),
    k_wr st = [] -> len_of bs < 2 ^ 64 ->
    exists st', write st bs = Ok st' /\ k_wr st' = [].
Proof. exact UnixFileOutStream_write_total. Qed.

Lemma past_script_error_free (k : kernel) : k_wr k = [] -> wr_error_free k.
Proof. unfold wr_error_free. intros ->. constructor. Qed.

(** ** Line mode *)

(** The newline trigger, for the calls that return: in Line mode, over a
    descriptor whose writes do not fail, when a
    [write] of [s] returns and [s] has a newline at position [i], the
    descriptor has received everything that was pending before the call
    and the bytes [s[0..n)] for some [n > i], that is at least [s[0..i]];
    [putchar] of a newline flushes it with all that was pending; with
    [top] at the threshold [BUFSIZ] (the same test as in Full mode) the
    pending bytes are flushed before the new byte is stored; and the call
    does return whenever the descriptor takes every request and the bytes
    find room in the buffer. *)
Theorem line_mode_flush_trigger (st : BufferedOutStream kernel)
    (s : list ascii) :
  wf_out st -> wr_error_free (o_out st) -> o_mode st = LineBuf ->
  (forall st' i,
      write st s = Ok st' -> nth_error s i = Some newline ->
      exists n,
        Z.of_nat i < n <= len_of s /\
        k_out (o_out st') = k_out (o_out st) ++ pending st ++ take n s) /\
  (forall st',
      putchar st newline = Ok st' ->
      k_out (o_out st') = k_out (o_out st) ++ pending st ++ [newline] /\
      o_top st' = 0) /\
  (forall st' c,
      o_top st = BUFSIZ -> putchar st c = Ok st' ->
      exists y, k_out (o_out st') = k_out (o_out st) ++ pending st ++ y) /\
  (k_wr (o_out st) = [] -> fits st s -> exists st', write st s = Ok st').
Proof.
  intros Hwf Hfree Hmode.
  cbn [write putchar BufferedOutStream_OutStream].
  unfold BufferedOutStream_write, BufferedOutStream_putchar.
  rewrite Hmode. change (mode_value LineBuf =? _IONBF) with false. cbv iota.
  split; [| split; [| split]].
  - intros st' i W Hnl.
    destruct (BufferedOutStream_write_loop_line_mode wr_error_free k_out
                wr_error_free_write_sound s i st st' Hwf Hfree Hmode Hnl W)
      as (n & Hn & Hout).
    exists n. split; [assumption |].
    rewrite Hout. unfold submitted. symmetry. apply app_assoc.
  - intros st' E.
    exact (append_byte_newline wr_error_free k_out wr_error_free_write_sound
             st st' Hwf Hfree Hmode E).
  - intros st' c Hfull E.
    exact (append_byte_flushes_when_full wr_error_free k_out
             wr_error_free_write_sound st st' c Hwf Hfree Hfull E).
  - intros Hready Hfits.
    destruct (BufferedOutStream_write_loop_total (fun k => k_wr k = [])
                past_script_write_total s st Hwf Hready Hfits)
      as (st' & E & _).
    eauto.
Qed.

Lemma line_mode_flush_trigger_witness :
  let st := buffered_out LineBuf (fresh_kernel [] []) in
  let s := ["h"; "i"; newline; "y"; "o"]%char in
  (forall st' i,
      write st s = Ok st' -> nth_error s i = Some newline ->
      exists n,
        Z.of_nat i < n <= len_of s /\
        k_out (o_out st') = k_out (o_out st) ++ pending st ++ take n s) /\
  (forall st',
      putchar st newline = Ok st' ->
      k_out (o_out st') = k_out (o_out st) ++ pending st ++ [newline] /\
      o_top st' = 0) /\
  (forall st' c,
      o_top st = BUFSIZ -> putchar st c = Ok st' ->
      exists y, k_out (o_out st') = k_out (o_out st) ++ pending st ++ y) /\
  (k_wr (o_out st) = [] -> fits st s -> exists st', write st s = Ok st').
Proof.
  intros st s. apply (line_mode_flush_trigger st s).
  - split; [vm_compute; split; discriminate | vm_compute; discriminate].
  - constructor.
  - reflexivity.
Defined.

(** ** Teardown *)

(** C9: destroying a write buffer over a descriptor whose writes do not
    fail: the pending bytes [buf[0..top)] are written to the descriptor,
    which then holds them after all it held before, and only then is the
    descriptor closed and the buffer freed; the one other outcome is that
    the first [::write] takes nothing, [EPIPE] leaves the destructor and
    the program is terminated.  When the descriptor takes every request
    the destructor returns. *)
Theorem destructor_flushes_pending_bytes (st : BufferedOutStream kernel) :
  wf_out st -> wr_error_free (o_out st) ->
  ((exists k1,
       write (o_out st) (pending st) = Ok k1 /\
       k_out k1 = k_out (o_out st) ++ pending st /\
       destroy st
         = Ok (mkBufferedOutStream (sys_close k1) 0 (o_mode st) None)) \/
   (write (o_out st) (pending st) = Throw (system_error EPIPE) /\
    destroy st = Terminate)) /\
  (k_wr (o_out st) = [] ->
   exists st',
     destroy st = Ok st' /\
     k_out (o_out st') = k_out (o_out st) ++ pending st /\
     o_buf st' = None).
Proof.
  intros Hwf Hfree.
  cbn [destroy BufferedOutStream_OutStream].
  rewrite (BufferedOutStream_destroy_eq st Hwf).
  assert (Hlen : len_of (pending st) < 2 ^ 64).
  { rewrite (pending_length st Hwf). destruct Hwf as [Htop _].
    unfold BUFSIZ in Htop. lia. }
  split.
  - destruct (UnixFileOutStream_write_error_free (o_out st) (pending st)
                Hfree Hlen) as [[k1 W] | W].
    + left. exists k1. split; [assumption |].
      destruct (UnixFileOutStream_write_sound _ _ _ Hfree Hlen W)
        as (_ & Hout & _).
      split; [assumption |]. rewrite W. reflexivity.
    + right. split; [assumption |]. rewrite W. reflexivity.
  - intro Hready.
    destruct (UnixFileOutStream_write_total (o_out st) (pending st)
                Hready Hlen) as (k1 & W & _).
    destruct (UnixFileOutStream_write_sound _ _ _ Hfree Hlen W)
      as (_ & Hout & _).
    rewrite W. cbn. eexists. split; [reflexivity |]. cbn. auto.
Qed.

Lemma destructor_flushes_pending_bytes_witness :
  let st :=
    mkBufferedOutStream (fresh_kernel [] []) 2 FullBuf
      (Some (bytes_of "ok" ++ valloc 4094)) in
  ((exists k1,
       write (o_out st) (pending st) = Ok k1 /\
       k_out k1 = k_out (o_out st) ++ pending st /\
       destroy st
         = Ok (mkBufferedOutStream (sys_close k1) 0 (o_mode st) None)) \/
   (write (o_out st) (pending st) = Throw (system_error EPIPE) /\
    destroy st = Terminate)) /\
  (k_wr (o_out st) = [] ->
   exists st',
     destroy st = Ok st' /\
     k_out (o_out st') = k_out (o_out st) ++ pending st /\
     o_buf st' = None).
Proof.
  intro st. apply (destructor_flushes_pending_bytes st).
  - split; [vm_compute; split; discriminate | vm_compute; discriminate].
  - constructor.
Defined.

(** ** The read buffer *)

Lemma int_to_char_char_to_int (c : ascii) : int_to_char (char_to_int c) = c.
Proof.
  destruct c as [[] [] [] [] [] [] [] []]; vm_compute; reflexivity.
Qed.

Lemma skipn_nth_cons {A : Type} (d : A) (l : list A) :
  forall i : nat,
    (i < List.length l)%nat -> skipn i l = nth i l d :: skipn (S i) l.
Proof.
  induction l as [| x l IH]; intros [| i] Hi; cbn in *; try lia.
  - reflexivity.
  - apply IH. lia.
Qed.

Lemma drop_nth_cons {A : Type} (d : A) (l : list A) (i : Z) :
  0 <= i < len_of l ->
  drop i l = nth (Z.to_nat i) l d :: drop (i + 1) l.
Proof.
  unfold drop, len_of. intro Hi.
  replace (Z.to_nat (i + 1)) with (S (Z.to_nat i)) by lia.
  apply skipn_nth_cons. lia.
Qed.

Lemma take_cons {A : Type} (x : A) (l : list A) (n : Z) :
  0 < n -> take n (x :: l) = x :: take (n - 1) l.
Proof.
  unfold take. intro Hn.
  replace (Z.to_nat n) with (S (Z.to_nat (n - 1))) by lia. reflexivity.
Qed.

Section BufferedInProps.
Context {St : Type} {I : InStream St}.

Lemma next_byte_wf (st : BufferedInStream St) :
  wf_in st -> i_top st < i_max st ->
  next_byte st
  = Ok (nth (Z.to_nat (i_top st)) (i_buf st) zero_byte,
        mkBufferedInStream (i_in st) (i_buf st) (i_top st + 1) (i_max st)).
Proof.
  intros (Htop & Hmax & Hlen) Hlt. unfold next_byte.
  destruct (Z.leb_spec 0 (i_top st)); [| lia].
  destruct (Z.ltb_spec (i_top st) (len_of (i_buf st))); [| lia].
  cbn [andb]. unfold BUFSIZ in Hlen. rewrite size_t_small by lia.
  reflexivity.
Qed.

Lemma window_cons (st : BufferedInStream St) :
  wf_in st -> i_top st < i_max st ->
  window st
  = nth (Z.to_nat (i_top st)) (i_buf st) zero_byte
    :: window (mkBufferedInStream (i_in st) (i_buf st) (i_top st + 1)
                 (i_max st)).
Proof.
  intros (Htop & Hmax & Hlen) Hlt. unfold window. cbn [i_top i_max i_buf].
  rewrite (drop_nth_cons zero_byte) by lia.
  rewrite take_cons by lia. f_equal. f_equal. lia.
Qed.

Lemma wf_in_advance (st : BufferedInStream St) :
  wf_in st -> i_top st < i_max st ->
  wf_in (mkBufferedInStream (i_in st) (i_buf st) (i_top st + 1) (i_max st)).
Proof.
  intros (Htop & Hmax & Hlen) Hlt. unfold wf_in. cbn [i_top i_max i_buf].
  lia.
Qed.

(** Serving from the buffer: with a byte in the window, or a byte already
    copied, the loop of [read] copies what the window holds, up to [k]
    bytes, and returns without touching the wrapped stream. *)
Lemma BufferedInStream_read_loop_serves (k : nat) :
  forall (st : BufferedInStream St) (copied : list ascii),
    wf_in st ->
    i_top st < i_max st \/ copied <> [] ->
    let j := Z.min (Z.of_nat k) (i_max st - i_top st) in
    BufferedInStream_read_loop k st copied
    = Ok (len_of (copied ++ take j (window st)),
          copied ++ take j (window st),
          mkBufferedInStream (i_in st) (i_buf st) (i_top st + j) (i_max st)).
Proof.
  induction k as [| k IH]; intros st copied Hwf Hsome j; subst j.
  - cbn [BufferedInStream_read_loop].
    pose proof Hwf as (Htop & _).
    replace (Z.min (Z.of_nat 0) (i_max st - i_top st)) with 0 by lia.
    rewrite take_nonpos, app_nil_r, Z.add_0_r by lia.
    destruct st; reflexivity.
  - cbn [BufferedInStream_read_loop].
    pose proof Hwf as (Htop & Hmax & Hlen).
    destruct (Z.eqb_spec (i_top st) (i_max st)) as [Eex | Nex].
    + destruct Hsome as [Hlt | Hcopied]; [lia |].
      destruct copied as [| c0 copied]; [contradiction |].
      cbn [is_empty negb bind].
      replace (Z.min (Z.of_nat (S k)) (i_max st - i_top st)) with 0 by lia.
      rewrite take_nonpos, app_nil_r, Z.add_0_r by lia.
      destruct st; reflexivity.
    + cbn [bind]. rewrite next_byte_wf by (assumption || lia). cbn [bind].
      rewrite int_to_char_char_to_int.
      rewrite IH;
        [| apply wf_in_advance; assumption || lia
         | right; destruct copied; discriminate].
      cbn [i_top i_max i_buf i_in].
      assert (Hj : Z.min (Z.of_nat (S k)) (i_max st - i_top st)
                   = 1 + Z.min (Z.of_nat k) (i_max st - (i_top st + 1)))
        by lia.
      rewrite Hj. rewrite (window_cons st) by (assumption || lia).
      rewrite take_cons by lia.
      replace (1 + Z.min (Z.of_nat k) (i_max st - (i_top st + 1)) - 1)
        with (Z.min (Z.of_nat k) (i_max st - (i_top st + 1))) by lia.
      rewrite <- app_assoc. cbn [app].
      replace (i_top st + (1 + Z.min (Z.of_nat k) (i_max st - (i_top st + 1))))
        with (i_top st + 1 + Z.min (Z.of_nat k) (i_max st - (i_top st + 1)))
        by lia.
      reflexivity.
Qed.
End BufferedInProps.

Section BufferedInRead.
Context {St : Type} {I : InStream St}.

Lemma window_length (st : BufferedInStream St) :
  wf_in st -> len_of (window st) = i_max st - i_top st.
Proof.
  intros (Htop & Hmax & Hlen). unfold window.
  rewrite len_of_take; [reflexivity |].
  rewrite len_of_drop by lia. lia.
Qed.

Lemma refill_result (st : BufferedInStream St) (n : Z) (data : list ascii)
    (in1 : St) :
  wf_in st ->
  read (i_in st) BUFSIZ = Ok (n, data, in1) ->
  n = len_of data -> n <= BUFSIZ ->
  let st1 := mkBufferedInStream in1 (data ++ drop n (i_buf st)) 0 n in
  refill st = Ok (negb (n =? 0), st1) /\ wf_in st1 /\ window st1 = data.
Proof.
  intros (Htop & Hmax & Hlen) R Hn Hle st1. unfold refill. rewrite R.
  cbn [bind]. subst n.
  destruct (Z.ltb_spec (len_of (i_buf st)) (len_of data)); [lia |].
  split; [reflexivity |]. pose proof (len_of_nonneg data) as Hd.
  split.
  - unfold wf_in, st1. cbn [i_top i_max i_buf].
    rewrite len_of_app, len_of_drop by lia. lia.
  - unfold window, st1. cbn [i_top i_max i_buf].
    rewrite drop_nonpos by lia. rewrite Z.sub_0_r. apply take_app_exact.
Qed.

(** The two cases of [read(dst, len)] with [len > 0]: bytes in the
    buffer on entry, or none. *)
Lemma BufferedInStream_read_cases (st : BufferedInStream St) (len : Z) :
  wf_in st -> 0 < len ->
  (i_top st < i_max st ->
   let j := Z.min len (i_max st - i_top st) in
   read st len
   = Ok (j, take j (window st),
         mkBufferedInStream (i_in st) (i_buf st) (i_top st + j) (i_max st)))
  /\
  (i_top st = i_max st ->
   forall (n : Z) (data : list ascii) (in1 : St),
     read (i_in st) BUFSIZ = Ok (n, data, in1) ->
     n = len_of data -> n <= BUFSIZ ->
     let j := Z.min len n in
     read st len
     = Ok (j, take j data,
           mkBufferedInStream in1 (data ++ drop n (i_buf st)) j n))
  /\
  (i_top st = i_max st ->
   forall e : exn,
     read (i_in st) BUFSIZ = Throw e -> read st len = Throw e).
Proof.
  intros Hwf Hlen.
  cbn [read BufferedInStream_InStream]. unfold BufferedInStream_read.
  split; [| split].
  - intros Hlt. cbv zeta.
    rewrite BufferedInStream_read_loop_serves by (assumption || auto).
    rewrite Z2Nat.id by lia. cbn [app].
    rewrite len_of_take; [reflexivity |].
    rewrite (window_length st Hwf). lia.
  - intros Hex n data in1 R Hn Hle. cbv zeta.
    destruct (refill_result st n data in1 Hwf R Hn Hle)
      as (Hrefill & Hwf1 & Hwin1).
    pose proof (len_of_nonneg data) as Hd.
    destruct (Z.to_nat len) as [| k] eqn:Ek; [lia |].
    destruct (Z.eqb_spec n 0) as [E0 | N0].
    + cbn [BufferedInStream_read_loop].
      rewrite Hex, Z.eqb_refl. cbn [is_empty negb].
      rewrite Hrefill. cbn [negb bind].
      replace (Z.min len n) with 0 by lia.
      rewrite take_nonpos by lia. subst n. reflexivity.
    + set (st1 := mkBufferedInStream in1 (data ++ drop n (i_buf st)) 0 n)
        in *.
      assert (Hsame : BufferedInStream_read_loop (S k) st []
                      = BufferedInStream_read_loop (S k) st1 []).
      { cbn [BufferedInStream_read_loop].
        rewrite Hex, Z.eqb_refl. cbn [is_empty negb].
        rewrite Hrefill. cbn [negb].
        change (i_top st1) with 0. change (i_max st1) with n.
        destruct (Z.eqb_spec 0 n) as [E | _]; [lia |]. reflexivity. }
      rewrite Hsame.
      rewrite BufferedInStream_read_loop_serves
        by (assumption || (left; unfold st1; cbn [i_top i_max]; lia)).
      rewrite Hwin1. unfold st1. cbn [i_top i_max i_in i_buf app].
      rewrite <- Ek, Z2Nat.id, Z.sub_0_r, Z.add_0_l by lia.
      rewrite len_of_take by lia. reflexivity.
  - intros Hex e R.
    destruct (Z.to_nat len) as [| k] eqn:Ek; [lia |].
    cbn [BufferedInStream_read_loop].
    rewrite Hex, Z.eqb_refl. cbn [is_empty negb].
    unfold refill. rewrite R. reflexivity.
Qed.
End BufferedInRead.

(** ** Reading a descriptor that does not fail *)

Lemma sys_read_data (k : kernel) (len : Z) :
  rd_error_free k -> 0 < len ->
  exists data k',
    sys_read k len = (len_of data, data, k') /\
    len_of data <= len /\
    rd_error_free k' /\
    all_bytes (k_in k) = data ++ all_bytes (k_in k') /\
    (data = [] -> avail (k_in k) = []) /\
    (data <> [] -> avail (k_in k) = data ++ avail (k_in k')) /\
    k_trace k' = k_trace k ++ [SysRead len].
Proof.
  unfold rd_error_free, sys_read. intros Hfree Hlen.
  destruct (k_in k) as [| [bytes | e] rest] eqn:E.
  - exists [], (mkKernel [] (k_wr k) (k_out k) (k_errno k)
                  (k_trace k ++ [SysRead len])).
    cbn [k_in k_trace all_bytes avail app].
    split; [reflexivity |]. split; [cbn; lia |].
    split; [constructor |]. split; [reflexivity |].
    split; [reflexivity |]. split; [| reflexivity].
    intro H. contradiction.
  - inversion Hfree as [| x l _ Hrest]; subst.
    pose proof (len_of_nonneg bytes) as Hb.
    destruct (Z.leb_spec (len_of bytes) len) as [Hle | Hgt].
    + exists bytes, (mkKernel rest (k_wr k) (k_out k) (k_errno k)
                       (k_trace k ++ [SysRead len])).
      cbn [k_in k_trace].
      split; [reflexivity |]. split; [assumption |].
      split; [assumption |]. split; [reflexivity |].
      split; [intros ->; reflexivity |]. split; [| reflexivity].
      intro Hne. destruct bytes; [contradiction | reflexivity].
    + exists (take len bytes),
        (mkKernel (RdData (drop len bytes) :: rest) (k_wr k) (k_out k)
           (k_errno k) (k_trace k ++ [SysRead len])).
      cbn [k_in k_trace].
      assert (Htake : len_of (take len bytes) = len)
        by (apply len_of_take; lia).
      rewrite Htake.
      split; [reflexivity |]. split; [lia |].
      split; [constructor; [exact Logic.I | assumption] |].
      split; [cbn [all_bytes]; rewrite app_assoc, take_drop; reflexivity |].
      split; [| split; [| reflexivity]].
      * intro Hnil. rewrite Hnil in Htake. cbn in Htake. lia.
      * intros _.
        assert (Hdrop : len_of (drop len bytes) = len_of bytes - len)
          by (apply len_of_drop; lia).
        cbn [avail].
        destruct (drop len bytes) as [| d ds] eqn:Ed;
          [cbn in Hdrop; lia |].
        destruct bytes as [| b bs]; [cbn in Hgt; lia |].
        rewrite app_assoc, <- Ed, take_drop. reflexivity.
  - inversion Hfree as [| x l Hx _]. destruct Hx.
Qed.

Lemma UnixFileInStream_read_data (k : kernel) (len : Z) :
  rd_error_free k -> 0 < len < 2 ^ 64 ->
  exists data k',
    read k len = Ok (len_of data, data, k') /\
    len_of data <= len /\
    rd_error_free k' /\
    all_bytes (k_in k) = data ++ all_bytes (k_in k') /\
    (data = [] -> avail (k_in k) = []) /\
    (data <> [] -> avail (k_in k) = data ++ avail (k_in k')) /\
    k_trace k' = k_trace k ++ [SysRead len].
Proof.
  intros Hfree Hlen.
  destruct (sys_read_data k len Hfree ltac:(lia))
    as (data & k' & E & Hle & Hrest).
  exists data, k'. split; [| split; assumption].
  cbn [read UnixFileInStream]. unfold UnixFileInStream_read.
  destruct (Z.eqb_spec len 0) as [E0 | _]; [lia |].
  rewrite E. cbv zeta. rewrite size_t_nonneg.
  pose proof (len_of_nonneg data).
  rewrite size_t_small by lia. reflexivity.
Qed.

Lemma take_nil {A : Type} (n : Z) : take n (@nil A) = [].
Proof. unfold take. apply firstn_nil. Qed.

Lemma len_of_zero_nil {A : Type} (l : list A) : len_of l = 0 -> l = [].
Proof.
  destruct l; [reflexivity |]. rewrite len_of_cons.
  pose proof (len_of_nonneg l). lia.
Qed.

(** The loop of [InStream::readn] over the descriptor: it collects the
    bytes the descriptor delivers until [len] are there or a [::read]
    returns 0. *)
Lemma InStream_readn_loop_spec (fuel : nat) :
  forall (k : kernel) (len n : Z) (acc : list ascii),
    rd_error_free k ->
    0 < n <= len -> len < 2 ^ 64 -> n = len_of acc ->
    (Z.to_nat (len - n) <= fuel)%nat ->
    exists k',
      let r := acc ++ take (len - n) (avail (k_in k)) in
      InStream_readn_loop UnixFileInStream_read fuel k len n acc
        = Ok (len_of r, r, k') /\
      rd_error_free k' /\
      all_bytes (k_in k)
        = take (len - n) (avail (k_in k)) ++ all_bytes (k_in k').
Proof.
  induction fuel as [| fuel IH]; intros k len n acc Hfree Hn Hlen Hacc Hfuel;
    cbv zeta.
  - exists k. cbn [InStream_readn_loop].
    destruct (Z.eqb_spec n len) as [E | NE]; [| lia].
    rewrite take_nonpos, app_nil_r by lia.
    rewrite <- Hacc. auto.
  - cbn [InStream_readn_loop].
    destruct (Z.eqb_spec n len) as [E | NE].
    + exists k. rewrite take_nonpos, app_nil_r by lia.
      rewrite <- Hacc. auto.
    + destruct (Z.ltb_spec len n) as [L | _]; [lia |].
      rewrite (size_t_small (len - n)) by lia.
      destruct (UnixFileInStream_read_data k (len - n) Hfree ltac:(lia))
        as (data & k1 & R & Hle & Hfree1 & Hall & Hnil & Hcons & _).
      change (@read kernel UnixFileInStream) with UnixFileInStream_read in R.
      rewrite R. cbn [bind].
      pose proof (len_of_nonneg data) as Hd.
      destruct (Z.eqb_spec (len_of data) 0) as [E0 | N0].
      * apply len_of_zero_nil in E0. subst data.
        rewrite (Hnil eq_refl), take_nil, app_nil_r.
        exists k1. cbn [app] in Hall. rewrite <- Hacc. auto.
      * assert (Hne : data <> []) by (intros ->; apply N0; reflexivity).
        rewrite (size_t_small (n + len_of data)) by lia.
        destruct (IH k1 len (n + len_of data) (acc ++ data) Hfree1
                    ltac:(lia) Hlen
                    ltac:(rewrite len_of_app; lia) ltac:(lia))
          as (k' & E' & Hfree' & Hall').
        cbv zeta in E'. exists k'. rewrite E'.
        rewrite (Hcons Hne).
        rewrite take_app_ge by lia.
        replace (len - n - len_of data) with (len - (n + len_of data))
          by lia.
        rewrite <- !app_assoc. split; [reflexivity |].
        split; [assumption |].
        rewrite Hall. f_equal. exact Hall'.
Qed.

(** [InStream::readn] over the descriptor returns the first [len] bytes
    the descriptor delivers before end of file, all of them when they are
    fewer than [len]. *)
Lemma InStream_readn_spec (fuel : nat) (k : kernel) (len : Z) :
  rd_error_free k -> 0 <= len < 2 ^ 64 ->
  (Z.to_nat len <= fuel)%nat ->
  exists k',
    let r := take len (avail (k_in k)) in
    readn fuel k len = Ok (len_of r, r, k') /\
    rd_error_free k' /\
    all_bytes (k_in k) = r ++ all_bytes (k_in k').
Proof.
  intros Hfree Hlen Hfuel. cbv zeta.
  cbn [readn UnixFileInStream]. unfold InStream_readn.
  destruct (Z.eq_dec len 0) as [E0 | N0].
  - subst len. exists k. cbn. auto.
  - destruct (UnixFileInStream_read_data k len Hfree ltac:(lia))
      as (data & k1 & R & Hle & Hfree1 & Hall & Hnil & Hcons & _).
    change (@read kernel UnixFileInStream) with UnixFileInStream_read in R.
    rewrite R. cbn [bind].
    pose proof (len_of_nonneg data) as Hd.
    destruct (Z.eqb_spec (len_of data) 0) as [E | N].
    + apply len_of_zero_nil in E. subst data.
      rewrite (Hnil eq_refl), take_nil.
      exists k1. cbn [app] in Hall. auto.
    + assert (Hne : data <> []) by (intros ->; apply N; reflexivity).
      destruct (InStream_readn_loop_spec fuel k1 len (len_of data) data
                  Hfree1 ltac:(lia) ltac:(lia) eq_refl ltac:(lia))
        as (k' & E' & Hfree' & Hall').
      cbv zeta in E'. exists k'. rewrite E'.
      rewrite (Hcons Hne), take_app_ge by lia.
      split; [reflexivity |]. split; [assumption |].
      rewrite Hall, Hall', <- app_assoc. reflexivity.
Qed.

(** ** One refill at most *)

(** C5: [read(dst, len)] with [len > 0] on a read buffer in its
    invariant.  With unread bytes in the buffer it copies
    [min(len, max - top)] of them and returns at exhaustion; the wrapped
    stream is left as it was, so no refill is made.  With the buffer
    exhausted on entry it calls the wrapped stream's [read(buf, BUFSIZ)]
    once: the wrapped stream is left in the state [in1] after that one
    call, the result is [min(len, n)] bytes of what the call delivered, 0
    when it delivered nothing, and no second call follows when the
    delivered bytes run out.  An exception of the wrapped stream passes
    through.  Over a descriptor that does not fail the call returns, after
    one [::read] when the buffer was exhausted on entry and none
    otherwise. *)
Theorem read_refills_at_most_once {St : Type} {I : InStream St}
    (st : BufferedInStream St) (len : Z) :
  wf_in st -> 0 < len ->
  (i_top st < i_max st ->
   let j := Z.min len (i_max st - i_top st) in
   read st len
   = Ok (j, take j (window st),
         mkBufferedInStream (i_in st) (i_buf st) (i_top st + j) (i_max st)))
  /\
  (i_top st = i_max st ->
   forall (n : Z) (data : list ascii) (in1 : St),
     read (i_in st) BUFSIZ = Ok (n, data, in1) ->
     n = len_of data -> n <= BUFSIZ ->
     let j := Z.min len n in
     read st len
     = Ok (j, take j data,
           mkBufferedInStream in1 (data ++ drop n (i_buf st)) j n))
  /\
  (i_top st = i_max st ->
   forall e : exn,
     read (i_in st) BUFSIZ = Throw e -> read st len = Throw e)
  /\
  (forall b : BufferedInStream kernel,
      wf_in b -> rd_error_free (i_in b) ->
      exists n data b',
        read b len = Ok (n, data, b') /\
        n = len_of data /\ n <= len /\
        k_trace (i_in b')
        = k_trace (i_in b)
          ++ (if i_top b =? i_max b then [SysRead BUFSIZ] else [])).
Proof.
  intros Hwf Hlen.
  destruct (BufferedInStream_read_cases st len Hwf Hlen)
    as (Hserve & Hrefill & Hthrow).
  split; [assumption |]. split; [assumption |]. split; [assumption |].
  intros b Hwfb Hfree.
  destruct (BufferedInStream_read_cases b len Hwfb Hlen)
    as (Hserve_b & Hrefill_b & _).
  destruct (Z.eqb_spec (i_top b) (i_max b)) as [Hex | Hne].
  - destruct (UnixFileInStream_read_data (i_in b) BUFSIZ Hfree
                ltac:(unfold BUFSIZ; lia))
      as (data & k1 & R & Hle & _ & _ & _ & _ & Htrace).
    specialize (Hrefill_b Hex (len_of data) data k1 R eq_refl Hle).
    cbv zeta in Hrefill_b. pose proof (len_of_nonneg data) as Hd.
    do 3 eexists. split; [exact Hrefill_b |]. cbn [i_in].
    split; [rewrite len_of_take by lia; reflexivity |].
    split; [lia | assumption].
  - pose proof Hwfb as (Htop & _).
    specialize (Hserve_b ltac:(lia)). cbv zeta in Hserve_b.
    do 3 eexists. split; [exact Hserve_b |]. cbn [i_in].
    split; [rewrite len_of_take by (rewrite (window_length b Hwfb); lia);
            reflexivity |].
    split; [lia | symmetry; apply app_nil_r].
Qed.

Lemma read_refills_at_most_once_witness :
  let st := BufferedInStream_new (fresh_kernel [RdData (bytes_of "abc")] []) in
  let len := 2 in
  (i_top st < i_max st ->
   let j := Z.min len (i_max st - i_top st) in
   read st len
   = Ok (j, take j (window st),
         mkBufferedInStream (i_in st) (i_buf st) (i_top st + j) (i_max st)))
  /\
  (i_top st = i_max st ->
   forall (n : Z) (data : list ascii) (in1 : kernel),
     read (i_in st) BUFSIZ = Ok (n, data, in1) ->
     n = len_of data -> n <= BUFSIZ ->
     let j := Z.min len n in
     read st len
     = Ok (j, take j data,
           mkBufferedInStream in1 (data ++ drop n (i_buf st)) j n))
  /\
  (i_top st = i_max st ->
   forall e : exn,
     read (i_in st) BUFSIZ = Throw e -> read st len = Throw e)
  /\
  (forall b : BufferedInStream kernel,
      wf_in b -> rd_error_free (i_in b) ->
      exists n data b',
        read b len = Ok (n, data, b') /\
        n = len_of data /\ n <= len /\
        k_trace (i_in b')
        = k_trace (i_in b)
          ++ (if i_top b =? i_max b then [SysRead BUFSIZ] else [])).
Proof.
  intros st len. apply (read_refills_at_most_once st len).
  - unfold wf_in. split; [| split].
    + vm_compute. split; discriminate.
    + vm_compute. discriminate.
    + vm_compute. reflexivity.
  - reflexivity.
Defined.

(** ** The read buffer over a descriptor that does not fail *)

Lemma window_empty {St : Type} (st : BufferedInStream St) :
  i_top st = i_max st -> window st = [].
Proof. intro E. unfold window. apply take_nonpos. lia. Qed.

Lemma refill_kernel (st : BufferedInStream kernel) :
  wf_in st -> rd_error_free (i_in st) -> i_top st = i_max st ->
  exists more st1,
    refill st = Ok (more, st1) /\
    wf_in st1 /\ rd_error_free (i_in st1) /\
    buffered_all st = buffered_all st1 /\
    (more = false -> buffered_avail st = [] /\ i_top st1 = i_max st1) /\
    (more = true ->
     buffered_avail st = buffered_avail st1 /\ i_top st1 < i_max st1) /\
    k_trace (i_in st1) = k_trace (i_in st) ++ [SysRead BUFSIZ].
Proof.
  intros Hwf Hfree Hex.
  destruct (UnixFileInStream_read_data (i_in st) BUFSIZ Hfree
              ltac:(unfold BUFSIZ; lia))
    as (data & k1 & R & Hle & Hfree1 & Hall & Hnil & Hcons & Htrace).
  destruct (refill_result st (len_of data) data k1 Hwf R eq_refl Hle)
    as (Hrefill & Hwf1 & Hwin1).
  cbv zeta in Hrefill, Hwf1, Hwin1.
  do 2 eexists. split; [exact Hrefill |].
  split; [assumption |]. split; [assumption |].
  unfold buffered_all, buffered_avail.
  rewrite Hwin1, (window_empty st Hex). cbn [app i_in i_top i_max].
  split; [assumption |].
  pose proof (len_of_nonneg data) as Hd.
  destruct (Z.eqb_spec (len_of data) 0) as [E0 | N0]; cbn [negb].
  - split; [| split; [discriminate | assumption]].
    intros _. apply len_of_zero_nil in E0. subst data.
    split; [apply Hnil; reflexivity | reflexivity].
  - split; [discriminate |]. split; [| assumption].
    intros _. split; [| lia].
    apply Hcons. intros ->. apply N0. reflexivity.
Qed.

(** The loop of [BufferedInStream::readn] copies the next [k] bytes of
    what is buffered and what the descriptor delivers before end of file,
    refilling as often as that takes. *)
Lemma BufferedInStream_readn_loop_spec (k : nat) :
  forall (st : BufferedInStream kernel) (copied : list ascii),
    wf_in st -> rd_error_free (i_in st) ->
    exists st',
      let r := copied ++ take (Z.of_nat k) (buffered_avail st) in
      BufferedInStream_readn_loop k st copied = Ok (len_of r, r, st') /\
      wf_in st' /\ rd_error_free (i_in st') /\
      buffered_all st
        = take (Z.of_nat k) (buffered_avail st) ++ buffered_all st'.
Proof.
  induction k as [| k IH]; intros st copied Hwf Hfree; cbv zeta.
  - exists st. cbn [BufferedInStream_readn_loop].
    rewrite take_nonpos, app_nil_r by lia. auto.
  - assert (Hserve : forall st0 : BufferedInStream kernel,
               wf_in st0 -> rd_error_free (i_in st0) ->
               i_top st0 < i_max st0 ->
               exists st',
                 BufferedInStream_readn_loop (S k) st0 copied
                 = Ok (len_of (copied ++ take (Z.of_nat (S k))
                                           (buffered_avail st0)),
                       copied ++ take (Z.of_nat (S k)) (buffered_avail st0),
                       st') /\
                 wf_in st' /\ rd_error_free (i_in st') /\
                 buffered_all st0
                 = take (Z.of_nat (S k)) (buffered_avail st0)
                   ++ buffered_all st').
    { intros st0 Hwf0 Hfree0 Hlt.
      cbn [BufferedInStream_readn_loop].
      destruct (Z.eqb_spec (i_top st0) (i_max st0)) as [E | _]; [lia |].
      cbn [bind]. rewrite next_byte_wf by assumption. cbn [bind].
      rewrite int_to_char_char_to_int.
      set (st2 := mkBufferedInStream (i_in st0) (i_buf st0) (i_top st0 + 1)
                    (i_max st0)).
      destruct (IH st2 (copied ++ [nth (Z.to_nat (i_top st0)) (i_buf st0)
                                     zero_byte])
                  (wf_in_advance st0 Hwf0 Hlt) Hfree0)
        as (st' & E' & Hwf' & Hfree' & Hall').
      cbv zeta in E'. exists st'. rewrite E'.
      unfold buffered_avail, buffered_all in *.
      rewrite (window_cons st0 Hwf0 Hlt). fold st2.
      change (i_in st0) with (i_in st2).
      cbn [app]. rewrite take_cons by lia.
      replace (Z.of_nat (S k) - 1) with (Z.of_nat k) by lia.
      rewrite <- !app_assoc. cbn [app].
      split; [reflexivity |]. split; [assumption |].
      split; [assumption |]. f_equal. exact Hall'. }
    destruct (Z.eq_dec (i_top st) (i_max st)) as [Hex | Hne].
    + destruct (refill_kernel st Hwf Hfree Hex)
        as (more & st1 & Hrefill & Hwf1 & Hfree1 & Hall1 & Hfalse & Htrue
            & _).
      destruct more.
      * destruct (Htrue eq_refl) as [Havail Hlt].
        assert (Hsame : BufferedInStream_readn_loop (S k) st copied
                        = BufferedInStream_readn_loop (S k) st1 copied).
        { cbn [BufferedInStream_readn_loop].
          rewrite Hex, Z.eqb_refl, Hrefill.
          destruct (Z.eqb_spec (i_top st1) (i_max st1)) as [E | _];
            [lia | reflexivity]. }
        rewrite Hsame, Havail, Hall1. apply Hserve; assumption.
      * destruct (Hfalse eq_refl) as [Havail Hex1].
        exists st1. cbn [BufferedInStream_readn_loop].
        rewrite Hex, Z.eqb_refl, Hrefill. cbn [bind].
        rewrite Havail, take_nil, app_nil_r. auto.
    + apply Hserve; try assumption. destruct Hwf as (Htop & _). lia.
Qed.

(** [BufferedInStream::readn] returns the first [len] bytes of what is
    buffered and what the descriptor delivers before end of file, all of
    them when they are fewer than [len]. *)
Lemma BufferedInStream_readn_spec (fuel : nat)
    (st : BufferedInStream kernel) (len : Z) :
  wf_in st -> rd_error_free (i_in st) -> 0 <= len ->
  exists st',
    let r := take len (buffered_avail st) in
    readn fuel st len = Ok (len_of r, r, st') /\
    wf_in st' /\ rd_error_free (i_in st') /\
    buffered_all st = r ++ buffered_all st'.
Proof.
  intros Hwf Hfree Hlen.
  cbn [readn BufferedInStream_InStream]. unfold BufferedInStream_readn.
  destruct (BufferedInStream_readn_loop_spec (Z.to_nat len) st [] Hwf Hfree)
    as (st' & E & Hrest).
  cbv zeta in E. rewrite Z2Nat.id in E, Hrest by assumption.
  exists st'. cbn [app] in E. split; assumption.
Qed.

(** ** [readn] *)

Lemma take_short {A : Type} (n : Z) (l : list A) :
  len_of (take n l) < n -> take n l = l.
Proof.
  intro Hshort. destruct (Z.le_gt_cases (len_of l) n) as [Hle | Hgt].
  - apply take_all. assumption.
  - pose proof (len_of_nonneg (take n l)).
    rewrite len_of_take in Hshort by lia. lia.
Qed.

Lemma avail_all_bytes (script : list rd_event) :
  exists rest, all_bytes script = avail script ++ rest.
Proof.
  induction script as [| [bytes | e] script [rest IH]].
  - exists []. reflexivity.
  - destruct bytes as [| b bytes].
    + exists (all_bytes script). reflexivity.
    + exists rest. cbn [all_bytes avail]. rewrite IH.
      apply app_assoc.
  - exists (all_bytes script). reflexivity.
Qed.

Lemma all_bytes_nil_avail (script : list rd_event) :
  all_bytes script = [] -> avail script = [].
Proof.
  intro E. destruct (avail_all_bytes script) as [rest H].
  rewrite E in H. symmetry in H. apply app_eq_nil in H. apply H.
Qed.

Lemma app_eq_self {A : Type} (l x : list A) : l = l ++ x -> x = [].
Proof.
  intro E. apply (app_inv_head l). rewrite app_nil_r. symmetry. exact E.
Qed.

(** C6: [readn(dst, len)] on a descriptor that does not fail, both the
    loop of [InStream::readn] over [read] and the override of the read
    buffer: it returns the first [len] bytes that are delivered before end
    of file and their count; the count is below [len] only when that is
    all there was before end of file, and when the source has nothing
    after it the next call returns 0.  A source of four bytes asked for
    ten gives 4, then 0. *)
Theorem readn_short_only_at_eof (fuel : nat) (len : Z) (k : kernel)
    (st : BufferedInStream kernel) :
  rd_error_free k -> wf_in st -> rd_error_free (i_in st) ->
  0 <= len < 2 ^ 64 -> (Z.to_nat len <= fuel)%nat ->
  (exists k',
      let r := take len (avail (k_in k)) in
      readn fuel k len = Ok (len_of r, r, k') /\
      (len_of r < len -> r = avail (k_in k)) /\
      (len_of r < len -> all_bytes (k_in k) = avail (k_in k) ->
       exists k'', readn fuel k' len = Ok (0, [], k''))) /\
  (exists st',
      let r := take len (buffered_avail st) in
      readn fuel st len = Ok (len_of r, r, st') /\
      (len_of r < len -> r = buffered_avail st) /\
      (len_of r < len -> buffered_all st = buffered_avail st ->
       exists st'', readn fuel st' len = Ok (0, [], st''))) /\
  (do (n, data, k1) <-
     readn 10 (fresh_kernel [RdData (bytes_of "abcd")] []) 10;
   do (m, _, _) <- readn 10 k1 10;
   Ok (n, data, m)) = Ok (4, bytes_of "abcd", 0) /\
  (do (n, data, st1) <-
     readn 10 (BufferedInStream_new
                 (fresh_kernel [RdData (bytes_of "ab");
                                RdData (bytes_of "cd")] [])) 10;
   do (m, _, _) <- readn 10 st1 10;
   Ok (n, data, m)) = Ok (4, bytes_of "abcd", 0).
Proof.
  intros Hfree Hwf Hfree_in Hlen Hfuel.
  split; [| split; [| split; vm_compute; reflexivity]].
  - destruct (InStream_readn_spec fuel k len Hfree Hlen Hfuel)
      as (k' & E & Hfree' & Hall).
    cbv zeta in E, Hall. exists k'. cbv zeta.
    split; [assumption |]. split; [apply take_short |].
    intros Hshort Hends.
    rewrite (take_short _ _ Hshort), Hends in Hall.
    apply app_eq_self, all_bytes_nil_avail in Hall.
    destruct (InStream_readn_spec fuel k' len Hfree' Hlen Hfuel)
      as (k'' & E'' & _).
    cbv zeta in E''. rewrite Hall, take_nil in E''.
    exists k''. exact E''.
  - destruct (BufferedInStream_readn_spec fuel st len Hwf Hfree_in
                ltac:(lia)) as (st' & E & Hwf' & Hfree' & Hall).
    cbv zeta in E, Hall. exists st'. cbv zeta.
    split; [assumption |]. split; [apply take_short |].
    intros Hshort Hends.
    rewrite (take_short _ _ Hshort), Hends in Hall.
    apply app_eq_self in Hall.
    destruct (BufferedInStream_readn_spec fuel st' len Hwf' Hfree'
                ltac:(lia)) as (st'' & E'' & _).
    cbv zeta in E''.
    assert (Hnone : buffered_avail st' = []).
    { unfold buffered_all in Hall. apply app_eq_nil in Hall.
      destruct Hall as [Hw Ha]. unfold buffered_avail.
      rewrite Hw, (all_bytes_nil_avail _ Ha). reflexivity. }
    rewrite Hnone, take_nil in E''.
    exists st''. exact E''.
Qed.

Lemma readn_short_only_at_eof_witness :
  let fuel := 10%nat in
  let len := 10 in
  let k := fresh_kernel [RdData (bytes_of "abcd")] [] in
  let st := BufferedInStream_new k in
  (exists k',
      let r := take len (avail (k_in k)) in
      readn fuel k len = Ok (len_of r, r, k') /\
      (len_of r < len -> r = avail (k_in k)) /\
      (len_of r < len -> all_bytes (k_in k) = avail (k_in k) ->
       exists k'', readn fuel k' len = Ok (0, [], k''))) /\
  (exists st',
      let r := take len (buffered_avail st) in
      readn fuel st len = Ok (len_of r, r, st') /\
      (len_of r < len -> r = buffered_avail st) /\
      (len_of r < len -> buffered_all st = buffered_avail st ->
       exists st'', readn fuel st' len = Ok (0, [], st''))) /\
  (do (n, data, k1) <-
     readn 10 (fresh_kernel [RdData (bytes_of "abcd")] []) 10;
   do (m, _, _) <- readn 10 k1 10;
   Ok (n, data, m)) = Ok (4, bytes_of "abcd", 0) /\
  (do (n, data, st1) <-
     readn 10 (BufferedInStream_new
                 (fresh_kernel [RdData (bytes_of "ab");
                                RdData (bytes_of "cd")] [])) 10;
   do (m, _, _) <- readn 10 st1 10;
   Ok (n, data, m)) = Ok (4, bytes_of "abcd", 0).
Proof.
  intros fuel len k st.
  apply (readn_short_only_at_eof fuel len k st).
  - repeat constructor.
  - unfold wf_in. split; [| split].
    + vm_compute. split; discriminate.
    + vm_compute. discriminate.
    + vm_compute. reflexivity.
  - repeat constructor.
  - vm_compute. split; [discriminate | reflexivity].
  - vm_compute. lia.
Defined.

(** ** Delimiter scans *)

Lemma bytes_eqb_eq (a b : list ascii) : bytes_eqb a b = true -> a = b.
Proof.
  revert b. induction a as [| x a IH]; intros [| y b] E; cbn in E;
    try discriminate; [reflexivity |].
  apply andb_prop in E. destruct E as [Exy Eab].
  apply Ascii.eqb_eq in Exy. subst y. f_equal. apply IH. exact Eab.
Qed.

Lemma ends_with_suffix (ret eol : list ascii) :
  ends_with ret eol = true ->
  ret = take (len_of ret - len_of eol) ret ++ eol.
Proof.
  unfold ends_with. intro E. apply andb_prop in E. destruct E as [_ E].
  apply bytes_eqb_eq in E.
  transitivity (take (len_of ret - len_of eol) ret
                ++ drop (len_of ret - len_of eol) ret).
  - symmetry. apply take_drop.
  - f_equal. exact E.
Qed.

Section Scans.
Context {St : Type} {I : InStream St}.

(** [readuntil] relative to [getchar]: the result is what came in, it
    had not matched before its last byte, and the scan ended either on a
    match or on [getchar] returning [EOF]. *)
Lemma readuntil_spec (fuel : nat) (eol : list ascii) :
  forall (st st' : St) (ret r : list ascii),
    readuntil fuel st eol ret = Ok (r, st') ->
    exists (cs : list Z) (st_k : St),
      reads_chars st cs st_k /\
      r = ret ++ map int_to_char cs /\
      (forall p q, cs = p ++ q -> p <> [] -> q <> [] ->
                   ends_with (ret ++ map int_to_char p) eol = false) /\
      ((cs <> [] /\ ends_with r eol = true /\ st' = st_k) \/
       (getchar st_k = Ok (EOF, st') /\
        (cs <> [] -> ends_with r eol = false))).
Proof.
  induction fuel as [| fuel IH]; intros st st' ret r; cbn [readuntil];
    [discriminate |].
  destruct (getchar st) as [[c st1] | | | |] eqn:G; cbn [bind];
    try discriminate.
  destruct (Z.eqb_spec c EOF) as [Eeof | Nneof].
  - intro R. injection R as <- <-. subst c.
    exists [], st. split; [constructor |].
    split; [symmetry; apply app_nil_r |]. split.
    + intros p q Hcs Hp _. symmetry in Hcs. apply app_eq_nil in Hcs.
      destruct Hcs. contradiction.
    + right. split; [assumption | intro H; contradiction].
  - destruct (ends_with (ret ++ [int_to_char c]) eol) eqn:Ematch.
    + intro R. injection R as <- <-.
      exists [c], st1.
      split; [econstructor; [eassumption | assumption | constructor] |].
      split; [reflexivity |]. split.
      * intros [| x p] q Hcs Hp Hq; [contradiction |].
        injection Hcs as _ Hcs. symmetry in Hcs.
        apply app_eq_nil in Hcs. destruct Hcs. contradiction.
      * left. split; [discriminate | auto].
    + intro R. apply IH in R.
      destruct R as (cs & st_k & Hreads & Hr & Hpre & Hend).
      exists (c :: cs), st_k.
      split; [econstructor; eassumption |].
      split; [rewrite Hr, <- app_assoc; reflexivity |]. split.
      * intros [| x p] q Hcs Hp Hq; [contradiction |].
        injection Hcs as <- Hcs.
        destruct p as [| y p].
        -- exact Ematch.
        -- cbn [map]. change (ret ++ int_to_char c :: ?t)
             with (ret ++ [int_to_char c] ++ t).
           rewrite app_assoc. apply (Hpre (y :: p) q Hcs);
             [discriminate | assumption].
      * destruct Hend as [(Hne & Hm & Hst) | (Hg & Hm)].
        -- left. split; [discriminate | auto].
        -- right. split; [assumption |]. intros _.
           destruct cs as [| y cs].
           ++ rewrite Hr. cbn [map]. rewrite app_nil_r. exact Ematch.
           ++ apply Hm. discriminate.
Qed.

(** [readuntil(char)] relative to [getchar]: every value before the last
    differs from the delimiter, and the scan ended either on the delimiter
    or on [getchar] returning [EOF]. *)
Lemma readuntil_char_spec (fuel : nat) (eol : ascii) :
  forall (st st' : St) (ret r : list ascii),
    readuntil_char fuel st eol ret = Ok (r, st') ->
    exists (cs : list Z) (st_k : St),
      reads_chars st cs st_k /\
      r = ret ++ map int_to_char cs /\
      ((exists p, cs = p ++ [char_to_int eol] /\
                  Forall (fun c => c <> char_to_int eol) p /\
                  st' = st_k) \/
       (getchar st_k = Ok (EOF, st') /\
        Forall (fun c => c <> char_to_int eol) cs)).
Proof.
  induction fuel as [| fuel IH]; intros st st' ret r; cbn [readuntil_char];
    [discriminate |].
  destruct (getchar st) as [[c st1] | | | |] eqn:G; cbn [bind];
    try discriminate.
  destruct (Z.eqb_spec c EOF) as [Eeof | Nneof].
  - intro R. injection R as <- <-. subst c.
    exists [], st. split; [constructor |].
    split; [symmetry; apply app_nil_r |].
    right. split; [assumption | constructor].
  - destruct (Z.eqb_spec c (char_to_int eol)) as [Edelim | Ndelim].
    + intro R. injection R as <- <-.
      exists [c], st1.
      split; [econstructor; [eassumption | assumption | constructor] |].
      split; [reflexivity |].
      left. exists []. subst c. split; [reflexivity |].
      split; [constructor | reflexivity].
    + intro R. apply IH in R.
      destruct R as (cs & st_k & Hreads & Hr & Hend).
      exists (c :: cs), st_k.
      split; [econstructor; eassumption |].
      split; [rewrite Hr, <- app_assoc; reflexivity |].
      destruct Hend as [(p & Hcs & Hp & Hst) | (Hg & Hall)].
      * left. exists (c :: p). subst cs.
        split; [reflexivity |]. split; [constructor; assumption | assumption].
      * right. split; [assumption | constructor; assumption].
Qed.

(** [getline] returns what [readuntil] returns without the delimiter at
    its end, when it is there. *)
Lemma getline_spec (fuel : nat) (eol : list ascii) (st st' : St)
    (r : list ascii) :
  readuntil fuel st eol [] = Ok (r, st') ->
  (ends_with r eol = true ->
   exists line, r = line ++ eol /\ getline fuel st eol = Ok (line, st')) /\
  (ends_with r eol = false -> getline fuel st eol = Ok (r, st')).
Proof.
  intro R. unfold getline. rewrite R. cbn [bind]. split; intro E; rewrite E.
  - exists (take (len_of r - len_of eol) r).
    split; [apply ends_with_suffix; assumption | reflexivity].
  - reflexivity.
Qed.

Lemma getline_char_spec (fuel : nat) (eol : ascii) (st st' : St)
    (r : list ascii) :
  readuntil_char fuel st eol [] = Ok (r, st') ->
  (forall line, r = line ++ [eol] ->
                getline_char fuel st eol = Ok (line, st')) /\
  (r = [] \/ last r zero_byte <> eol ->
   getline_char fuel st eol = Ok (r, st')).
Proof.
  intro R. unfold getline_char. rewrite R. cbn [bind]. split.
  - intros line ->. rewrite len_of_app. change (len_of [eol]) with 1.
    pose proof (len_of_nonneg line).
    destruct (Z.ltb_spec 0 (len_of line + 1)); [| lia].
    rewrite last_last, Ascii.eqb_refl. cbn [andb].
    rewrite removelast_last. reflexivity.
  - intros [-> | Hlast]; [reflexivity |].
    destruct (Ascii.eqb_spec (last r zero_byte) eol) as [E | _];
      [contradiction |].
    rewrite andb_false_r. reflexivity.
Qed.
End Scans.

(** ** Scans come to an end *)

Section ScansReturn.
Context {St : Type} {I : InStream St}.
Variable inv : St -> Prop.
Variable left_over : St -> list ascii.
Hypothesis getchar_step :
  forall st : St,
    inv st ->
    exists c st',
      getchar st = Ok (c, st') /\ inv st' /\
      (c = EOF \/
       (List.length (left_over st') < List.length (left_over st))%nat).

Lemma readuntil_returns (fuel : nat) (eol : list ascii) :
  forall (st : St) (ret : list ascii),
    inv st -> (List.length (left_over st) < fuel)%nat ->
    exists r st', readuntil fuel st eol ret = Ok (r, st').
Proof.
  induction fuel as [| fuel IH]; intros st ret Hinv Hfuel; [lia |].
  cbn [readuntil].
  destruct (getchar_step st Hinv) as (c & st1 & -> & Hinv1 & Hstep).
  cbn [bind].
  destruct (Z.eqb_spec c EOF) as [E | NE]; [eauto |].
  destruct (ends_with (ret ++ [int_to_char c]) eol); [eauto |].
  apply IH; [assumption |]. destruct Hstep as [E | Hlt]; [contradiction |].
  lia.
Qed.

Lemma readuntil_char_returns (fuel : nat) (eol : ascii) :
  forall (st : St) (ret : list ascii),
    inv st -> (List.length (left_over st) < fuel)%nat ->
    exists r st', readuntil_char fuel st eol ret = Ok (r, st').
Proof.
  induction fuel as [| fuel IH]; intros st ret Hinv Hfuel; [lia |].
  cbn [readuntil_char].
  destruct (getchar_step st Hinv) as (c & st1 & -> & Hinv1 & Hstep).
  cbn [bind].
  destruct (Z.eqb_spec c EOF) as [E | NE]; [eauto |].
  destruct (c =? char_to_int eol); [eauto |].
  apply IH; [assumption |]. destruct Hstep as [E | Hlt]; [contradiction |].
  lia.
Qed.
End ScansReturn.

Lemma getchar_kernel (k : kernel) :
  rd_error_free k ->
  exists c k',
    getchar k = Ok (c, k') /\ rd_error_free k' /\
    (c = EOF \/
     (List.length (all_bytes (k_in k')) < List.length (all_bytes (k_in k)))%nat).
Proof.
  intro Hfree.
  destruct (UnixFileInStream_read_data k 1 Hfree ltac:(lia))
    as (data & k1 & R & Hle & Hfree1 & Hall & _).
  change (@read kernel UnixFileInStream) with UnixFileInStream_read in R.
  cbn [getchar UnixFileInStream]. unfold InStream_getchar.
  rewrite R. cbn [bind].
  destruct data as [| b data].
  - exists EOF, k1. cbn. auto.
  - rewrite len_of_cons in Hle |- *. pose proof (len_of_nonneg data).
    destruct (Z.eqb_spec (1 + len_of data) 0) as [E | _]; [lia |].
    exists (char_to_int b), k1. split; [reflexivity |].
    split; [assumption |]. right. rewrite Hall, length_app.
    cbn [List.length]. lia.
Qed.

Lemma getchar_buffered (st : BufferedInStream kernel) :
  wf_in st /\ rd_error_free (i_in st) ->
  exists c st',
    getchar st = Ok (c, st') /\
    (wf_in st' /\ rd_error_free (i_in st')) /\
    (c = EOF \/
     (List.length (buffered_all st') < List.length (buffered_all st))%nat).
Proof.
  intros [Hwf Hfree].
  cbn [getchar BufferedInStream_InStream]. unfold BufferedInStream_getchar.
  assert (Hserve : forall st0 : BufferedInStream kernel,
             wf_in st0 -> rd_error_free (i_in st0) ->
             i_top st0 < i_max st0 ->
             exists c st',
               (do (c, st2) <- next_byte st0; Ok (char_to_int c, st2))
               = Ok (c, st') /\
               (wf_in st' /\ rd_error_free (i_in st')) /\
               (List.length (buffered_all st')
                < List.length (buffered_all st0))%nat).
  { intros st0 Hwf0 Hfree0 Hlt. rewrite next_byte_wf by assumption.
    cbn [bind]. do 2 eexists. split; [reflexivity |].
    split; [split; [apply wf_in_advance; assumption | assumption] |].
    unfold buffered_all. rewrite (window_cons st0 Hwf0 Hlt).
    cbn [i_in app List.length]. lia. }
  destruct (Z.eqb_spec (i_top st) (i_max st)) as [Hex | Hne].
  - destruct (refill_kernel st Hwf Hfree Hex)
      as (more & st1 & -> & Hwf1 & Hfree1 & Hall1 & Hfalse & Htrue & _).
    cbn [bind]. destruct more.
    + destruct (Htrue eq_refl) as [_ Hlt].
      destruct (Hserve st1 Hwf1 Hfree1 Hlt) as (c & st' & E & Hinv & Hlen).
      exists c, st'. rewrite Hall1. auto.
    + exists EOF, st1. auto.
  - cbn [bind].
    destruct (Hserve st Hwf Hfree) as (c & st' & E & Hinv & Hlen).
    { destruct Hwf as (Htop & _). lia. }
    exists c, st'. auto.
Qed.

(** The scans relative to [getchar]: [readuntil] takes what [getchar]
    returns one value at a time
    and appends it; it stops after the first value that makes the
    delimiter a suffix of the result, or when [getchar] returns [EOF], with
    what it has; [getline] returns the same bytes without the delimiter at
    their end when it is there; the same holds of the one-character
    overloads; on a descriptor that does not fail, read directly or
    through a read buffer, the scans come to an end.  On
    ["ab\r\ncd\r\n"], [readuntil("\r\n")] returns ["ab\r\n"] then
    ["cd\r\n"]; on ["x\ny\n"], [getline('\n')] returns ["x"] then ["y"]. *)
Theorem readuntil_stops_at_delimiter_or_eof {St : Type} {I : InStream St}
    (fuel : nat) (eol : list ascii) (st st' : St) (r : list ascii) :
  readuntil fuel st eol [] = Ok (r, st') ->
  (exists (cs : list Z) (st_k : St),
      reads_chars st cs st_k /\
      r = map int_to_char cs /\
      (forall p q, cs = p ++ q -> p <> [] -> q <> [] ->
                   ends_with (map int_to_char p) eol = false) /\
      ((cs <> [] /\ ends_with r eol = true /\ st' = st_k) \/
       (getchar st_k = Ok (EOF, st') /\
        (cs <> [] -> ends_with r eol = false)))) /\
  ((ends_with r eol = true ->
    exists line, r = line ++ eol /\ getline fuel st eol = Ok (line, st')) /\
   (ends_with r eol = false -> getline fuel st eol = Ok (r, st'))) /\
  (forall (c : ascii) (rc : list ascii) (stc : St),
      readuntil_char fuel st c [] = Ok (rc, stc) ->
      (exists (cs : list Z) (st_k : St),
          reads_chars st cs st_k /\
          rc = map int_to_char cs /\
          ((exists p, cs = p ++ [char_to_int c] /\
                      Forall (fun x => x <> char_to_int c) p /\
                      stc = st_k) \/
           (getchar st_k = Ok (EOF, stc) /\
            Forall (fun x => x <> char_to_int c) cs))) /\
      (forall line, rc = line ++ [c] ->
                    getline_char fuel st c = Ok (line, stc)) /\
      (rc = [] \/ last rc zero_byte <> c ->
       getline_char fuel st c = Ok (rc, stc))) /\
  (forall (k : kernel) (b : BufferedInStream kernel) (c : ascii),
      rd_error_free k -> wf_in b -> rd_error_free (i_in b) ->
      (List.length (all_bytes (k_in k)) < fuel)%nat ->
      (List.length (buffered_all b) < fuel)%nat ->
      (exists x k', readuntil fuel k eol [] = Ok (x, k')) /\
      (exists x k', readuntil_char fuel k c [] = Ok (x, k')) /\
      (exists x b', readuntil fuel b eol [] = Ok (x, b')) /\
      (exists x b', readuntil_char fuel b c [] = Ok (x, b'))) /\
  (do (r1, k1) <-
     readuntil 9
       (fresh_kernel [RdData (bytes_of "ab" ++ [CR; LF] ++ bytes_of "cd"
                              ++ [CR; LF])] [])
       [CR; LF] [];
   do (r2, _) <- readuntil 9 k1 [CR; LF] [];
   Ok (r1, r2))
  = Ok (bytes_of "ab" ++ [CR; LF], bytes_of "cd" ++ [CR; LF]) /\
  (do (r1, b1) <-
     readuntil 9
       (BufferedInStream_new
          (fresh_kernel [RdData (bytes_of "ab" ++ [CR]);
                         RdData ([LF] ++ bytes_of "cd" ++ [CR; LF])] []))
       [CR; LF] [];
   do (r2, _) <- readuntil 9 b1 [CR; LF] [];
   Ok (r1, r2))
  = Ok (bytes_of "ab" ++ [CR; LF], bytes_of "cd" ++ [CR; LF]) /\
  (do (r1, k1) <-
     getline_char 9
       (fresh_kernel [RdData (bytes_of "x" ++ [LF] ++ bytes_of "y" ++ [LF])]
          []) LF;
   do (r2, _) <- getline_char 9 k1 LF;
   Ok (r1, r2))
  = Ok (bytes_of "x", bytes_of "y") /\
  (do (r1, b1) <-
     getline_char 9
       (BufferedInStream_new
          (fresh_kernel [RdData (bytes_of "x" ++ [LF] ++ bytes_of "y"
                                 ++ [LF])] [])) LF;
   do (r2, _) <- getline_char 9 b1 LF;
   Ok (r1, r2))
  = Ok (bytes_of "x", bytes_of "y").
Proof.
  intro R.
  split; [exact (readuntil_spec fuel eol st st' [] r R) |].
  split; [exact (getline_spec fuel eol st st' r R) |].
  split; [| split].
  - intros c rc stc Rc.
    split; [exact (readuntil_char_spec fuel c st stc [] rc Rc) |].
    exact (getline_char_spec fuel c st stc rc Rc).
  - intros k b c Hk Hwf Hb Hfk Hfb.
    split; [| split; [| split]].
    + exact (readuntil_returns rd_error_free
               (fun k0 => all_bytes (k_in k0)) getchar_kernel
               fuel eol k [] Hk Hfk).
    + exact (readuntil_char_returns rd_error_free
               (fun k0 => all_bytes (k_in k0)) getchar_kernel
               fuel c k [] Hk Hfk).
    + exact (readuntil_returns
               (fun b0 => wf_in b0 /\ rd_error_free (i_in b0))
               buffered_all getchar_buffered
               fuel eol b [] (conj Hwf Hb) Hfb).
    + exact (readuntil_char_returns
               (fun b0 => wf_in b0 /\ rd_error_free (i_in b0))
               buffered_all getchar_buffered
               fuel c b [] (conj Hwf Hb) Hfb).
  - split; [| split; [| split]]; vm_compute; reflexivity.
Qed.

Lemma readuntil_stops_at_delimiter_or_eof_witness :
  let fuel := 9%nat in
  let eol := [CR; LF] in
  let st := fresh_kernel [RdData (bytes_of "ab" ++ [CR; LF] ++ bytes_of "cd"
                                  ++ [CR; LF])] [] in
  let st' := mkKernel [RdData (bytes_of "cd" ++ [CR; LF])] [] [] 0
               [SysRead 1; SysRead 1; SysRead 1; SysRead 1] in
  let r := bytes_of "ab" ++ [CR; LF] in
  exists (cs : list Z) (st_k : kernel),
    reads_chars st cs st_k /\
    r = map int_to_char cs /\
    (forall p q, cs = p ++ q -> p <> [] -> q <> [] ->
                 ends_with (map int_to_char p) eol = false) /\
    ((cs <> [] /\ ends_with r eol = true /\ st' = st_k) \/
     (getchar st_k = Ok (EOF, st') /\
      (cs <> [] -> ends_with r eol = false))).
Proof.
  intros fuel eol st st' r.
  apply (readuntil_stops_at_delimiter_or_eof fuel eol st st' r).
  vm_compute. reflexivity.
Defined.

(** The value [getchar] returns for the byte 255 is [-1], which is [EOF]:
    on the byte the scans stop as they do at end of file, with the rest of
    the input still to come. *)
Remark getchar_byte_255_is_EOF :
  getchar (fresh_kernel [RdData ["255"%char; "a"%char]] [])
  = Ok (EOF, mkKernel [RdData ["a"%char]] [] [] 0 [SysRead 1]) /\
  getline_char 9
    (fresh_kernel [RdData ["a"%char; "255"%char; "b"%char; LF]] []) LF
  = Ok (["a"%char], mkKernel [RdData ["b"%char; LF]] [] [] 0
                      [SysRead 1; SysRead 1]).
Proof. split; vm_compute; reflexivity. Qed.

(** ** The invariants hold of every stream the program can build *)

Lemma wf_in_new {St : Type} (in_ : St) : wf_in (BufferedInStream_new in_).
Proof.
  unfold wf_in, BufferedInStream_new. cbn [i_top i_max i_buf].
  split; [lia |]. split; vm_compute; [discriminate | reflexivity].
Qed.

Section WriteBufferInvariant.
Context {St : Type} {O : OutStream St}.

Lemma wf_out_new (out_ : St) (mode_ : BufferMode)
    (buf_ : option (list ascii)) :
  wf_out (BufferedOutStream_new out_ mode_ buf_).
Proof.
  unfold wf_out, BufferedOutStream_new. cbn [o_top o_buf].
  split; [unfold BUFSIZ; lia |].
  destruct buf_ as [b |]; [apply len_of_nonneg |].
  destruct (negb (mode_value mode_ =? _IONBF));
    [apply len_of_nonneg | reflexivity].
Qed.

Lemma BufferedOutStream_flush_wf (st st' : BufferedOutStream St) :
  BufferedOutStream_flush st = Ok st' ->
  wf_out st' /\ o_top st' = 0.
Proof.
  unfold BufferedOutStream_flush.
  destruct (pending_bytes st) as [bytes | | | |]; cbn [bind];
    try discriminate.
  destruct (write (o_out st) bytes) as [out1 | | | |]; cbn [bind];
    try discriminate.
  intro R. injection R as <-. split; [| reflexivity].
  unfold wf_out. cbn [o_top o_buf]. split; [unfold BUFSIZ; lia |].
  destruct (o_buf st) as [b |]; [apply len_of_nonneg | reflexivity].
Qed.

Lemma append_byte_wf (st st' : BufferedOutStream St) (c : ascii) :
  wf_out st -> append_byte st c = Ok st' -> wf_out st'.
Proof.
  intro Hwf. unfold append_byte.
  destruct (if o_top st =? BUFSIZ then BufferedOutStream_flush st else Ok st)
    as [st1 | | | |] eqn:E1; cbn [bind]; try discriminate.
  assert (H1 : wf_out st1 /\ o_top st1 < BUFSIZ).
  { destruct (Z.eqb_spec (o_top st) BUFSIZ) as [Efull | Nfull].
    - apply BufferedOutStream_flush_wf in E1. destruct E1 as [Hw Ht].
      split; [assumption |]. rewrite Ht. unfold BUFSIZ. lia.
    - injection E1 as <-. split; [assumption |].
      destruct Hwf as [Htop _]. lia. }
  destruct H1 as [Hw1 Hlt1].
  destruct (store_byte st1 c) as [st2 | | | |] eqn:E2; cbn [bind];
    try discriminate.
  apply store_byte_sound in E2; [| assumption | assumption].
  destruct E2 as (Hw2 & _).
  destruct ((mode_value (o_mode st2) =? _IOLBF) && Ascii.eqb c newline).
  - intro E3. apply BufferedOutStream_flush_wf in E3. apply E3.
  - intro R. injection R as <-. assumption.
Qed.

(** [0 <= top <= BUFSIZ] and [top] within the block, after every
    operation that returns. *)
Lemma wf_out_preserved (st st' : BufferedOutStream St) :
  wf_out st ->
  (forall c, putchar st c = Ok st' -> wf_out st') /\
  (forall s, write st s = Ok st' -> wf_out st') /\
  (flush st = Ok st' -> wf_out st').
Proof.
  intro Hwf. cbn [putchar write flush BufferedOutStream_OutStream].
  split; [| split].
  - intro c. unfold BufferedOutStream_putchar.
    destruct (mode_value (o_mode st) =? _IONBF).
    + destruct (write (o_out st) [c]); cbn [bind]; try discriminate.
      intro R. injection R as <-. exact Hwf.
    + apply append_byte_wf. assumption.
  - intro s. unfold BufferedOutStream_write.
    destruct (mode_value (o_mode st) =? _IONBF).
    + destruct (write (o_out st) s); cbn [bind]; try discriminate.
      intro R. injection R as <-. exact Hwf.
    + revert st Hwf. induction s as [| c s IH]; intros st Hwf;
        cbn [BufferedOutStream_write_loop].
      * intro R. injection R as <-. assumption.
      * destruct (append_byte st c) as [st1 | | | |] eqn:E; cbn [bind];
          try discriminate.
        apply IH. apply (append_byte_wf st st1 c); assumption.
  - intro F. apply BufferedOutStream_flush_wf in F. apply F.
Qed.
End WriteBufferInvariant.

(** With a block that reaches the flush threshold, as when the caller
    passes one of [BUFSIZ] bytes, Full mode does what is asked of it: no
    byte reaches the backend while the bytes fit under the threshold. *)
Lemma full_mode_holds_back_below_BUFSIZ (st st' : BufferedOutStream kernel)
    (s : list ascii) :
  wf_out st -> wr_error_free (o_out st) -> o_mode st = FullBuf ->
  o_top st + len_of s <= BUFSIZ ->
  write st s = Ok st' ->
  o_out st' = o_out st /\ pending st' = pending st ++ s.
Proof.
  intros Hwf Hfree Hmode Hroom.
  cbn [write BufferedOutStream_OutStream]. unfold BufferedOutStream_write.
  rewrite Hmode. change (mode_value FullBuf =? _IONBF) with false.
  cbv iota. intro W.
  destruct (BufferedOutStream_write_loop_sound wr_error_free k_out
              wr_error_free_write_sound s st st' Hwf Hfree W)
    as (_ & _ & _ & _ & Hsub & _ & Hsame).
  specialize (Hsame Hmode Hroom). split; [assumption |].
  unfold submitted in Hsub. rewrite Hsame, <- app_assoc in Hsub.
  apply app_inv_head in Hsub. exact Hsub.
Qed.

(** ** The write buffer and the size of its allocation *)

Lemma len_of_valloc (n : Z) : 0 <= n -> len_of (valloc n) = n.
Proof. intro. unfold len_of, valloc. rewrite repeat_length. lia. Qed.

Section DefaultBlock.
Context {St : Type} {O : OutStream St}.

(** In Full mode, with a block shorter than [BUFSIZ], [top] never meets
    the flush threshold: a byte is stored while there is room and is
    stored past the end when there is none. *)
Lemma append_byte_short_block (st : BufferedOutStream St) (c : ascii)
    (b : list ascii) :
  o_mode st = FullBuf -> o_buf st = Some b ->
  0 <= o_top st <= len_of b -> len_of b < BUFSIZ ->
  append_byte st c =
  if o_top st <? len_of b
  then Ok (mkBufferedOutStream (o_out st) (o_top st + 1) FullBuf
             (Some (store_at (Z.to_nat (o_top st)) c b)))
  else Fault (StoreOutOfBounds (o_top st) (len_of b)).
Proof.
  intros Hmode Hbuf Htop Hshort. unfold append_byte.
  destruct (Z.eqb_spec (o_top st) BUFSIZ) as [E | _]; [lia |].
  cbn [bind]. unfold store_byte. rewrite Hbuf.
  destruct (Z.leb_spec 0 (o_top st)); [| lia]. cbn [andb].
  destruct (Z.ltb_spec (o_top st) (len_of b)) as [Hin | Hout].
  - cbn [bind o_mode]. rewrite Hmode.
    change (mode_value FullBuf =? _IOLBF) with false. cbn [andb].
    unfold BUFSIZ in Hshort. rewrite size_t_small by lia. reflexivity.
  - reflexivity.
Qed.

Lemma BufferedOutStream_write_loop_fills (s : list ascii) :
  forall (st : BufferedOutStream St) (b : list ascii),
    o_mode st = FullBuf -> o_buf st = Some b ->
    0 <= o_top st -> o_top st + len_of s <= len_of b ->
    len_of b < BUFSIZ ->
    exists b',
      BufferedOutStream_write_loop st s
      = Ok (mkBufferedOutStream (o_out st) (o_top st + len_of s) FullBuf
              (Some b')) /\
      len_of b' = len_of b.
Proof.
  induction s as [| c s IH]; intros st b Hmode Hbuf Htop Hroom Hshort;
    cbn [BufferedOutStream_write_loop].
  - exists b. change (len_of (@nil ascii)) with 0. rewrite Z.add_0_r.
    destruct st as [out top mode buf]. cbn in *. subst. auto.
  - rewrite len_of_cons in Hroom |- *. pose proof (len_of_nonneg s) as Hs.
    rewrite (append_byte_short_block st c b) by (assumption || lia).
    destruct (Z.ltb_spec (o_top st) (len_of b)); [| lia]. cbn [bind].
    assert (Hlen : len_of (store_at (Z.to_nat (o_top st)) c b) = len_of b)
      by (unfold len_of; rewrite store_at_length; reflexivity).
    destruct (IH (mkBufferedOutStream (o_out st) (o_top st + 1) FullBuf
                    (Some (store_at (Z.to_nat (o_top st)) c b)))
                (store_at (Z.to_nat (o_top st)) c b))
      as (b' & E & Hb'); cbn [o_mode o_buf o_top o_out]; try reflexivity;
      try lia.
    cbn [o_out o_top] in E. exists b'. rewrite E.
    replace (o_top st + (1 + len_of s)) with (o_top st + 1 + len_of s)
      by lia.
    split; [reflexivity | congruence].
Qed.

Lemma BufferedOutStream_write_loop_overflows (s : list ascii) :
  forall (st : BufferedOutStream St) (b : list ascii),
    o_mode st = FullBuf -> o_buf st = Some b ->
    0 <= o_top st <= len_of b -> len_of b < BUFSIZ ->
    len_of b < o_top st + len_of s ->
    BufferedOutStream_write_loop st s
    = Fault (StoreOutOfBounds (len_of b) (len_of b)).
Proof.
  induction s as [| c s IH]; intros st b Hmode Hbuf Htop Hshort Hover;
    cbn [BufferedOutStream_write_loop].
  - change (len_of (@nil ascii)) with 0 in Hover. lia.
  - rewrite len_of_cons in Hover.
    rewrite (append_byte_short_block st c b) by assumption.
    destruct (Z.ltb_spec (o_top st) (len_of b)) as [Hin | Hout];
      cbn [bind].
    + assert (Hlen : len_of (store_at (Z.to_nat (o_top st)) c b) = len_of b)
        by (unfold len_of; rewrite store_at_length; reflexivity).
      rewrite <- Hlen. apply IH; cbn [o_mode o_buf o_top]; try reflexivity;
        lia.
    + replace (o_top st) with (len_of b) by lia. reflexivity.
Qed.

(** C2: a stream constructed without a buffer allocates 4096 bytes; in
    Full mode a [write] of more than 4096 bytes stores a byte through
    [buf[top++]] at index 4096, one past the end of the allocation, with
    [top] about to become 4097; the flush that would have kept [top] in
    bounds waits for [top == BUFSIZ], which is 8192. *)
Theorem store_past_the_allocated_buffer (out_ : St) (s : list ascii) :
  4096 < len_of s ->
  allocated_capacity (BufferedOutStream_new out_ FullBuf None) = 4096 /\
  write (BufferedOutStream_new out_ FullBuf None) s
    = Fault (StoreOutOfBounds 4096 4096).
Proof.
  intro Hlong.
  change (BufferedOutStream_new out_ FullBuf None)
    with (mkBufferedOutStream out_ 0 FullBuf (Some (valloc 4096))).
  split; [apply len_of_valloc; lia |].
  cbn [write BufferedOutStream_OutStream]. unfold BufferedOutStream_write.
  cbn [o_mode].
  change (mode_value FullBuf =? _IONBF) with false. cbv iota.
  rewrite (BufferedOutStream_write_loop_overflows s _ (valloc 4096));
    cbn [o_mode o_buf o_top]; try reflexivity;
    rewrite ?len_of_valloc by lia; unfold BUFSIZ; try lia.
Qed.

(** C1: in Full mode, on a stream constructed without a buffer, 4096
    bytes fill the allocated block: [top] equals its capacity and the
    backend has not been called.  The next byte is not preceded by a
    flush, since [top] is compared with [BUFSIZ] (8192) and not with the
    capacity: it is stored outside the block. *)
Theorem full_buffer_is_not_flushed_at_capacity (out_ : St)
    (s : list ascii) :
  len_of s = 4096 ->
  exists st1,
    write (BufferedOutStream_new out_ FullBuf None) s = Ok st1 /\
    o_top st1 = allocated_capacity st1 /\
    allocated_capacity st1 = 4096 /\
    o_out st1 = out_ /\
    forall c, putchar st1 c = Fault (StoreOutOfBounds 4096 4096).
Proof.
  intro Hlen.
  change (BufferedOutStream_new out_ FullBuf None)
    with (mkBufferedOutStream out_ 0 FullBuf (Some (valloc 4096))).
  cbn [write putchar BufferedOutStream_OutStream].
  unfold BufferedOutStream_write. cbn [o_mode].
  change (mode_value FullBuf =? _IONBF) with false. cbv iota.
  destruct (BufferedOutStream_write_loop_fills s
              (mkBufferedOutStream out_ 0 FullBuf (Some (valloc 4096)))
              (valloc 4096))
    as (b' & E & Hb'); cbn [o_mode o_buf o_top];
    try reflexivity; rewrite ?len_of_valloc by lia; unfold BUFSIZ; try lia.
  rewrite len_of_valloc in Hb' by lia.
  cbn [o_out o_top] in E. rewrite Hlen in E.
  eexists. split; [exact E |].
  unfold allocated_capacity. cbn [o_top o_buf o_out].
  split; [symmetry; assumption |]. split; [assumption |].
  split; [reflexivity |].
  intro c. unfold BufferedOutStream_putchar. cbn [o_mode].
  change (mode_value FullBuf =? _IONBF) with false. cbv iota.
  rewrite (append_byte_short_block _ c b'); cbn [o_mode o_buf o_top];
    try reflexivity; rewrite ?Hb'; unfold BUFSIZ; try lia.
  reflexivity.
Qed.
End DefaultBlock.

Lemma store_past_the_allocated_buffer_witness :
  allocated_capacity (buffered_out FullBuf (fresh_kernel [] [])) = 4096 /\
  write (buffered_out FullBuf (fresh_kernel [] [])) (repeat "a"%char 4097)
    = Fault (StoreOutOfBounds 4096 4096).
Proof.
  apply (store_past_the_allocated_buffer (fresh_kernel [] [])
           (repeat "a"%char 4097)).
  vm_compute. reflexivity.
Defined.

Lemma full_buffer_is_not_flushed_at_capacity_witness :
  exists st1,
    write (buffered_out FullBuf (fresh_kernel [] [])) (repeat "a"%char 4096)
      = Ok st1 /\
    o_top st1 = allocated_capacity st1 /\
    allocated_capacity st1 = 4096 /\
    o_out st1 = fresh_kernel [] [] /\
    forall c, putchar st1 c = Fault (StoreOutOfBounds 4096 4096).
Proof.
  apply (full_buffer_is_not_flushed_at_capacity (fresh_kernel [] [])
           (repeat "a"%char 4096)).
  vm_compute. reflexivity.
Defined.

(** ** The program's own scenario *)

(** [main]: ["Hello!\nWorld!\n"] is written with [puts] through a
    Full-mode write buffer over a fresh descriptor and the stream is
    destroyed; the file then holds the text, and three calls of
    [getline('\n')] on a descriptor opened on it return ["Hello!"],
    ["World!"] and the empty string. *)
Example main_round_trip :
  let text := bytes_of "Hello!" ++ [LF] ++ bytes_of "World!" ++ [LF] in
  (do p <- OutStream_puts (buffered_out FullBuf (fresh_kernel [] [])) text;
   do p' <- destroy p;
   let file := k_out (o_out p') in
   do (s1, q1) <- getline_char 64 (fresh_kernel [RdData file] []) LF;
   do (s2, q2) <- getline_char 64 q1 LF;
   do (s3, _) <- getline_char 64 q2 LF;
   Ok (file, s1, s2, s3))
  = Ok (text, bytes_of "Hello!", bytes_of "World!", []).
Proof. vm_compute. reflexivity. Qed.

(** * Further properties of the streams *)

(** ** The descriptor-backed streams *)

(** X1: on a descriptor that does not fail, [UnixFileInStream::read] with
    a positive length makes exactly one [::read] and returns what that call
    delivered, possibly fewer bytes than asked for: a nonempty prefix of
    what the descriptor holds before end of file, or nothing at end of
    file.  A short read is not retried. *)
Theorem UnixFileInStream_read_is_one_short_read (k : kernel) (len : Z) :
  rd_error_free k -> 0 < len < 2 ^ 64 ->
  exists data k',
    read k len = Ok (len_of data, data, k') /\
    len_of data <= len /\
    k_trace k' = k_trace k ++ [SysRead len] /\
    (data = [] -> avail (k_in k) = []) /\
    (data <> [] -> avail (k_in k) = data ++ avail (k_in k')).
Proof.
  intros Hfree Hlen.
  destruct (UnixFileInStream_read_data k len Hfree Hlen)
    as (data & k' & R & Hle & _ & _ & Hnil & Hcons & Htrace).
  exists data, k'. auto.
Qed.

Lemma UnixFileInStream_read_is_one_short_read_witness :
  let k := fresh_kernel [RdData (bytes_of "abc")] [] in
  exists data k',
    read k 2 = Ok (len_of data, data, k') /\
    len_of data <= 2 /\
    k_trace k' = k_trace k ++ [SysRead 2] /\
    (data = [] -> avail (k_in k) = []) /\
    (data <> [] -> avail (k_in k) = data ++ avail (k_in k')).
Proof.
  intro k. apply (UnixFileInStream_read_is_one_short_read k 2).
  - repeat constructor.
  - vm_compute. split; reflexivity.
Defined.



(** X3: a failed [::read] is not raised: [UnixFileInStream::read] returns
    [SIZE_MAX] as its count, with nothing stored and [errno] set; no state
    of the descriptor makes [read] throw, and [write] can throw nothing but
    [EPIPE]. *)
Theorem os_errors_are_returned_as_counts (k : kernel) (len errno : Z)
    (rest : list rd_event) :
  k_in k = RdErr errno :: rest -> len <> 0 ->
  read k len
  = Ok (SIZE_MAX, [],
        mkKernel rest (k_wr k) (k_out k) errno
          (k_trace k ++ [SysRead len])) /\
  (forall (k0 : kernel) (len0 : Z) (e : exn), read k0 len0 <> Throw e) /\
  (forall (k0 : kernel) (s : list ascii) (e : exn),
      write k0 s = Throw e -> e = system_error EPIPE).
Proof.
  intros Hin Hlen. split; [| split].
  - cbn [read UnixFileInStream]. unfold UnixFileInStream_read.
    destruct (Z.eqb_spec len 0) as [E | _]; [contradiction |].
    unfold sys_read. rewrite Hin. reflexivity.
  - exact UnixFileInStream_read_never_throws.
  - exact UnixFileOutStream_write_throws_only_EPIPE.
Qed.

Lemma os_errors_are_returned_as_counts_witness :
  let k := fresh_kernel [RdErr EIO; RdData (bytes_of "x")] [] in
  read k 10
  = Ok (SIZE_MAX, [],
        mkKernel [RdData (bytes_of "x")] (k_wr k) (k_out k) EIO
          (k_trace k ++ [SysRead 10])) /\
  (forall (k0 : kernel) (len0 : Z) (e : exn), read k0 len0 <> Throw e) /\
  (forall (k0 : kernel) (s : list ascii) (e : exn),
      write k0 s = Throw e -> e = system_error EPIPE).
Proof.
  intro k.
  apply (os_errors_are_returned_as_counts k 10 EIO [RdData (bytes_of "x")]).
  - reflexivity.
  - discriminate.
Defined.

(** ** [getchar], byte by byte *)

Lemma getchar_kernel_stream (k : kernel) :
  rd_error_free k ->
  exists c k',
    getchar k = Ok (c, k') /\ rd_error_free k' /\
    k_trace k' = k_trace k ++ [SysRead 1] /\
    match avail (k_in k) with
    | [] => c = EOF
    | b :: r => c = char_to_int b /\ avail (k_in k') = r
    end.
Proof.
  intro Hfree.
  destruct (UnixFileInStream_read_data k 1 Hfree ltac:(lia))
    as (data & k1 & R & Hle & Hfree1 & _ & Hnil & Hcons & Htrace).
  change (@read kernel UnixFileInStream) with UnixFileInStream_read in R.
  cbn [getchar UnixFileInStream]. unfold InStream_getchar.
  rewrite R. cbn [bind].
  destruct data as [| b data].
  - exists EOF, k1. rewrite (Hnil eq_refl). cbn. auto.
  - rewrite len_of_cons in Hle |- *. pose proof (len_of_nonneg data) as Hd.
    assert (data = []) as -> by (apply len_of_zero_nil; lia).
    destruct (Z.eqb_spec (1 + len_of (@nil ascii)) 0) as [E | _];
      [cbn in E; lia |].
    exists (char_to_int b), k1.
    rewrite (Hcons ltac:(discriminate)). cbn [app]. auto.
Qed.

Lemma getchar_buffered_stream (st : BufferedInStream kernel) :
  wf_in st /\ rd_error_free (i_in st) ->
  exists c st',
    getchar st = Ok (c, st') /\
    (wf_in st' /\ rd_error_free (i_in st')) /\
    k_trace (i_in st')
    = k_trace (i_in st)
      ++ (if i_top st =? i_max st then [SysRead BUFSIZ] else []) /\
    match buffered_avail st with
    | [] => c = EOF
    | b :: r => c = char_to_int b /\ buffered_avail st' = r
    end.
Proof.
  intros [Hwf Hfree].
  cbn [getchar BufferedInStream_InStream]. unfold BufferedInStream_getchar.
  assert (Hserve : forall st0 : BufferedInStream kernel,
             wf_in st0 -> rd_error_free (i_in st0) ->
             i_top st0 < i_max st0 ->
             exists c st',
               (do (c, st2) <- next_byte st0; Ok (char_to_int c, st2))
               = Ok (c, st') /\
               (wf_in st' /\ rd_error_free (i_in st')) /\
               i_in st' = i_in st0 /\
               exists b, buffered_avail st0 = b :: buffered_avail st' /\
                         c = char_to_int b).
  { intros st0 Hwf0 Hfree0 Hlt. rewrite next_byte_wf by assumption.
    cbn [bind]. do 2 eexists. split; [reflexivity |].
    split; [split; [apply wf_in_advance; assumption | assumption] |].
    split; [reflexivity |].
    eexists. split; [| reflexivity].
    unfold buffered_avail. rewrite (window_cons st0 Hwf0 Hlt).
    reflexivity. }
  destruct (Z.eqb_spec (i_top st) (i_max st)) as [Hex | Hne].
  - destruct (refill_kernel st Hwf Hfree Hex)
      as (more & st1 & -> & Hwf1 & Hfree1 & _ & Hfalse & Htrue & Htrace).
    cbn [bind]. destruct more.
    + destruct (Htrue eq_refl) as [Havail Hlt].
      destruct (Hserve st1 Hwf1 Hfree1 Hlt)
        as (c & st' & E & Hinv & Hin & b & Hb & Hc).
      exists c, st'. split; [assumption |]. split; [assumption |].
      split; [rewrite Hin; assumption |].
      rewrite Havail, Hb. auto.
    + destruct (Hfalse eq_refl) as [Havail _].
      exists EOF, st1. rewrite Havail. auto.
  - cbn [bind].
    destruct (Hserve st Hwf Hfree) as (c & st' & E & Hinv & Hin & b & Hb & Hc).
    { destruct Hwf as (Htop & _). lia. }
    exists c, st'. split; [assumption |]. split; [assumption |].
    split; [rewrite Hin; symmetry; apply app_nil_r |].
    rewrite Hb. auto.
Qed.

(** X4: [InStream::getchar] on a descriptor that does not fail costs one
    [::read] of one byte per call and returns the bytes of the descriptor
    in order, each as the value of a [char], then [EOF] at end of file. *)
Theorem getchar_reads_one_byte_per_call (k : kernel) :
  rd_error_free k ->
  exists c k',
    getchar k = Ok (c, k') /\ rd_error_free k' /\
    k_trace k' = k_trace k ++ [SysRead 1] /\
    match avail (k_in k) with
    | [] => c = EOF
    | b :: r => c = char_to_int b /\ avail (k_in k') = r
    end.
Proof. exact (getchar_kernel_stream k). Qed.

Lemma getchar_reads_one_byte_per_call_witness :
  let k := fresh_kernel [RdData (bytes_of "hi")] [] in
  exists c k',
    getchar k = Ok (c, k') /\ rd_error_free k' /\
    k_trace k' = k_trace k ++ [SysRead 1] /\
    match avail (k_in k) with
    | [] => c = EOF
    | b :: r => c = char_to_int b /\ avail (k_in k') = r
    end.
Proof.
  intro k. apply (getchar_reads_one_byte_per_call k). repeat constructor.
Defined.

(** X5: [BufferedInStream::getchar] returns the same bytes in the same
    order, first what is buffered and then what the descriptor delivers,
    then [EOF]; it calls the descriptor only when the buffer is exhausted,
    with one [::read] of [BUFSIZ] bytes, and keeps the invariant of the
    buffer. *)
Theorem buffered_getchar_reads_ahead (st : BufferedInStream kernel) :
  wf_in st -> rd_error_free (i_in st) ->
  exists c st',
    getchar st = Ok (c, st') /\
    wf_in st' /\ rd_error_free (i_in st') /\
    k_trace (i_in st')
    = k_trace (i_in st)
      ++ (if i_top st =? i_max st then [SysRead BUFSIZ] else []) /\
    match buffered_avail st with
    | [] => c = EOF
    | b :: r => c = char_to_int b /\ buffered_avail st' = r
    end.
Proof.
  intros Hwf Hfree.
  destruct (getchar_buffered_stream st (conj Hwf Hfree))
    as (c & st' & E & [Hwf' Hfree'] & Htrace & Hstream).
  exists c, st'. auto.
Qed.

Lemma buffered_getchar_reads_ahead_witness :
  let st := myin_new (fresh_kernel [RdData (bytes_of "hi")] []) in
  exists c st',
    getchar st = Ok (c, st') /\
    wf_in st' /\ rd_error_free (i_in st') /\
    k_trace (i_in st')
    = k_trace (i_in st)
      ++ (if i_top st =? i_max st then [SysRead BUFSIZ] else []) /\
    match buffered_avail st with
    | [] => c = EOF
    | b :: r => c = char_to_int b /\ buffered_avail st' = r
    end.
Proof.
  intro st. apply (buffered_getchar_reads_ahead st).
  - eval_wf_in.
  - repeat constructor.
Defined.

(** ** Scans over the bytes of a stream *)

Lemma char_to_int_inj (a b : ascii) : char_to_int a = char_to_int b -> a = b.
Proof.
  intro E. rewrite <- (int_to_char_char_to_int a), E.
  apply int_to_char_char_to_int.
Qed.

Lemma bytes_eqb_refl (a : list ascii) : bytes_eqb a a = true.
Proof.
  induction a as [| x a IH]; [reflexivity |].
  cbn. rewrite Ascii.eqb_refl. exact IH.
Qed.

Lemma ends_with_app (pre eol : list ascii) : ends_with (pre ++ eol) eol = true.
Proof.
  unfold ends_with. rewrite len_of_app.
  pose proof (len_of_nonneg pre).
  destruct (Z.leb_spec (len_of eol) (len_of pre + len_of eol)); [| lia].
  replace (len_of pre + len_of eol - len_of eol) with (len_of pre) by lia.
  rewrite drop_app_exact. apply bytes_eqb_refl.
Qed.

Lemma last_differs (eol : ascii) (line : list ascii) :
  Forall (fun b => b <> eol /\ plain_byte b) line ->
  line = [] \/ last line zero_byte <> eol.
Proof.
  intro Hall. destruct line as [| b line] using rev_ind; [left; reflexivity |].
  right. rewrite last_last. apply Forall_app in Hall.
  destruct Hall as [_ Hb]. inversion Hb as [| x l [Hne _] _]. assumption.
Qed.

Section StreamScans.
Context {St : Type} {I : InStream St}.
Variable inv : St -> Prop.
Variable pend : St -> list ascii.
Hypothesis getchar_stream :
  forall st : St,
    inv st ->
    exists c st',
      getchar st = Ok (c, st') /\ inv st' /\
      match pend st with
      | [] => c = EOF
      | b :: r => c = char_to_int b /\ pend st' = r
      end.

(** Up to and including the delimiter. *)
Lemma readuntil_char_scan (eol : ascii) (rest line : list ascii) :
  forall (fuel : nat) (st : St) (ret : list ascii),
    inv st -> pend st = line ++ eol :: rest ->
    Forall (fun b => b <> eol /\ plain_byte b) line -> plain_byte eol ->
    (List.length line < fuel)%nat ->
    exists st',
      readuntil_char fuel st eol ret = Ok (ret ++ line ++ [eol], st') /\
      inv st' /\ pend st' = rest.
Proof.
  induction line as [| b line IH]; intros fuel st ret Hinv Hpend Hline Heol
    Hfuel; (destruct fuel as [| fuel]; [cbn in Hfuel; lia |]);
    cbn [readuntil_char];
    destruct (getchar_stream st Hinv) as (c & st1 & -> & Hinv1 & Hc);
    rewrite Hpend in Hc; cbn [app] in Hc; destruct Hc as [-> Hpend1];
    cbn [bind].
  - destruct (Z.eqb_spec (char_to_int eol) EOF) as [E | _];
      [contradiction |].
    rewrite Z.eqb_refl, int_to_char_char_to_int. eauto.
  - inversion Hline as [| x l [Hne Hplain] Hline']; subst.
    destruct (Z.eqb_spec (char_to_int b) EOF) as [E | _]; [contradiction |].
    destruct (Z.eqb_spec (char_to_int b) (char_to_int eol)) as [E | _];
      [apply char_to_int_inj in E; contradiction |].
    rewrite int_to_char_char_to_int.
    destruct (IH fuel st1 (ret ++ [b]) Hinv1 Hpend1 Hline' Heol
                ltac:(cbn in Hfuel; lia)) as (st' & E & Hinv' & Hpend').
    exists st'. rewrite E, <- app_assoc. auto.
Qed.

(** Up to a byte that [getchar] returns as [EOF], or to end of file. *)
Lemma readuntil_char_stop (eol : ascii) (line : list ascii) :
  forall (fuel : nat) (st : St) (ret : list ascii),
    inv st ->
    Forall (fun b => b <> eol /\ plain_byte b) line ->
    (List.length line < fuel)%nat ->
    (pend st = line ->
     exists st', readuntil_char fuel st eol ret = Ok (ret ++ line, st') /\
                 inv st') /\
    (forall b rest,
        pend st = line ++ b :: rest -> char_to_int b = EOF ->
        exists st', readuntil_char fuel st eol ret = Ok (ret ++ line, st') /\
                    inv st' /\ pend st' = rest).
Proof.
  induction line as [| x line IH]; intros fuel st ret Hinv Hline Hfuel;
    (destruct fuel as [| fuel]; [cbn in Hfuel; lia |]);
    cbn [readuntil_char];
    destruct (getchar_stream st Hinv) as (c & st1 & -> & Hinv1 & Hc);
    cbn [bind].
  - split.
    + intro Hpend. rewrite Hpend in Hc. subst c. cbn.
      rewrite app_nil_r. eauto.
    + intros b rest Hpend Hb. rewrite Hpend in Hc. cbn [app] in Hc.
      destruct Hc as [-> Hpend1]. rewrite Hb. cbn.
      rewrite app_nil_r. eauto.
  - inversion Hline as [| y l [Hne Hplain] Hline']; subst.
    assert (Hstep : forall tail,
               pend st = (x :: line) ++ tail ->
               c = char_to_int x /\ pend st1 = line ++ tail).
    { intros tail Hpend. rewrite Hpend in Hc. exact Hc. }
    destruct (IH fuel st1 (ret ++ [x]) Hinv1 Hline' ltac:(cbn in Hfuel; lia))
      as [IHeof IH255].
    assert (Hgo : forall k : result (list ascii * St),
               c = char_to_int x ->
               (if c =? EOF then Ok (ret, st1)
                else if c =? char_to_int eol
                     then Ok (ret ++ [int_to_char c], st1)
                     else k) = k).
    { intros k ->.
      destruct (Z.eqb_spec (char_to_int x) EOF) as [E | _];
        [contradiction |].
      destruct (Z.eqb_spec (char_to_int x) (char_to_int eol)) as [E | _];
        [apply char_to_int_inj in E; contradiction | reflexivity]. }
    split.
    + intro Hpend. destruct (Hstep [] ltac:(rewrite app_nil_r; exact Hpend))
        as [Ec Hpend1].
      rewrite app_nil_r in Hpend1.
      cbv zeta. rewrite Hgo by assumption.
      rewrite Ec, int_to_char_char_to_int.
      destruct (IHeof Hpend1) as (st' & E & Hinv').
      exists st'. rewrite E, <- app_assoc. auto.
    + intros b rest Hpend Hb.
      destruct (Hstep (b :: rest) Hpend) as [Ec Hpend1].
      cbv zeta. rewrite Hgo by assumption.
      rewrite Ec, int_to_char_char_to_int.
      destruct (IH255 b rest Hpend1 Hb) as (st' & E & Hinv' & Hpend').
      exists st'. rewrite E, <- app_assoc. auto.
Qed.

(** Up to and including the first match of a delimiter of several
    bytes. *)
Lemma readuntil_scan (eol rest w : list ascii) :
  forall (fuel : nat) (st : St) (ret : list ascii),
    inv st -> pend st = w ++ rest -> w <> [] ->
    Forall plain_byte w ->
    ends_with (ret ++ w) eol = true ->
    (forall p q, w = p ++ q -> p <> [] -> q <> [] ->
                 ends_with (ret ++ p) eol = false) ->
    (List.length w <= fuel)%nat ->
    exists st',
      readuntil fuel st eol ret = Ok (ret ++ w, st') /\
      inv st' /\ pend st' = rest.
Proof.
  induction w as [| b w IH]; intros fuel st ret Hinv Hpend Hne Hplain Hmatch
    Hfirst Hfuel; [contradiction |].
  destruct fuel as [| fuel]; [cbn in Hfuel; lia |].
  cbn [readuntil].
  destruct (getchar_stream st Hinv) as (c & st1 & -> & Hinv1 & Hc).
  rewrite Hpend in Hc. cbn [app] in Hc. destruct Hc as [-> Hpend1].
  cbn [bind]. inversion Hplain as [| x l Hb Hplain']; subst.
  destruct (Z.eqb_spec (char_to_int b) EOF) as [E | _]; [contradiction |].
  cbv zeta. rewrite int_to_char_char_to_int.
  destruct w as [| b' w].
  - rewrite Hmatch. eauto.
  - rewrite (Hfirst [b] (b' :: w) eq_refl ltac:(discriminate)
               ltac:(discriminate)).
    destruct (IH fuel st1 (ret ++ [b]) Hinv1 Hpend1 ltac:(discriminate)
                Hplain') as (st' & E & Hinv' & Hpend').
    + rewrite <- app_assoc. exact Hmatch.
    + intros p q Hw Hp Hq. rewrite <- app_assoc.
      apply (Hfirst (b :: p) q); [rewrite Hw; reflexivity | discriminate
                                  | assumption].
    + cbn in Hfuel |- *. lia.
    + exists st'. rewrite E, <- app_assoc. auto.
Qed.

(** No match before end of file. *)
Lemma readuntil_eof (eol w : list ascii) :
  forall (fuel : nat) (st : St) (ret : list ascii),
    inv st -> pend st = w ->
    Forall plain_byte w ->
    (forall p q, w = p ++ q -> p <> [] ->
                 ends_with (ret ++ p) eol = false) ->
    (List.length w < fuel)%nat ->
    exists st', readuntil fuel st eol ret = Ok (ret ++ w, st') /\ inv st'.
Proof.
  induction w as [| b w IH]; intros fuel st ret Hinv Hpend Hplain Hnone
    Hfuel; (destruct fuel as [| fuel]; [cbn in Hfuel; lia |]);
    cbn [readuntil];
    destruct (getchar_stream st Hinv) as (c & st1 & -> & Hinv1 & Hc);
    rewrite Hpend in Hc; cbn [bind].
  - subst c. cbn. rewrite app_nil_r. eauto.
  - destruct Hc as [-> Hpend1].
    apply Forall_cons_iff in Hplain. destruct Hplain as [Hb Hplain'].
    destruct (Z.eqb_spec (char_to_int b) EOF) as [E | _]; [contradiction |].
    cbv zeta. rewrite int_to_char_char_to_int.
    rewrite (Hnone [b] w eq_refl ltac:(discriminate)).
    destruct (IH fuel st1 (ret ++ [b]) Hinv1 Hpend1 Hplain')
      as (st' & E & Hinv').
    + intros p q Hw Hp. rewrite <- app_assoc.
      apply (Hnone (b :: p) q); [rewrite Hw; reflexivity | discriminate].
    + cbn in Hfuel. lia.
    + exists st'. rewrite E, <- app_assoc. auto.
Qed.
End StreamScans.

Lemma getchar_kernel_pend (k : kernel) :
  rd_error_free k ->
  exists c k',
    getchar k = Ok (c, k') /\ rd_error_free k' /\
    match avail (k_in k) with
    | [] => c = EOF
    | b :: r => c = char_to_int b /\ avail (k_in k') = r
    end.
Proof.
  intro Hfree.
  destruct (getchar_kernel_stream k Hfree) as (c & k' & E & Hf & _ & Hs).
  exists c, k'. auto.
Qed.

Lemma getchar_buffered_pend (st : BufferedInStream kernel) :
  wf_in st /\ rd_error_free (i_in st) ->
  exists c st',
    getchar st = Ok (c, st') /\
    (wf_in st' /\ rd_error_free (i_in st')) /\
    match buffered_avail st with
    | [] => c = EOF
    | b :: r => c = char_to_int b /\ buffered_avail st' = r
    end.
Proof.
  intro Hinv.
  destruct (getchar_buffered_stream st Hinv) as (c & st' & E & Hi & _ & Hs).
  exists c, st'. auto.
Qed.

(** X6: a line ended by the delimiter: on a descriptor that does not
    fail, read directly or through a read buffer and however the
    descriptor cuts its deliveries, [readuntil(eol)] returns the bytes up
    to and including the first [eol], [getline(eol)] returns them without
    it, and the bytes after it are what the next call will see.  (The
    bytes of the line are taken not to be the byte 255.) *)
Theorem getline_returns_the_next_line (fuel : nat) (eol : ascii)
    (line rest : list ascii) (k : kernel) (st : BufferedInStream kernel) :
  rd_error_free k -> avail (k_in k) = line ++ eol :: rest ->
  wf_in st -> rd_error_free (i_in st) ->
  buffered_avail st = line ++ eol :: rest ->
  Forall (fun b => b <> eol /\ plain_byte b) line -> plain_byte eol ->
  (List.length line < fuel)%nat ->
  (exists k',
      readuntil_char fuel k eol [] = Ok (line ++ [eol], k') /\
      getline_char fuel k eol = Ok (line, k') /\
      rd_error_free k' /\ avail (k_in k') = rest) /\
  (exists st',
      readuntil_char fuel st eol [] = Ok (line ++ [eol], st') /\
      getline_char fuel st eol = Ok (line, st') /\
      wf_in st' /\ rd_error_free (i_in st') /\ buffered_avail st' = rest).
Proof.
  intros Hk Hak Hwf Hst Hast Hline Heol Hfuel. split.
  - destruct (readuntil_char_scan rd_error_free (fun k0 => avail (k_in k0))
                getchar_kernel_pend eol rest line fuel k [] Hk Hak Hline
                Heol Hfuel) as (k' & R & Hk' & Hrest).
    cbn [app] in R. exists k'. split; [exact R |].
    split; [| auto].
    apply (getline_char_spec fuel eol k k' (line ++ [eol]) R). reflexivity.
  - destruct (readuntil_char_scan
                (fun b0 => wf_in b0 /\ rd_error_free (i_in b0))
                buffered_avail getchar_buffered_pend eol rest line fuel st []
                (conj Hwf Hst) Hast Hline Heol Hfuel)
      as (st' & R & [Hwf' Hst'] & Hrest).
    cbn [app] in R. exists st'. split; [exact R |].
    split; [| auto].
    apply (getline_char_spec fuel eol st st' (line ++ [eol]) R). reflexivity.
Qed.

Lemma getline_returns_the_next_line_witness :
  let fuel := 5%nat in
  let line := bytes_of "x" in
  let rest := bytes_of "y" in
  let k := fresh_kernel [RdData (bytes_of "x" ++ [LF]); RdData (bytes_of "y")]
             [] in
  let st := myin_new k in
  (exists k',
      readuntil_char fuel k LF [] = Ok (line ++ [LF], k') /\
      getline_char fuel k LF = Ok (line, k') /\
      rd_error_free k' /\ avail (k_in k') = rest) /\
  (exists st',
      readuntil_char fuel st LF [] = Ok (line ++ [LF], st') /\
      getline_char fuel st LF = Ok (line, st') /\
      wf_in st' /\ rd_error_free (i_in st') /\ buffered_avail st' = rest).
Proof.
  intros fuel line rest k st.
  apply (getline_returns_the_next_line fuel LF line rest k st).
  - repeat constructor.
  - reflexivity.
  - eval_wf_in.
  - repeat constructor.
  - vm_compute. reflexivity.
  - repeat constructor; vm_compute; discriminate.
  - vm_compute. discriminate.
  - vm_compute. lia.
Defined.

(** X7: the last line, with no delimiter before end of file:
    [readuntil(eol)] and [getline(eol)] both return the bytes that were
    left, all of them and nothing else; at end of file they return the
    empty string, as they do for an empty line. *)
Theorem scan_at_end_of_file_returns_the_rest (fuel : nat) (eol : ascii)
    (line : list ascii) (k : kernel) (st : BufferedInStream kernel) :
  rd_error_free k -> avail (k_in k) = line ->
  wf_in st -> rd_error_free (i_in st) -> buffered_avail st = line ->
  Forall (fun b => b <> eol /\ plain_byte b) line ->
  (List.length line < fuel)%nat ->
  (exists k',
      readuntil_char fuel k eol [] = Ok (line, k') /\
      getline_char fuel k eol = Ok (line, k')) /\
  (exists st',
      readuntil_char fuel st eol [] = Ok (line, st') /\
      getline_char fuel st eol = Ok (line, st')).
Proof.
  intros Hk Hak Hwf Hst Hast Hline Hfuel. split.
  - destruct (readuntil_char_stop rd_error_free (fun k0 => avail (k_in k0))
                getchar_kernel_pend eol line fuel k [] Hk Hline Hfuel)
      as [Heof _].
    destruct (Heof Hak) as (k' & R & _). cbn [app] in R.
    exists k'. split; [exact R |].
    apply (getline_char_spec fuel eol k k' line R).
    apply last_differs. assumption.
  - destruct (readuntil_char_stop
                (fun b0 => wf_in b0 /\ rd_error_free (i_in b0))
                buffered_avail getchar_buffered_pend eol line fuel st []
                (conj Hwf Hst) Hline Hfuel) as [Heof _].
    destruct (Heof Hast) as (st' & R & _). cbn [app] in R.
    exists st'. split; [exact R |].
    apply (getline_char_spec fuel eol st st' line R).
    apply last_differs. assumption.
Qed.

Lemma scan_at_end_of_file_returns_the_rest_witness :
  let fuel := 5%nat in
  let line := bytes_of "end" in
  let k := fresh_kernel [RdData (bytes_of "e"); RdData (bytes_of "nd")] [] in
  let st := myin_new k in
  (exists k',
      readuntil_char fuel k LF [] = Ok (line, k') /\
      getline_char fuel k LF = Ok (line, k')) /\
  (exists st',
      readuntil_char fuel st LF [] = Ok (line, st') /\
      getline_char fuel st LF = Ok (line, st')).
Proof.
  intros fuel line k st.
  apply (scan_at_end_of_file_returns_the_rest fuel LF line k st).
  - repeat constructor.
  - reflexivity.
  - eval_wf_in.
  - repeat constructor.
  - vm_compute. reflexivity.
  - repeat constructor; vm_compute; discriminate.
  - vm_compute. lia.
Defined.

(** X8: the byte 255 ends a scan as end of file does: [getchar] returns
    it as [-1], so [readuntil(eol)] and [getline(eol)] return the bytes
    before it, the byte itself is consumed and appears in no result, and
    the bytes after it are left for the next call. *)
Theorem byte_255_ends_a_scan (fuel : nat) (eol b : ascii)
    (line rest : list ascii) (k : kernel) (st : BufferedInStream kernel) :
  char_to_int b = EOF ->
  rd_error_free k -> avail (k_in k) = line ++ b :: rest ->
  wf_in st -> rd_error_free (i_in st) ->
  buffered_avail st = line ++ b :: rest ->
  Forall (fun x => x <> eol /\ plain_byte x) line ->
  (List.length line < fuel)%nat ->
  (exists k',
      readuntil_char fuel k eol [] = Ok (line, k') /\
      getline_char fuel k eol = Ok (line, k') /\
      avail (k_in k') = rest) /\
  (exists st',
      readuntil_char fuel st eol [] = Ok (line, st') /\
      getline_char fuel st eol = Ok (line, st') /\
      buffered_avail st' = rest).
Proof.
  intros Hb Hk Hak Hwf Hst Hast Hline Hfuel. split.
  - destruct (readuntil_char_stop rd_error_free (fun k0 => avail (k_in k0))
                getchar_kernel_pend eol line fuel k [] Hk Hline Hfuel)
      as [_ H255].
    destruct (H255 b rest Hak Hb) as (k' & R & _ & Hrest). cbn [app] in R.
    exists k'. split; [exact R |]. split; [| assumption].
    apply (getline_char_spec fuel eol k k' line R).
    apply last_differs. assumption.
  - destruct (readuntil_char_stop
                (fun b0 => wf_in b0 /\ rd_error_free (i_in b0))
                buffered_avail getchar_buffered_pend eol line fuel st []
                (conj Hwf Hst) Hline Hfuel) as [_ H255].
    destruct (H255 b rest Hast Hb) as (st' & R & _ & Hrest). cbn [app] in R.
    exists st'. split; [exact R |]. split; [| assumption].
    apply (getline_char_spec fuel eol st st' line R).
    apply last_differs. assumption.
Qed.

Lemma byte_255_ends_a_scan_witness :
  let fuel := 5%nat in
  let line := bytes_of "a" in
  let rest := bytes_of "b" ++ [LF] in
  let k := fresh_kernel [RdData (bytes_of "a" ++ ["255"%char] ++ rest)] [] in
  let st := myin_new k in
  (exists k',
      readuntil_char fuel k LF [] = Ok (line, k') /\
      getline_char fuel k LF = Ok (line, k') /\
      avail (k_in k') = rest) /\
  (exists st',
      readuntil_char fuel st LF [] = Ok (line, st') /\
      getline_char fuel st LF = Ok (line, st') /\
      buffered_avail st' = rest).
Proof.
  intros fuel line rest k st.
  apply (byte_255_ends_a_scan fuel LF "255"%char line rest k st).
  - reflexivity.
  - repeat constructor.
  - reflexivity.
  - eval_wf_in.
  - repeat constructor.
  - vm_compute. reflexivity.
  - repeat constructor; vm_compute; discriminate.
  - vm_compute. lia.
Defined.

Lemma app_nonempty_r {A : Type} (a b : list A) : b <> [] -> a ++ b <> [].
Proof.
  intros Hb E. apply app_eq_nil in E. destruct E as [_ E]. contradiction.
Qed.

Section StringDelimiter.
Context {St : Type} {I : InStream St}.
Variable inv : St -> Prop.
Variable pend : St -> list ascii.
Hypothesis getchar_stream :
  forall st : St,
    inv st ->
    exists c st',
      getchar st = Ok (c, st') /\ inv st' /\
      match pend st with
      | [] => c = EOF
      | b :: r => c = char_to_int b /\ pend st' = r
      end.

Lemma getline_scan (fuel : nat) (eol pre rest : list ascii) (st : St) :
  eol <> [] -> inv st -> pend st = pre ++ eol ++ rest ->
  Forall plain_byte (pre ++ eol) ->
  (forall p q, pre ++ eol = p ++ q -> p <> [] -> q <> [] ->
               ends_with p eol = false) ->
  (List.length (pre ++ eol) <= fuel)%nat ->
  exists st',
    readuntil fuel st eol [] = Ok (pre ++ eol, st') /\
    getline fuel st eol = Ok (pre, st') /\
    inv st' /\ pend st' = rest.
Proof.
  intros Heol Hinv Hpend Hplain Hfirst Hfuel.
  assert (Hpend' : pend st = (pre ++ eol) ++ rest)
    by (rewrite <- app_assoc; exact Hpend).
  destruct (readuntil_scan inv pend getchar_stream eol rest (pre ++ eol)
              fuel st [] Hinv Hpend' (app_nonempty_r pre eol Heol) Hplain
              (ends_with_app pre eol) Hfirst Hfuel)
    as (st' & R & Hinv' & Hrest).
  - cbn [app] in R. exists st'. split; [exact R |].
    split; [| auto].
    destruct (getline_spec fuel eol st st' (pre ++ eol) R) as [Hstrip _].
    destruct (Hstrip (ends_with_app pre eol)) as (line0 & E & G).
    apply app_inv_tail in E. subst line0. exact G.
Qed.
End StringDelimiter.

(** X9: a delimiter of several bytes: on a descriptor that does not
    fail, read directly or through a read buffer, when the input is
    [pre ++ eol ++ rest] and [eol] does not end any shorter prefix of
    [pre ++ eol], [readuntil(eol)] returns [pre ++ eol], [getline(eol)]
    returns [pre], and [rest] is left for the next call. *)
Theorem getline_string_returns_the_next_line (fuel : nat)
    (eol pre rest : list ascii) (k : kernel) (st : BufferedInStream kernel) :
  eol <> [] ->
  rd_error_free k -> avail (k_in k) = pre ++ eol ++ rest ->
  wf_in st -> rd_error_free (i_in st) ->
  buffered_avail st = pre ++ eol ++ rest ->
  Forall plain_byte (pre ++ eol) ->
  (forall p q, pre ++ eol = p ++ q -> p <> [] -> q <> [] ->
               ends_with p eol = false) ->
  (List.length (pre ++ eol) <= fuel)%nat ->
  (exists k',
      readuntil fuel k eol [] = Ok (pre ++ eol, k') /\
      getline fuel k eol = Ok (pre, k') /\
      avail (k_in k') = rest) /\
  (exists st',
      readuntil fuel st eol [] = Ok (pre ++ eol, st') /\
      getline fuel st eol = Ok (pre, st') /\
      buffered_avail st' = rest).
Proof.
  intros Heol Hk Hak Hwf Hst Hast Hplain Hfirst Hfuel. split.
  - destruct (getline_scan rd_error_free (fun k0 => avail (k_in k0))
                getchar_kernel_pend fuel eol pre rest k Heol Hk Hak Hplain
                Hfirst Hfuel) as (k' & R & G & _ & Hrest).
    exists k'. auto.
  - destruct (getline_scan (fun b0 => wf_in b0 /\ rd_error_free (i_in b0))
                buffered_avail getchar_buffered_pend fuel eol pre rest st
                Heol (conj Hwf Hst) Hast Hplain Hfirst Hfuel)
      as (st' & R & G & _ & Hrest).
    exists st'. auto.
Qed.

Lemma getline_string_returns_the_next_line_witness :
  let fuel := 9%nat in
  let eol := [CR; LF] in
  let pre := bytes_of "ab" in
  let rest := bytes_of "cd" ++ [CR; LF] in
  let k := fresh_kernel [RdData (bytes_of "ab" ++ [CR]);
                         RdData ([LF] ++ bytes_of "cd" ++ [CR; LF])] [] in
  let st := myin_new k in
  (exists k',
      readuntil fuel k eol [] = Ok (pre ++ eol, k') /\
      getline fuel k eol = Ok (pre, k') /\
      avail (k_in k') = rest) /\
  (exists st',
      readuntil fuel st eol [] = Ok (pre ++ eol, st') /\
      getline fuel st eol = Ok (pre, st') /\
      buffered_avail st' = rest).
Proof.
  intros fuel eol pre rest k st.
  apply (getline_string_returns_the_next_line fuel eol pre rest k st).
  - discriminate.
  - repeat constructor.
  - reflexivity.
  - eval_wf_in.
  - repeat constructor.
  - vm_compute. reflexivity.
  - repeat constructor; vm_compute; discriminate.
  - intros p q E Hp Hq.
    destruct p as [| p1 [| p2 [| p3 [| p4 p]]]]; cbn in E.
    + contradiction.
    + injection E as <- _. reflexivity.
    + injection E as <- <- _. reflexivity.
    + injection E as <- <- <- _. reflexivity.
    + injection E as _ _ _ _ E. destruct p; [| discriminate].
      cbn in E. subst q. contradiction.
  - vm_compute. lia.
Defined.

(** ** What the read buffer hands out *)

(** X10: read-ahead buffering is transparent to [readn]: on a descriptor
    that does not fail, [InStream::readn] on the descriptor and
    [BufferedInStream::readn] on a fresh buffer over it return the same
    count and the same bytes, the first [len] before end of file, however
    the descriptor cuts its deliveries. *)
Theorem buffering_is_transparent_to_readn (fuel : nat) (len : Z)
    (k : kernel) :
  rd_error_free k -> 0 <= len < 2 ^ 64 -> (Z.to_nat len <= fuel)%nat ->
  exists data k' st',
    data = take len (avail (k_in k)) /\
    readn fuel k len = Ok (len_of data, data, k') /\
    readn fuel (BufferedInStream_new k) len = Ok (len_of data, data, st').
Proof.
  intros Hfree Hlen Hfuel.
  destruct (InStream_readn_spec fuel k len Hfree Hlen Hfuel)
    as (k' & E & _).
  destruct (BufferedInStream_readn_spec fuel (BufferedInStream_new k) len
              (wf_in_new k) Hfree ltac:(lia)) as (st' & E' & _).
  cbv zeta in E, E'.
  assert (Hsame : buffered_avail (BufferedInStream_new k) = avail (k_in k)).
  { unfold buffered_avail. rewrite window_empty by reflexivity.
    reflexivity. }
  rewrite Hsame in E'.
  exists (take len (avail (k_in k))), k', st'. auto.
Qed.

Lemma buffering_is_transparent_to_readn_witness :
  let k := fresh_kernel [RdData (bytes_of "ab"); RdData (bytes_of "cde")] [] in
  exists data k' st',
    data = take 4 (avail (k_in k)) /\
    readn 4 k 4 = Ok (len_of data, data, k') /\
    readn 4 (BufferedInStream_new k) 4 = Ok (len_of data, data, st').
Proof.
  intro k. apply (buffering_is_transparent_to_readn 4 4 k).
  - repeat constructor.
  - vm_compute. split; [discriminate | reflexivity].
  - vm_compute. lia.
Defined.

Lemma window_advance {St : Type} (st : BufferedInStream St) (j : Z) :
  wf_in st -> 0 <= j <= i_max st - i_top st ->
  window (mkBufferedInStream (i_in st) (i_buf st) (i_top st + j) (i_max st))
  = drop j (window st).
Proof.
  intros (Htop & Hmax & Hlen) Hj. unfold window. cbn [i_top i_max i_buf].
  unfold take, drop. rewrite skipn_firstn_comm, skipn_skipn.
  f_equal; [lia | f_equal; lia].
Qed.

(** [BufferedInStream::read] hands out a nonempty prefix of what is
    buffered and to come, or nothing at end of file. *)
Lemma buffered_read_stream (st : BufferedInStream kernel) (len : Z) :
  wf_in st /\ rd_error_free (i_in st) -> 0 < len < 2 ^ 64 ->
  exists data st',
    read st len = Ok (len_of data, data, st') /\
    len_of data <= len /\
    (wf_in st' /\ rd_error_free (i_in st')) /\
    (data = [] -> buffered_avail st = []) /\
    (data <> [] -> buffered_avail st = data ++ buffered_avail st').
Proof.
  intros [Hwf Hfree] Hlen.
  destruct (BufferedInStream_read_cases st len Hwf ltac:(lia))
    as (Hserve & Hrefill & _).
  pose proof Hwf as (Htop & Hmax & Hbuf).
  destruct (Z.eq_dec (i_top st) (i_max st)) as [Hex | Hne].
  - destruct (UnixFileInStream_read_data (i_in st) BUFSIZ Hfree
                ltac:(unfold BUFSIZ; lia))
      as (data0 & k1 & R & Hle & Hfree1 & _ & Hnil & Hcons & _).
    specialize (Hrefill Hex (len_of data0) data0 k1 R eq_refl Hle).
    cbv zeta in Hrefill. pose proof (len_of_nonneg data0) as Hd.
    destruct (refill_result st (len_of data0) data0 k1 Hwf R eq_refl Hle)
      as (_ & Hwf1 & Hwin1). cbv zeta in Hwf1, Hwin1.
    set (j := Z.min len (len_of data0)) in *.
    assert (Hadv : window (mkBufferedInStream k1
                             (data0 ++ drop (len_of data0) (i_buf st)) j
                             (len_of data0))
                   = drop j data0).
    { pose proof (window_advance _ j Hwf1) as Hadv.
      cbn [i_in i_buf i_top i_max] in Hadv.
      rewrite Z.add_0_l, Hwin1 in Hadv. apply Hadv. unfold j. lia. }
    exists (take j data0), (mkBufferedInStream k1
                              (data0 ++ drop (len_of data0) (i_buf st)) j
                              (len_of data0)).
    assert (Hjlen : len_of (take j data0) = j)
      by (apply len_of_take; unfold j; lia).
    rewrite Hjlen. split; [exact Hrefill |].
    split; [unfold j; lia |]. split.
    + split; [| assumption]. destruct Hwf1 as (_ & Hm1 & Hb1).
      unfold wf_in. cbn [i_top i_max i_buf] in *. unfold j. lia.
    + unfold buffered_avail. rewrite (window_empty st Hex), Hadv.
      cbn [app i_in]. split.
      * intro Hnone. rewrite Hnone in Hjlen. cbn in Hjlen.
        apply Hnil. apply len_of_zero_nil. unfold j in Hjlen. lia.
      * intro Hsome. rewrite Hcons.
        -- rewrite app_assoc, take_drop. reflexivity.
        -- intros ->. apply Hsome. apply take_nil.
  - specialize (Hserve ltac:(lia)). cbv zeta in Hserve.
    set (j := Z.min len (i_max st - i_top st)) in *.
    exists (take j (window st)),
      (mkBufferedInStream (i_in st) (i_buf st) (i_top st + j) (i_max st)).
    assert (Hjlen : len_of (take j (window st)) = j).
    { apply len_of_take. rewrite (window_length st Hwf). unfold j. lia. }
    rewrite Hjlen. split; [exact Hserve |].
    split; [unfold j; lia |]. split.
    + split; [| assumption]. unfold wf_in. cbn [i_top i_max i_buf].
      unfold j. lia.
    + unfold buffered_avail. cbn [i_in].
      rewrite (window_advance st j Hwf) by (unfold j; lia). split.
      * intro Hnone. rewrite Hnone in Hjlen. cbn in Hjlen.
        unfold j in Hjlen. lia.
      * intros _. rewrite app_assoc, take_drop. reflexivity.
Qed.

(** X11: [BufferedInStream::read] with a positive length, on a buffer in
    its invariant over a descriptor that does not fail: it returns at
    least one byte unless the stream is at end of file, at most [len], and
    the bytes are the next ones of what is buffered and to come; the
    invariant [0 <= top <= max <= BUFSIZ] is kept. *)
Theorem buffered_read_returns_the_next_bytes (st : BufferedInStream kernel)
    (len : Z) :
  wf_in st -> rd_error_free (i_in st) -> 0 < len < 2 ^ 64 ->
  exists data st',
    read st len = Ok (len_of data, data, st') /\
    len_of data <= len /\
    wf_in st' /\ rd_error_free (i_in st') /\
    (data = [] -> buffered_avail st = []) /\
    (data <> [] -> buffered_avail st = data ++ buffered_avail st').
Proof.
  intros Hwf Hfree Hlen.
  destruct (buffered_read_stream st len (conj Hwf Hfree) Hlen)
    as (data & st' & R & Hle & [Hwf' Hfree'] & Hnil & Hcons).
  exists data, st'.
  split; [assumption |]. split; [assumption |]. split; [assumption |].
  split; [assumption |]. split; assumption.
Qed.

Lemma buffered_read_returns_the_next_bytes_witness :
  let st := myin_new (fresh_kernel [RdData (bytes_of "abc")] []) in
  exists data st',
    read st 2 = Ok (len_of data, data, st') /\
    len_of data <= 2 /\
    wf_in st' /\ rd_error_free (i_in st') /\
    (data = [] -> buffered_avail st = []) /\
    (data <> [] -> buffered_avail st = data ++ buffered_avail st').
Proof.
  intro st. apply (buffered_read_returns_the_next_bytes st 2).
  - eval_wf_in.
  - repeat constructor.
  - vm_compute. split; reflexivity.
Defined.

(** ** [readall] *)

Lemma string_resize_length (n : Z) (ret : list ascii) :
  0 <= n -> len_of (string_resize n ret) = n.
Proof.
  intro Hn. unfold string_resize. rewrite len_of_app.
  pose proof (len_of_nonneg ret) as Hr.
  unfold len_of at 2. rewrite repeat_length.
  destruct (Z.le_gt_cases n (len_of ret)) as [Hle | Hgt].
  - rewrite len_of_take by lia. lia.
  - rewrite take_all by lia. lia.
Qed.

Lemma blit_length (pos : Z) (data ret : list ascii) :
  0 <= pos -> pos + len_of data <= len_of ret ->
  len_of (blit pos data ret) = len_of ret.
Proof.
  intros Hpos Hfit. unfold blit. pose proof (len_of_nonneg data).
  rewrite !len_of_app, len_of_take, len_of_drop by lia. lia.
Qed.

Lemma take_blit (pos : Z) (data ret : list ascii) :
  0 <= pos <= len_of ret ->
  take (pos + len_of data) (blit pos data ret) = take pos ret ++ data.
Proof.
  intro Hpos. unfold blit. rewrite app_assoc.
  replace (pos + len_of data) with (len_of (take pos ret ++ data)).
  - apply take_app_exact.
  - rewrite len_of_app, len_of_take by lia. reflexivity.
Qed.

Section ReadAllProps.
Context {St : Type} {I : InStream St}.
Variable inv : St -> Prop.
Variable pend : St -> list ascii.
Hypothesis read_stream :
  forall (st : St) (len : Z),
    inv st -> 0 < len < 2 ^ 64 ->
    exists data st',
      read st len = Ok (len_of data, data, st') /\
      len_of data <= len /\ inv st' /\
      (data = [] -> pend st = []) /\
      (data <> [] -> pend st = data ++ pend st').

(** While everything fits in the first 32 bytes, the loop collects it. *)
Lemma readall_loop_short (fuel : nat) :
  forall (st : St) (ret : list ascii) (pos : Z),
    inv st -> len_of ret = 32 -> 0 <= pos ->
    pos + len_of (pend st) < 32 ->
    (List.length (pend st) < fuel)%nat ->
    exists st',
      readall_loop fuel st ret pos = Ok (take pos ret ++ pend st, st') /\
      inv st'.
Proof.
  induction fuel as [| fuel IH]; intros st ret pos Hinv Hret Hpos Hfit Hfuel;
    [lia |].
  cbn [readall_loop]. pose proof (len_of_nonneg (pend st)) as Hp.
  rewrite Hret, (size_t_small (32 - pos)) by lia.
  destruct (read_stream st (32 - pos) Hinv ltac:(lia))
    as (data & st1 & -> & Hle & Hinv1 & Hnil & Hcons).
  cbn [bind]. pose proof (len_of_nonneg data) as Hd.
  destruct data as [| d data].
  - cbn [is_empty negb andb]. change (len_of (@nil ascii) =? 0) with true.
    cbv iota. rewrite (Hnil eq_refl), app_nil_r.
    exists st1. split; [| assumption]. f_equal. f_equal.
    unfold blit. cbn [app]. change (len_of (@nil ascii)) with 0.
    rewrite Z.add_0_r, take_drop. unfold string_resize.
    replace (Z.to_nat (pos - len_of ret)) with O by lia.
    apply app_nil_r.
  - assert (Hpend : pend st = (d :: data) ++ pend st1)
      by (apply Hcons; discriminate).
    assert (Hlen : len_of (pend st)
                   = len_of (d :: data) + len_of (pend st1))
      by (rewrite Hpend; apply len_of_app).
    pose proof (len_of_nonneg (pend st1)) as Hp1.
    cbn [is_empty negb andb].
    destruct (Z.ltb_spec 32 (pos + len_of (d :: data))) as [L | _]; [lia |].
    assert (Hnz : len_of (d :: data) <> 0)
      by (rewrite len_of_cons; pose proof (len_of_nonneg data); lia).
    destruct (Z.eqb_spec (len_of (d :: data)) 0) as [E | _];
      [contradiction |].
    cbv zeta.
    rewrite (size_t_small (pos + len_of (d :: data))) by lia.
    rewrite (blit_length pos (d :: data) ret) by lia.
    destruct (Z.eqb_spec (pos + len_of (d :: data)) (len_of ret)) as [E | _];
      [lia |].
    destruct (IH st1 (blit pos (d :: data) ret) (pos + len_of (d :: data))
                Hinv1)
      as (st' & E & Hinv'); try lia.
    + rewrite blit_length by lia. assumption.
    + rewrite Hpend, length_app in Hfuel. cbn [List.length] in Hfuel. lia.
    + exists st'. rewrite E, take_blit by lia.
      rewrite Hpend, <- app_assoc. auto.
Qed.

(** With more than 32 bytes to come, the loop reaches the store through
    the pointer it took before the string grew. *)
Lemma readall_loop_overflow (fuel : nat) :
  forall (st : St) (ret : list ascii) (pos : Z),
    inv st -> 0 <= pos <= 32 ->
    (pos < 32 -> len_of ret = 32) -> (pos = 32 -> len_of ret = 64) ->
    32 < pos + len_of (pend st) ->
    (Z.to_nat (32 - pos) < fuel)%nat ->
    readall_loop fuel st ret pos = Fault (StoreOutOfBounds 32 32).
Proof.
  induction fuel as [| fuel IH];
    intros st ret pos Hinv Hpos Hbelow Hat Hmore Hfuel; [lia |].
  cbn [readall_loop].
  assert (Hreq : 0 < len_of ret - pos <= 32).
  { destruct (Z.eq_dec pos 32) as [E | NE];
      [rewrite (Hat E) | rewrite (Hbelow ltac:(lia))]; lia. }
  rewrite (size_t_small (len_of ret - pos)) by lia.
  destruct (read_stream st (len_of ret - pos) Hinv ltac:(lia))
    as (data & st1 & -> & Hle & Hinv1 & Hnil & Hcons).
  cbn [bind]. pose proof (len_of_nonneg data) as Hd.
  destruct data as [| d data].
  - rewrite (Hnil eq_refl) in Hmore. cbn in Hmore. lia.
  - assert (Hpend : pend st = (d :: data) ++ pend st1)
      by (apply Hcons; discriminate).
    assert (Hlen : len_of (pend st)
                   = len_of (d :: data) + len_of (pend st1))
      by (rewrite Hpend; apply len_of_app).
    assert (Hnz : 0 < len_of (d :: data))
      by (rewrite len_of_cons; pose proof (len_of_nonneg data); lia).
    cbn [is_empty negb andb].
    destruct (Z.ltb_spec 32 (pos + len_of (d :: data))) as [L | NL].
    + replace (Z.max pos 32) with 32 by lia. reflexivity.
    + assert (Hlt : pos < 32) by lia.
      rewrite (Hbelow Hlt) in Hle.
      destruct (Z.eqb_spec (len_of (d :: data)) 0) as [E | _]; [lia |].
      cbv zeta.
      rewrite (size_t_small (pos + len_of (d :: data))) by lia.
      rewrite (blit_length pos (d :: data) ret)
        by (rewrite ?(Hbelow Hlt); lia).
      rewrite (Hbelow Hlt). change (size_t (32 * 2)) with 64.
      apply IH; try assumption; try lia.
      * intro Hlt1.
        destruct (Z.eqb_spec (pos + len_of (d :: data)) 32) as [E | _];
          [lia |].
        rewrite blit_length by (rewrite ?(Hbelow Hlt); lia).
        apply Hbelow. assumption.
      * intro Eat. rewrite Eat, Z.eqb_refl.
        apply string_resize_length. lia.
Qed.
End ReadAllProps.

Lemma kernel_read_stream (k : kernel) (len : Z) :
  rd_error_free k -> 0 < len < 2 ^ 64 ->
  exists data k',
    read k len = Ok (len_of data, data, k') /\
    len_of data <= len /\ rd_error_free k' /\
    (data = [] -> avail (k_in k) = []) /\
    (data <> [] -> avail (k_in k) = data ++ avail (k_in k')).
Proof.
  intros Hfree Hlen.
  destruct (UnixFileInStream_read_data k len Hfree Hlen)
    as (data & k' & R & Hle & Hfree' & _ & Hnil & Hcons & _).
  exists data, k'. auto.
Qed.

(** X12: [InStream::readall] on a stream with fewer than 32 bytes before
    end of file returns exactly those bytes, whether the descriptor is
    read directly or through a read buffer and however the bytes arrive. *)
Theorem readall_returns_a_short_stream (fuel : nat) (k : kernel)
    (st : BufferedInStream kernel) :
  rd_error_free k -> len_of (avail (k_in k)) < 32 ->
  (List.length (avail (k_in k)) < fuel)%nat ->
  wf_in st -> rd_error_free (i_in st) -> len_of (buffered_avail st) < 32 ->
  (List.length (buffered_avail st) < fuel)%nat ->
  (exists k', readall fuel k = Ok (avail (k_in k), k')) /\
  (exists st', readall fuel st = Ok (buffered_avail st, st')).
Proof.
  intros Hk Hshort Hfuel Hwf Hst Hshort' Hfuel'. unfold readall. split.
  - destruct (readall_loop_short rd_error_free (fun k0 => avail (k_in k0))
                kernel_read_stream fuel k (string_resize 32 []) 0 Hk)
      as (k' & E & _); try assumption; try lia.
    + apply string_resize_length. lia.
    + exists k'. rewrite E. reflexivity.
  - destruct (readall_loop_short
                (fun b0 => wf_in b0 /\ rd_error_free (i_in b0))
                buffered_avail buffered_read_stream fuel st
                (string_resize 32 []) 0 (conj Hwf Hst))
      as (st' & E & _); try assumption; try lia.
    + apply string_resize_length. lia.
    + exists st'. rewrite E. reflexivity.
Qed.

Lemma readall_returns_a_short_stream_witness :
  let k := fresh_kernel [RdData (bytes_of "abc"); RdData (bytes_of "de")] [] in
  let st := myin_new k in
  (exists k', readall 6 k = Ok (avail (k_in k), k')) /\
  (exists st', readall 6 st = Ok (buffered_avail st, st')).
Proof.
  intros k st. apply (readall_returns_a_short_stream 6 k st).
  - repeat constructor.
  - vm_compute. reflexivity.
  - vm_compute. lia.
  - eval_wf_in.
  - repeat constructor.
  - vm_compute. reflexivity.
  - vm_compute. lia.
Defined.

(** X13: [InStream::readall] cannot return more than 32 bytes: [buf] is
    taken from [&ret[0]] before the loop and not again after
    [ret.resize(ret.size() * 2)]; on a descriptor that still has bytes
    after the first 32, the next [read(buf + pos, ...)] stores at offset 32
    of the 32-byte block [buf] pointed to. *)
Theorem readall_stores_through_a_stale_pointer (fuel : nat) (k : kernel) :
  rd_error_free k -> 32 < len_of (avail (k_in k)) -> (32 < fuel)%nat ->
  readall fuel k = Fault (StoreOutOfBounds 32 32).
Proof.
  intros Hk Hlong Hfuel. unfold readall.
  apply (readall_loop_overflow rd_error_free (fun k0 => avail (k_in k0))
           kernel_read_stream fuel k (string_resize 32 []) 0 Hk);
    try lia.
  intros _. apply string_resize_length. lia.
Qed.

Lemma readall_stores_through_a_stale_pointer_witness :
  readall 33 (fresh_kernel [RdData (repeat "a"%char 33)] [])
  = Fault (StoreOutOfBounds 32 32).
Proof.
  apply (readall_stores_through_a_stale_pointer 33
           (fresh_kernel [RdData (repeat "a"%char 33)] [])).
  - repeat constructor.
  - vm_compute. reflexivity.
  - vm_compute. lia.
Defined.

(** ** The write buffer, mode by mode *)

Lemma UnixFileOutStream_write_nothing (k : kernel) : write k [] = Ok k.
Proof. reflexivity. Qed.

Lemma UnixFileOutStream_write_accepting (k : kernel) (s : list ascii) :
  k_wr k = [] -> 0 < len_of s < 2 ^ 64 ->
  write k s
  = Ok (mkKernel (k_in k) [] (k_out k ++ s) (k_errno k)
          (k_trace k ++ [SysWrite (len_of s)])).
Proof.
  intros Hscript Hlen. cbn [write UnixFileOutStream].
  unfold UnixFileOutStream_write. cbv zeta.
  destruct (Z.eqb_spec (len_of s) 0) as [E | _]; [lia |].
  unfold sys_write. rewrite Hscript.
  rewrite size_t_nonneg, (size_t_small (len_of s)) by lia.
  destruct (Z.eqb_spec (len_of s) 0) as [E | _]; [lia |].
  rewrite UnixFileOutStream_write_loop_eq, Z.eqb_refl.
  rewrite take_all by lia. reflexivity.
Qed.

Lemma pending_at_zero {St : Type} (st : BufferedOutStream St) :
  o_top st = 0 -> pending st = [].
Proof.
  intro E. unfold pending. rewrite E. destruct (o_buf st); reflexivity.
Qed.

(** One [write] on a buffer over a descriptor whose writes do not fail,
    in any mode: the bytes join what has been submitted, at its end. *)
Lemma BufferedOutStream_write_submitted (st st' : BufferedOutStream kernel)
    (s : list ascii) :
  wf_out st -> wr_error_free (o_out st) ->
  (o_mode st = NoBuf -> o_top st = 0) -> len_of s < 2 ^ 64 ->
  write st s = Ok st' ->
  wf_out st' /\ wr_error_free (o_out st') /\
  o_mode st' = o_mode st /\
  allocated_capacity st' = allocated_capacity st /\
  (o_mode st' = NoBuf -> o_top st' = 0) /\
  submitted k_out st' = submitted k_out st ++ s.
Proof.
  intros Hwf Hfree Hno Hlen.
  cbn [write BufferedOutStream_OutStream]. unfold BufferedOutStream_write.
  destruct (o_mode st) eqn:Hmode;
    [change (mode_value FullBuf =? _IONBF) with false
    | change (mode_value LineBuf =? _IONBF) with false
    | change (mode_value NoBuf =? _IONBF) with true]; cbv iota.
  - intro W.
    destruct (BufferedOutStream_write_loop_sound wr_error_free k_out
                wr_error_free_write_sound s st st' Hwf Hfree W)
      as (Hw & Hf & Hm & Hc & Hs & _).
    rewrite Hm, Hmode. repeat (split; [assumption || reflexivity |]).
    split; [discriminate | assumption].
  - intro W.
    destruct (BufferedOutStream_write_loop_sound wr_error_free k_out
                wr_error_free_write_sound s st st' Hwf Hfree W)
      as (Hw & Hf & Hm & Hc & Hs & _).
    rewrite Hm, Hmode. repeat (split; [assumption || reflexivity |]).
    split; [discriminate | assumption].
  - destruct (write (o_out st) s) as [out1 | | | |] eqn:W; cbn [bind];
      try discriminate.
    intro R. injection R as <-.
    destruct (wr_error_free_write_sound (o_out st) out1 s Hfree Hlen W)
      as [Hf Ho].
    cbn [o_out o_top o_mode o_buf]. unfold allocated_capacity, submitted.
    cbn [o_out o_buf].
    split; [exact Hwf |]. split; [assumption |]. split; [reflexivity |].
    split; [reflexivity |]. split; [intros _; auto |].
    rewrite !pending_at_zero by (cbn [o_top]; auto).
    rewrite Ho, !app_nil_r. reflexivity.
Qed.

Lemma write_each_failed {St : Type} {O : OutStream St}
    (ss : list (list ascii)) (r : result St) :
  (forall st, r <> Ok st) ->
  fold_left (fun r0 s => do st1 <- r0; write st1 s) ss r = r.
Proof.
  revert r. induction ss as [| s ss IH]; intros r Hr; [reflexivity |].
  cbn [fold_left]. destruct r as [st | | | |];
    [exfalso; apply (Hr st); reflexivity | apply IH; discriminate ..].
Qed.

Lemma write_each_cons {St : Type} {O : OutStream St} (st : St)
    (s : list ascii) (ss : list (list ascii)) :
  write_each st (s :: ss) = do st1 <- write st s; write_each st1 ss.
Proof.
  unfold write_each. cbn [fold_left bind].
  destruct (write st s) as [st1 | | | |]; cbn [bind];
    [reflexivity | apply write_each_failed; discriminate ..].
Qed.

(** X14: writes are neither reordered, duplicated nor dropped: after any
    sequence of [write] calls on a write buffer, in any mode, followed by
    [flush], the descriptor has received what it had, then what was
    pending before the first call, then the bytes of the calls in the
    order they were made, and nothing is left pending. *)
Theorem write_buffering_keeps_the_byte_order
    (st st1 st2 : BufferedOutStream kernel) (ss : list (list ascii)) :
  wf_out st -> wr_error_free (o_out st) ->
  (o_mode st = NoBuf -> o_top st = 0) ->
  Forall (fun s => len_of s < 2 ^ 64) ss ->
  write_each st ss = Ok st1 -> flush st1 = Ok st2 ->
  k_out (o_out st2) = k_out (o_out st) ++ pending st ++ List.concat ss /\
  o_top st2 = 0.
Proof.
  intros Hwf Hfree Hno Hlens Hwrites Hflush.
  assert (Hall : wf_out st1 /\ wr_error_free (o_out st1) /\
                 submitted k_out st1 = submitted k_out st ++ List.concat ss).
  { revert st Hwf Hfree Hno Hwrites.
    induction Hlens as [| s ss Hs Hlens IH]; intros st Hwf Hfree Hno Hwrites.
    - injection Hwrites as <-. cbn [List.concat]. rewrite app_nil_r. auto.
    - rewrite write_each_cons in Hwrites.
      destruct (write st s) as [sta | | | |] eqn:W; cbn [bind] in Hwrites;
        try discriminate.
      destruct (BufferedOutStream_write_submitted st sta s Hwf Hfree Hno Hs W)
        as (Hwa & Hfa & Hma & _ & Hnoa & Hsa).
      destruct (IH sta Hwa Hfa Hnoa Hwrites) as (Hw1 & Hf1 & Hs1).
      split; [assumption |]. split; [assumption |].
      rewrite Hs1, Hsa. cbn [List.concat]. rewrite <- app_assoc. reflexivity. }
  destruct Hall as (Hw1 & Hf1 & Hs1).
  cbn [flush BufferedOutStream_OutStream] in Hflush.
  destruct (BufferedOutStream_flush_sound wr_error_free k_out
              wr_error_free_write_sound st1 st2 Hw1 Hf1 Hflush)
    as (_ & _ & Htop & _ & _ & Hsink).
  split; [| assumption].
  rewrite Hsink. fold (submitted k_out st1). rewrite Hs1.
  unfold submitted. symmetry. apply app_assoc.
Qed.

Lemma write_buffering_keeps_the_byte_order_witness :
  let st := mout_new (fresh_kernel [] [WrAccept 1]) in
  let ss := [bytes_of "ab"; [LF]; bytes_of "c"] in
  let st1 :=
    mkBufferedOutStream
      (mkKernel [] [] (bytes_of "ab" ++ [LF]) 0 [SysWrite 3; SysWrite 2])
      1 LineBuf (Some (bytes_of "cb" ++ [LF] ++ valloc 4093)) in
  let st2 :=
    mkBufferedOutStream
      (mkKernel [] [] (bytes_of "ab" ++ [LF] ++ bytes_of "c") 0
         [SysWrite 3; SysWrite 2; SysWrite 1])
      0 LineBuf (Some (bytes_of "cb" ++ [LF] ++ valloc 4093)) in
  k_out (o_out st2) = k_out (o_out st) ++ pending st ++ List.concat ss /\
  o_top st2 = 0.
Proof.
  intros st ss st1 st2.
  apply (write_buffering_keeps_the_byte_order st st1 st2 ss).
  - eval_wf_out.
  - repeat constructor.
  - discriminate.
  - repeat constructor.
  - vm_compute. reflexivity.
  - vm_compute. reflexivity.
Defined.

(** X15: in mode [NoBuf] nothing is held back: [write] and [putchar]
    hand their bytes to the descriptor within the call and leave the
    cursor and the buffer as they were; on a descriptor that takes every
    request a [write] of [s] is one [::write] of [len] bytes.  A stream
    constructed in this mode without a buffer allocates none, and its
    destructor only closes the descriptor. *)
Theorem unbuffered_mode_forwards_every_write
    (st : BufferedOutStream kernel) (s : list ascii) (c : ascii) :
  o_mode st = NoBuf -> wr_error_free (o_out st) -> len_of s < 2 ^ 64 ->
  (forall st',
      write st s = Ok st' ->
      k_out (o_out st') = k_out (o_out st) ++ s /\
      o_top st' = o_top st /\ o_buf st' = o_buf st) /\
  (forall st',
      putchar st c = Ok st' ->
      k_out (o_out st') = k_out (o_out st) ++ [c] /\
      o_top st' = o_top st /\ o_buf st' = o_buf st) /\
  (k_wr (o_out st) = [] -> s <> [] ->
   exists st',
     write st s = Ok st' /\
     k_trace (o_out st') = k_trace (o_out st) ++ [SysWrite (len_of s)]) /\
  (forall k : kernel,
      o_buf (merr_new k) = None /\
      destroy (merr_new k)
      = Ok (mkBufferedOutStream (sys_close k) 0 NoBuf None)).
Proof.
  intros Hmode Hfree Hlen.
  cbn [write putchar destroy BufferedOutStream_OutStream].
  unfold BufferedOutStream_write, BufferedOutStream_putchar.
  rewrite Hmode. change (mode_value NoBuf =? _IONBF) with true. cbv iota.
  split; [| split; [| split]].
  - intros st'.
    destruct (write (o_out st) s) as [out1 | | | |] eqn:W; cbn [bind];
      try discriminate.
    intro R. injection R as <-. cbn [o_out o_top o_buf].
    destruct (wr_error_free_write_sound (o_out st) out1 s Hfree Hlen W)
      as [_ Ho].
    auto.
  - intros st'.
    destruct (write (o_out st) [c]) as [out1 | | | |] eqn:W; cbn [bind];
      try discriminate.
    intro R. injection R as <-. cbn [o_out o_top o_buf].
    destruct (wr_error_free_write_sound (o_out st) out1 [c] Hfree
                ltac:(cbn; lia) W) as [_ Ho].
    auto.
  - intros Hready Hne.
    assert (Hpos : 0 < len_of s).
    { destruct s; [contradiction |]. rewrite len_of_cons.
      pose proof (len_of_nonneg s). lia. }
    rewrite (UnixFileOutStream_write_accepting (o_out st) s Hready)
      by lia.
    cbn [bind]. eexists. split; reflexivity.
  - intro k. split; reflexivity.
Qed.

Lemma unbuffered_mode_forwards_every_write_witness :
  let st := merr_new (fresh_kernel [] [WrAccept 2]) in
  let s := bytes_of "oops" in
  let c := "!"%char in
  (forall st',
      write st s = Ok st' ->
      k_out (o_out st') = k_out (o_out st) ++ s /\
      o_top st' = o_top st /\ o_buf st' = o_buf st) /\
  (forall st',
      putchar st c = Ok st' ->
      k_out (o_out st') = k_out (o_out st) ++ [c] /\
      o_top st' = o_top st /\ o_buf st' = o_buf st) /\
  (k_wr (o_out st) = [] -> s <> [] ->
   exists st',
     write st s = Ok st' /\
     k_trace (o_out st') = k_trace (o_out st) ++ [SysWrite (len_of s)]) /\
  (forall k : kernel,
      o_buf (merr_new k) = None /\
      destroy (merr_new k)
      = Ok (mkBufferedOutStream (sys_close k) 0 NoBuf None)).
Proof.
  intros st s c. apply (unbuffered_mode_forwards_every_write st s c).
  - reflexivity.
  - repeat constructor.
  - vm_compute. reflexivity.
Defined.

(** X16: [flush] right after [flush] does nothing: the second call finds
    [top == 0], hands zero bytes to [UnixFileOutStream::write], which
    returns before any [::write], and the stream with its descriptor is
    left exactly as the first call left it. *)
Theorem flush_twice_is_flush_once (st st1 : BufferedOutStream kernel) :
  flush st = Ok st1 -> flush st1 = Ok st1.
Proof.
  cbn [flush BufferedOutStream_OutStream]. unfold BufferedOutStream_flush.
  destruct (pending_bytes st) as [bytes | | | |]; cbn [bind];
    try discriminate.
  destruct (write (o_out st) bytes) as [out1 | | | |]; cbn [bind];
    try discriminate.
  intro R. injection R as <-.
  unfold pending_bytes. cbn [o_top o_buf o_out o_mode].
  destruct (o_buf st) as [b |].
  - pose proof (len_of_nonneg b).
    destruct (Z.leb_spec 0 (len_of b)); [| lia]. reflexivity.
  - reflexivity.
Qed.

Lemma flush_twice_is_flush_once_witness :
  let st :=
    mkBufferedOutStream (fresh_kernel [] []) 2 FullBuf
      (Some (bytes_of "ok" ++ valloc 4094)) in
  let st1 :=
    mkBufferedOutStream (mkKernel [] [] (bytes_of "ok") 0 [SysWrite 2])
      0 FullBuf (Some (bytes_of "ok" ++ valloc 4094)) in
  flush st1 = Ok st1.
Proof.
  intros st st1. apply (flush_twice_is_flush_once st st1).
  vm_compute. reflexivity.
Defined.

Lemma full_mode_write_then_destroy (k : kernel) (s : list ascii) :
  k_wr k = [] -> 0 < len_of s <= 4096 ->
  exists st1,
    write (buffered_out FullBuf k) s = Ok st1 /\
    o_out st1 = k /\
    destroy st1
    = Ok (mkBufferedOutStream
            (mkKernel (k_in k) [] (k_out k ++ s) (k_errno k)
               (k_trace k ++ [SysWrite (len_of s); SysClose]))
            0 FullBuf None).
Proof.
  intros Hready Hlen.
  set (st0 := mkBufferedOutStream k 0 FullBuf (Some (valloc 4096))).
  change (buffered_out FullBuf k) with st0.
  assert (Hwf0 : wf_out st0).
  { unfold wf_out, st0. cbn [o_top o_buf]. unfold BUFSIZ.
    rewrite len_of_valloc by lia. lia. }
  assert (Hfree : wr_error_free (o_out st0))
    by (apply past_script_error_free; exact Hready).
  cbn [write destroy BufferedOutStream_OutStream].
  unfold BufferedOutStream_write.
  change (mode_value (o_mode st0) =? _IONBF) with false. cbv iota.
  destruct (BufferedOutStream_write_loop_fills s st0 (valloc 4096))
    as (b' & E & Hb'); try reflexivity;
    rewrite ?len_of_valloc by lia; unfold BUFSIZ; cbn [o_top st0]; try lia.
  destruct (BufferedOutStream_write_loop_sound wr_error_free k_out
              wr_error_free_write_sound s st0 _ Hwf0 Hfree E)
    as (Hw1 & _ & _ & _ & Hsub & _).
  eexists. split; [exact E |]. split; [reflexivity |].
  rewrite (BufferedOutStream_destroy_eq _ Hw1).
  unfold submitted in Hsub.
  rewrite (pending_at_zero st0 eq_refl), app_nil_r in Hsub.
  cbn [o_out] in Hsub |- *.
  apply app_inv_head in Hsub. rewrite Hsub. cbn [o_out o_mode st0].
  rewrite (UnixFileOutStream_write_accepting k s Hready) by lia.
  cbn [in_destructor bind destroy UnixFileOutStream].
  unfold sys_close. cbn [k_in k_wr k_out k_errno k_trace].
  rewrite <- app_assoc. reflexivity.
Qed.


(** X17: what Full mode buys: on a stream constructed without a buffer
    in Full mode, over a descriptor that takes every request, a [write]
    of 1 to 4096 bytes makes no system call; the destructor then makes
    exactly one [::write] of all the bytes followed by [close], and the
    descriptor has received the bytes after what it held. *)
Theorem full_mode_writes_once_at_teardown (k : kernel) (s : list ascii) :
  k_wr k = [] -> 0 < len_of s <= 4096 ->
  exists st1,
    write (buffered_out FullBuf k) s = Ok st1 /\
    o_out st1 = k /\
    destroy st1
    = Ok (mkBufferedOutStream
            (mkKernel (k_in k) [] (k_out k ++ s) (k_errno k)
               (k_trace k ++ [SysWrite (len_of s); SysClose]))
            0 FullBuf None).
Proof. exact (full_mode_write_then_destroy k s). Qed.

Lemma full_mode_writes_once_at_teardown_witness :
  let k := fresh_kernel [] [] in
  let s := bytes_of "Hello!" ++ [LF] ++ bytes_of "World!" ++ [LF] in
  exists st1,
    write (buffered_out FullBuf k) s = Ok st1 /\
    o_out st1 = k /\
    destroy st1
    = Ok (mkBufferedOutStream
            (mkKernel (k_in k) [] (k_out k ++ s) (k_errno k)
               (k_trace k ++ [SysWrite (len_of s); SysClose]))
            0 FullBuf None).
Proof.
  intros k s. apply (full_mode_writes_once_at_teardown k s).
  - reflexivity.
  - vm_compute. split; [reflexivity | discriminate].
Defined.

(** X18: with a block that reaches the flush threshold, as when the
    caller passes the constructor a buffer of [BUFSIZ] bytes, no store
    leaves the block: in Full and Line mode, over a descriptor that takes
    every request, every [write] returns, the cursor stays within
    [0..BUFSIZ] and within the block, and the stream is again in a state
    from which the next [write] returns. *)
Theorem adequate_block_never_overflows (st : BufferedOutStream kernel)
    (s : list ascii) :
  wf_out st -> BUFSIZ <= allocated_capacity st ->
  k_wr (o_out st) = [] -> o_mode st <> NoBuf ->
  exists st',
    write st s = Ok st' /\
    wf_out st' /\ allocated_capacity st' = allocated_capacity st /\
    k_wr (o_out st') = [] /\ o_mode st' = o_mode st /\
    submitted k_out st' = submitted k_out st ++ s.
Proof.
  intros Hwf Hcap Hready Hmode.
  cbn [write BufferedOutStream_OutStream]. unfold BufferedOutStream_write.
  assert (Hbuf : (mode_value (o_mode st) =? _IONBF) = false)
    by (destruct (o_mode st); [reflexivity | reflexivity | contradiction]).
  rewrite Hbuf.
  destruct (BufferedOutStream_write_loop_total (fun k => k_wr k = [])
              past_script_write_total s st Hwf Hready (or_introl Hcap))
    as (st' & E & Hready').
  destruct (BufferedOutStream_write_loop_sound wr_error_free k_out
              wr_error_free_write_sound s st st' Hwf
              (past_script_error_free _ Hready) E)
    as (Hw & _ & Hm & Hc & Hs & _).
  exists st'. split; [assumption |]. split; [assumption |].
  split; [assumption |]. split; [assumption |]. split; assumption.
Qed.

Lemma adequate_block_never_overflows_witness :
  let st :=
    BufferedOutStream_new (fresh_kernel [] []) FullBuf
      (Some (valloc BUFSIZ)) in
  let s := repeat "a"%char 4097 in
  exists st',
    write st s = Ok st' /\
    wf_out st' /\ allocated_capacity st' = allocated_capacity st /\
    k_wr (o_out st') = [] /\ o_mode st' = o_mode st /\
    submitted k_out st' = submitted k_out st ++ s.
Proof.
  intros st s. apply (adequate_block_never_overflows st s).
  - eval_wf_out.
  - vm_compute. discriminate.
  - reflexivity.
  - discriminate.
Defined.

(** X19: the capacity trigger of Full mode is [top == BUFSIZ]: while the
    pending bytes and the bytes of a [write] together stay within [BUFSIZ]
    a returning [write] calls the descriptor not at all and only extends
    what is pending; with [top] at [BUFSIZ], [putchar] first hands the
    whole pending block to the descriptor and then holds the new byte
    alone. *)
Theorem full_mode_flushes_at_BUFSIZ (st : BufferedOutStream kernel)
    (s : list ascii) (c : ascii) :
  wf_out st -> wr_error_free (o_out st) -> o_mode st = FullBuf ->
  (forall st',
      o_top st + len_of s <= BUFSIZ -> write st s = Ok st' ->
      o_out st' = o_out st /\ pending st' = pending st ++ s) /\
  (forall st',
      o_top st = BUFSIZ -> putchar st c = Ok st' ->
      k_out (o_out st') = k_out (o_out st) ++ pending st /\
      pending st' = [c] /\ o_top st' = 1).
Proof.
  intros Hwf Hfree Hmode. split.
  - intros st' Hroom W.
    exact (full_mode_holds_back_below_BUFSIZ st st' s Hwf Hfree Hmode Hroom
             W).
  - intros st' Hfull.
    cbn [putchar BufferedOutStream_OutStream].
    unfold BufferedOutStream_putchar. rewrite Hmode.
    change (mode_value FullBuf =? _IONBF) with false. cbv iota.
    unfold append_byte. rewrite Hfull, Z.eqb_refl.
    destruct (BufferedOutStream_flush st) as [st1 | | | |] eqn:F;
      cbn [bind]; try discriminate.
    destruct (BufferedOutStream_flush_sound wr_error_free k_out
                wr_error_free_write_sound st st1 Hwf Hfree F)
      as (Hw1 & Hf1 & Ht1 & Hb1 & Hm1 & Hs1).
    destruct (store_byte st1 c) as [st2 | | | |] eqn:S2; cbn [bind];
      try discriminate.
    destruct (store_byte_sound st1 st2 c Hw1
                ltac:(rewrite Ht1; unfold BUFSIZ; lia) S2)
      as (_ & Ho2 & Ht2 & Hm2 & _ & Hp2).
    rewrite Hm2, Hm1, Hmode.
    change (mode_value FullBuf =? _IOLBF) with false. cbn [andb].
    intro R. injection R as <-.
    rewrite Ho2, Hs1, Hp2, (pending_at_zero st1 Ht1), Ht2, Ht1.
    auto.
Qed.

Lemma full_mode_flushes_at_BUFSIZ_witness :
  let st :=
    BufferedOutStream_new (fresh_kernel [] []) FullBuf
      (Some (valloc BUFSIZ)) in
  let s := bytes_of "abc" in
  let c := "d"%char in
  (forall st',
      o_top st + len_of s <= BUFSIZ -> write st s = Ok st' ->
      o_out st' = o_out st /\ pending st' = pending st ++ s) /\
  (forall st',
      o_top st = BUFSIZ -> putchar st c = Ok st' ->
      k_out (o_out st') = k_out (o_out st) ++ pending st /\
      pending st' = [c] /\ o_top st' = 1).
Proof.
  intros st s c. apply (full_mode_flushes_at_BUFSIZ st s c).
  - eval_wf_out.
  - repeat constructor.
  - reflexivity.
Defined.

(** ** [mperror] *)

Lemma len_of_c_str (s : list ascii) : len_of (c_str s) <= len_of s.
Proof.
  unfold c_str, take, len_of. rewrite length_firstn. lia.
Qed.

Lemma puts_unbuffered (m m' : BufferedOutStream kernel) (s : list ascii) :
  o_mode m = NoBuf -> wr_error_free (o_out m) -> len_of s < 2 ^ 64 ->
  OutStream_puts m s = Ok m' ->
  o_mode m' = NoBuf /\ wr_error_free (o_out m') /\
  o_top m' = o_top m /\
  k_out (o_out m') = k_out (o_out m) ++ c_str s.
Proof.
  intros Hmode Hfree Hlen. unfold OutStream_puts. fold (c_str s).
  cbn [write BufferedOutStream_OutStream]. unfold BufferedOutStream_write.
  rewrite Hmode. change (mode_value NoBuf =? _IONBF) with true. cbv iota.
  destruct (write (o_out m) (c_str s)) as [out1 | | | |] eqn:W; cbn [bind];
    try discriminate.
  intro R. injection R as <-. cbn [o_out o_top o_mode].
  pose proof (len_of_c_str s).
  destruct (wr_error_free_write_sound (o_out m) out1 (c_str s) Hfree
              ltac:(lia) W) as [Hf Ho].
  auto.
Qed.

(** X20: [mperror(msg)] on the unbuffered error stream: when it returns,
    the descriptor has received, after what it held, the characters of
    [msg], then [": "], then the characters of [strerror(errno)], then a
    newline, each piece handed over within its own [puts], and nothing is
    left pending. *)
Theorem mperror_writes_the_message_unbuffered (strerror : Z -> list ascii)
    (errno : Z) (k : kernel) (msg : list ascii)
    (m' : BufferedOutStream kernel) :
  wr_error_free k -> len_of msg < 2 ^ 64 ->
  len_of (strerror errno) < 2 ^ 64 ->
  mperror strerror errno (merr_new k) msg = Ok m' ->
  k_out (o_out m')
  = k_out k ++ c_str msg ++ bytes_of ": " ++ c_str (strerror errno)
    ++ [newline] /\
  o_top m' = 0.
Proof.
  intros Hfree Hmsg Herr. unfold mperror.
  destruct (OutStream_puts (merr_new k) msg) as [m1 | | | |] eqn:P1;
    cbn [bind]; try discriminate.
  destruct (puts_unbuffered (merr_new k) m1 msg eq_refl Hfree Hmsg P1)
    as (Hm1 & Hf1 & Ht1 & Ho1).
  destruct (OutStream_puts m1 (bytes_of ": ")) as [m2 | | | |] eqn:P2;
    cbn [bind]; try discriminate.
  destruct (puts_unbuffered m1 m2 (bytes_of ": ") Hm1 Hf1
              ltac:(cbn; lia) P2) as (Hm2 & Hf2 & Ht2 & Ho2).
  destruct (OutStream_puts m2 (strerror errno)) as [m3 | | | |] eqn:P3;
    cbn [bind]; try discriminate.
  destruct (puts_unbuffered m2 m3 (strerror errno) Hm2 Hf2 Herr P3)
    as (Hm3 & Hf3 & Ht3 & Ho3).
  intro P4.
  destruct (puts_unbuffered m3 m' [newline] Hm3 Hf3 ltac:(cbn; lia) P4)
    as (_ & _ & Ht4 & Ho4).
  split; [| rewrite Ht4, Ht3, Ht2, Ht1; reflexivity].
  rewrite Ho4, Ho3, Ho2, Ho1. cbn [o_out merr_new BufferedOutStream_new].
  change (c_str (bytes_of ": ")) with (bytes_of ": ").
  change (c_str [newline]) with [newline].
  rewrite <- !app_assoc. reflexivity.
Qed.

Lemma mperror_writes_the_message_unbuffered_witness :
  let strerror := fun _ : Z => bytes_of "No such file or directory" in
  let k := fresh_kernel [] [] in
  let msg := bytes_of "/tmp/a.txt" in
  let m' :=
    mkBufferedOutStream
      (mkKernel [] []
         (msg ++ bytes_of ": " ++ strerror 2 ++ [newline]) 0
         [SysWrite 10; SysWrite 2; SysWrite 25; SysWrite 1])
      0 NoBuf None in
  k_out (o_out m')
  = k_out k ++ c_str msg ++ bytes_of ": " ++ c_str (strerror 2)
    ++ [newline] /\
  o_top m' = 0.
Proof.
  intros strerror k msg m'.
  apply (mperror_writes_the_message_unbuffered strerror 2 k msg m').
  - repeat constructor.
  - vm_compute. reflexivity.
  - vm_compute. reflexivity.
  - vm_compute. reflexivity.
Defined.

(** ** Writing a line and reading it back *)

Lemma strlen_no_nul (s : list ascii) :
  Forall (fun b => b <> zero_byte) s -> strlen s = len_of s.
Proof.
  induction 1 as [| b s Hb _ IH]; [reflexivity |].
  cbn [strlen]. destruct (Ascii.eqb_spec b zero_byte) as [E | _];
    [contradiction |].
  rewrite IH, len_of_cons. reflexivity.
Qed.

Lemma c_str_no_nul (s : list ascii) :
  Forall (fun b => b <> zero_byte) s -> c_str s = s.
Proof.
  intro H. unfold c_str. rewrite (strlen_no_nul s H). apply take_all. lia.
Qed.

(** X21: the scenario of [main], for any line: a line of fewer than 4096
    bytes, none of them a zero byte, a newline or the byte 255, written
    with [puts] and its newline through a Full-mode stream that is then
    destroyed, reaches the descriptor whole; and on any descriptor that
    delivers what was written, in whatever pieces, [getline('\n')] returns
    the line. *)
Theorem line_written_is_line_read_back (fuel : nat) (line : list ascii)
    (kin : kernel) :
  Forall (fun b => b <> zero_byte /\ b <> LF /\ plain_byte b) line ->
  len_of line < 4096 -> (List.length line < fuel)%nat ->
  rd_error_free kin -> avail (k_in kin) = line ++ [LF] ->
  exists st1 st2 kin',
    OutStream_puts (buffered_out FullBuf (fresh_kernel [] [])) (line ++ [LF])
      = Ok st1 /\
    destroy st1 = Ok st2 /\
    k_out (o_out st2) = line ++ [LF] /\
    k_trace (o_out st2) = [SysWrite (len_of line + 1); SysClose] /\
    getline_char fuel kin LF = Ok (line, kin').
Proof.
  intros Hline Hlen Hfuel Hfree Havail.
  assert (Hnul : Forall (fun b => b <> zero_byte) (line ++ [LF])).
  { apply Forall_app. split.
    - eapply Forall_impl; [| exact Hline]. cbn. intros b Hb. apply Hb.
    - repeat constructor. discriminate. }
  assert (Hscan : Forall (fun b => b <> LF /\ plain_byte b) line).
  { eapply Forall_impl; [| exact Hline]. cbn. intros b Hb. apply Hb. }
  pose proof (len_of_nonneg line) as Hnn.
  assert (Hl : len_of (line ++ [LF]) = len_of line + 1)
    by (rewrite len_of_app; reflexivity).
  destruct (full_mode_write_then_destroy (fresh_kernel [] [])
              (line ++ [LF]) eq_refl ltac:(lia)) as (st1 & W & _ & D).
  unfold OutStream_puts. fold (c_str (line ++ [LF])).
  rewrite (c_str_no_nul _ Hnul).
  destruct (readuntil_char_scan rd_error_free (fun k0 => avail (k_in k0))
              getchar_kernel_pend LF [] line fuel kin [] Hfree Havail Hscan
              ltac:(vm_compute; discriminate) Hfuel)
    as (kin' & R & _ & _).
  cbn [app] in R.
  exists st1. eexists. exists kin'.
  split; [exact W |]. split; [exact D |]. cbn [o_out k_out k_trace].
  split; [reflexivity |]. split; [rewrite Hl; reflexivity |].
  apply (getline_char_spec fuel LF kin kin' (line ++ [LF]) R). reflexivity.
Qed.

Lemma line_written_is_line_read_back_witness :
  let fuel := 8%nat in
  let line := bytes_of "Hello!" in
  let kin := fresh_kernel [RdData (bytes_of "Hel");
                           RdData (bytes_of "lo!" ++ [LF])] [] in
  exists st1 st2 kin',
    OutStream_puts (buffered_out FullBuf (fresh_kernel [] [])) (line ++ [LF])
      = Ok st1 /\
    destroy st1 = Ok st2 /\
    k_out (o_out st2) = line ++ [LF] /\
    k_trace (o_out st2) = [SysWrite (len_of line + 1); SysClose] /\
    getline_char fuel kin LF = Ok (line, kin').
Proof.
  intros fuel line kin.
  apply (line_written_is_line_read_back fuel line kin).
  - repeat constructor; vm_compute; discriminate.
  - vm_compute. reflexivity.
  - vm_compute. lia.
  - repeat constructor.
  - reflexivity.
Defined.

(** ** After a failed [::read] *)

(** X22: a [::read] that fails is not reported by [getchar]: the count
    is [SIZE_MAX], not 0, so [InStream::getchar] returns its local [c],
    which nothing has initialised; and [BufferedInStream::getchar], on a
    buffer that has been filled before ([max > 0], so that [buf[0]] holds a
    byte an earlier refill stored) and is exhausted, takes
    [max = SIZE_MAX] for the number of valid bytes and returns the byte at
    [buf[0]] a second time. *)
Theorem getchar_after_a_failed_read (k : kernel)
    (st : BufferedInStream kernel) (errno : Z) (rest : list rd_event) :
  k_in k = RdErr errno :: rest ->
  k_in (i_in st) = RdErr errno :: rest ->
  wf_in st -> i_top st = i_max st -> 0 < i_max st ->
  getchar k = Fault IndeterminateValue /\
  getchar st
  = Ok (char_to_int (nth 0 (i_buf st) zero_byte),
        mkBufferedInStream
          (mkKernel rest (k_wr (i_in st)) (k_out (i_in st)) errno
             (k_trace (i_in st) ++ [SysRead BUFSIZ]))
          (i_buf st) 1 SIZE_MAX).
Proof.
  intros Hk Hst (Htop & Hmax & Hbuf) Hex _. split.
  - cbn [getchar UnixFileInStream].
    unfold InStream_getchar, UnixFileInStream_read, sys_read.
    rewrite Hk. reflexivity.
  - cbn [getchar BufferedInStream_InStream].
    unfold BufferedInStream_getchar. rewrite Hex, Z.eqb_refl.
    unfold refill. cbn [read UnixFileInStream].
    unfold UnixFileInStream_read, sys_read. rewrite Hst.
    change (BUFSIZ =? 0) with false. cbv iota zeta.
    change (size_t (-1)) with SIZE_MAX.
    change (SIZE_MAX <? 0) with false. cbv iota. cbn [bind].
    change (len_of (@nil ascii)) with 0.
    destruct (Z.ltb_spec (len_of (i_buf st)) 0) as [L | _];
      [unfold BUFSIZ in Hbuf; lia |].
    change (negb (SIZE_MAX =? 0)) with true.
    cbn [app]. rewrite drop_nonpos by lia. cbn [bind].
    unfold next_byte. cbn [i_top i_buf i_in i_max].
    change (0 <=? 0) with true. cbn [andb].
    destruct (Z.ltb_spec 0 (len_of (i_buf st))) as [_ | L];
      [| unfold BUFSIZ in Hbuf; lia].
    reflexivity.
Qed.

Lemma getchar_after_a_failed_read_witness :
  let k := fresh_kernel [RdErr EIO] [] in
  let st :=
    mkBufferedInStream (mkKernel [RdErr EIO] [] [] 0 [SysRead BUFSIZ])
      ("h"%char :: valloc (BUFSIZ - 1)) 1 1 in
  getchar (myin_new (fresh_kernel [RdData ["h"%char]; RdErr EIO] []))
  = Ok (char_to_int "h"%char, st) /\
  getchar k = Fault IndeterminateValue /\
  getchar st
  = Ok (char_to_int (nth 0 (i_buf st) zero_byte),
        mkBufferedInStream
          (mkKernel [] (k_wr (i_in st)) (k_out (i_in st)) EIO
             (k_trace (i_in st) ++ [SysRead BUFSIZ]))
          (i_buf st) 1 SIZE_MAX).
Proof.
  intros k st. split; [vm_compute; reflexivity |].
  apply (getchar_after_a_failed_read k st EIO []).
  - reflexivity.
  - reflexivity.
  - eval_wf_in.
  - reflexivity.
  - reflexivity.
Defined.

(** * Scans and the byte 255 *)

(** A string the delimiter does not end is one on which the test of
    [readuntil] fails. *)
Lemma ends_with_not_suffix (p eol : list ascii) :
  (forall u, p <> u ++ eol) -> ends_with p eol = false.
Proof.
  intro Hno. destruct (ends_with p eol) eqn:E; [| reflexivity].
  exfalso. exact (Hno _ (ends_with_suffix p eol E)).
Qed.

Section ScanStop.
Context {St : Type} {I : InStream St}.
Variable inv : St -> Prop.
Variable pend : St -> list ascii.
Hypothesis getchar_stream :
  forall st : St,
    inv st ->
    exists c st',
      getchar st = Ok (c, st') /\ inv st' /\
      match pend st with
      | [] => c = EOF
      | b :: r => c = char_to_int b /\ pend st' = r
      end.

(** No match before a byte that [getchar] returns as [EOF]. *)
Lemma readuntil_stop (eol w : list ascii) (b : ascii) (rest : list ascii) :
  forall (fuel : nat) (st : St) (ret : list ascii),
    inv st -> pend st = w ++ b :: rest -> char_to_int b = EOF ->
    Forall plain_byte w ->
    (forall p q, w = p ++ q -> p <> [] ->
                 ends_with (ret ++ p) eol = false) ->
    (List.length w < fuel)%nat ->
    exists st',
      readuntil fuel st eol ret = Ok (ret ++ w, st') /\
      inv st' /\ pend st' = rest.
Proof.
  induction w as [| x w IH]; intros fuel st ret Hinv Hpend Hb Hplain Hnone
    Hfuel; (destruct fuel as [| fuel]; [cbn in Hfuel; lia |]);
    cbn [readuntil];
    destruct (getchar_stream st Hinv) as (c & st1 & -> & Hinv1 & Hc);
    rewrite Hpend in Hc; cbn [app] in Hc; destruct Hc as [-> Hpend1];
    cbn [bind].
  - rewrite Hb. cbn. rewrite app_nil_r. eauto.
  - apply Forall_cons_iff in Hplain. destruct Hplain as [Hx Hplain'].
    destruct (Z.eqb_spec (char_to_int x) EOF) as [E | _]; [contradiction |].
    cbv zeta. rewrite int_to_char_char_to_int.
    rewrite (Hnone [x] w eq_refl ltac:(discriminate)).
    destruct (IH fuel st1 (ret ++ [x]) Hinv1 Hpend1 Hb Hplain')
      as (st' & E & Hinv' & Hrest).
    + intros p q Hw Hp. rewrite <- app_assoc.
      apply (Hnone (x :: p) q); [rewrite Hw; reflexivity | discriminate].
    + cbn in Hfuel. lia.
    + exists st'. rewrite E, <- app_assoc. auto.
Qed.

(** A record [pre b mid eol] with [b] the byte 255 is returned in two
    pieces. *)
Lemma readuntil_split (fuel : nat) (eol pre mid rest : list ascii)
    (b : ascii) (st : St) :
  char_to_int b = EOF -> eol <> [] ->
  inv st -> pend st = pre ++ b :: mid ++ eol ++ rest ->
  Forall plain_byte (pre ++ mid ++ eol) ->
  (forall p q u, pre = p ++ q -> p <> u ++ eol) ->
  (forall p q u, mid ++ eol = p ++ q -> q <> [] -> p <> u ++ eol) ->
  (List.length pre < fuel)%nat -> (List.length (mid ++ eol) <= fuel)%nat ->
  exists st1 st2,
    readuntil fuel st eol [] = Ok (pre, st1) /\
    getline fuel st eol = Ok (pre, st1) /\
    pend st1 = mid ++ eol ++ rest /\
    readuntil fuel st1 eol [] = Ok (mid ++ eol, st2) /\
    getline fuel st1 eol = Ok (mid, st2) /\
    pend st2 = rest.
Proof.
  intros Hb Heol Hinv Hpend Hplain Hpre Hmid Hfuel1 Hfuel2.
  apply Forall_app in Hplain. destruct Hplain as [Hplain1 Hplain2].
  destruct (readuntil_stop eol pre b (mid ++ eol ++ rest) fuel st []
              Hinv Hpend Hb Hplain1) as (st1 & R1 & Hinv1 & Hpend1).
  { intros p q E _. cbn [app]. apply ends_with_not_suffix.
    intro u. exact (Hpre p q u E). }
  { exact Hfuel1. }
  cbn [app] in R1.
  destruct (getline_scan inv pend getchar_stream fuel eol mid rest st1
              Heol Hinv1 Hpend1 Hplain2) as (st2 & R2 & G2 & _ & Hpend2).
  { intros p q E _ Hq. apply ends_with_not_suffix.
    intro u. exact (Hmid p q u E Hq). }
  { exact Hfuel2. }
  exists st1, st2.
  split; [exact R1 |].
  split; [| auto].
  apply (getline_spec fuel eol st st1 pre R1).
  apply ends_with_not_suffix. intro u.
  apply (Hpre pre [] u). symmetry. apply app_nil_r.
Qed.
End ScanStop.

(** C7: a scan does not always stop at the delimiter or at end of file.
    [readuntil] stops when [getchar] returns [-1], and [getchar] returns
    [-1] for the byte 255 as it does at end of file.  On a descriptor that
    does not fail, read directly or through a read buffer, when the input
    is [pre], the byte 255, [mid], the delimiter and [rest], and the
    delimiter occurs nowhere before, [readuntil(eol)] and [getline(eol)]
    return [pre]: the result does not end with the delimiter and the
    stream is not at its end, [mid], the delimiter and [rest] being still
    to come.  The next [readuntil(eol)] returns [mid] with the delimiter
    and the next [getline(eol)] returns [mid]; the byte 255 is in neither
    result. *)
Theorem readuntil_stops_at_byte_255 (fuel : nat)
    (eol pre mid rest : list ascii) (b : ascii) (k : kernel)
    (st : BufferedInStream kernel) :
  char_to_int b = EOF -> eol <> [] ->
  rd_error_free k -> avail (k_in k) = pre ++ b :: mid ++ eol ++ rest ->
  wf_in st -> rd_error_free (i_in st) ->
  buffered_avail st = pre ++ b :: mid ++ eol ++ rest ->
  Forall plain_byte (pre ++ mid ++ eol) ->
  (forall p q u, pre = p ++ q -> p <> u ++ eol) ->
  (forall p q u, mid ++ eol = p ++ q -> q <> [] -> p <> u ++ eol) ->
  (List.length pre < fuel)%nat -> (List.length (mid ++ eol) <= fuel)%nat ->
  (exists k1 k2,
      readuntil fuel k eol [] = Ok (pre, k1) /\
      getline fuel k eol = Ok (pre, k1) /\
      avail (k_in k1) = mid ++ eol ++ rest /\
      readuntil fuel k1 eol [] = Ok (mid ++ eol, k2) /\
      getline fuel k1 eol = Ok (mid, k2) /\
      avail (k_in k2) = rest) /\
  (exists st1 st2,
      readuntil fuel st eol [] = Ok (pre, st1) /\
      getline fuel st eol = Ok (pre, st1) /\
      buffered_avail st1 = mid ++ eol ++ rest /\
      readuntil fuel st1 eol [] = Ok (mid ++ eol, st2) /\
      getline fuel st1 eol = Ok (mid, st2) /\
      buffered_avail st2 = rest).
Proof.
  intros Hb Heol Hk Hak Hwf Hst Hast Hplain Hpre Hmid Hfuel1 Hfuel2. split.
  - exact (readuntil_split rd_error_free (fun k0 => avail (k_in k0))
             getchar_kernel_pend fuel eol pre mid rest b k Hb Heol Hk Hak
             Hplain Hpre Hmid Hfuel1 Hfuel2).
  - exact (readuntil_split (fun b0 => wf_in b0 /\ rd_error_free (i_in b0))
             buffered_avail getchar_buffered_pend fuel eol pre mid rest b st
             Hb Heol (conj Hwf Hst) Hast Hplain Hpre Hmid Hfuel1 Hfuel2).
Qed.

Lemma readuntil_stops_at_byte_255_witness :
  let fuel := 4%nat in
  let eol := [CR; LF] in
  let pre := bytes_of "a" in
  let mid := @nil ascii in
  let rest := @nil ascii in
  let k := fresh_kernel [RdData (bytes_of "a" ++ ["255"%char; CR; LF])] [] in
  let st := myin_new k in
  (exists k1 k2,
      readuntil fuel k eol [] = Ok (pre, k1) /\
      getline fuel k eol = Ok (pre, k1) /\
      avail (k_in k1) = mid ++ eol ++ rest /\
      readuntil fuel k1 eol [] = Ok (mid ++ eol, k2) /\
      getline fuel k1 eol = Ok (mid, k2) /\
      avail (k_in k2) = rest) /\
  (exists st1 st2,
      readuntil fuel st eol [] = Ok (pre, st1) /\
      getline fuel st eol = Ok (pre, st1) /\
      buffered_avail st1 = mid ++ eol ++ rest /\
      readuntil fuel st1 eol [] = Ok (mid ++ eol, st2) /\
      getline fuel st1 eol = Ok (mid, st2) /\
      buffered_avail st2 = rest).
Proof.
  intros fuel eol pre mid rest k st.
  apply (readuntil_stops_at_byte_255 fuel eol pre mid rest "255"%char k st).
  - reflexivity.
  - discriminate.
  - repeat constructor.
  - reflexivity.
  - eval_wf_in.
  - repeat constructor.
  - vm_compute. reflexivity.
  - repeat constructor; vm_compute; discriminate.
  - intros p q u E Ep. subst p. apply (f_equal (@List.length ascii)) in E.
    rewrite !length_app in E. cbn in E. lia.
  - intros p q u E Hq Ep. subst p. apply (f_equal (@List.length ascii)) in E.
    rewrite !length_app in E. destruct q; [contradiction |]. cbn in E. lia.
  - vm_compute. lia.
  - vm_compute. lia.
Defined.

(** * Line mode and the allocated block *)

Section LineDefaultBlock.
Context {St : Type} {O : OutStream St}.

(** In Line mode, with a block shorter than [BUFSIZ], a byte other than
    a newline is stored while there is room, with no flush. *)
Lemma append_byte_line_short_block (st : BufferedOutStream St) (c : ascii)
    (b : list ascii) :
  o_mode st = LineBuf -> o_buf st = Some b ->
  0 <= o_top st < len_of b -> len_of b < BUFSIZ -> c <> newline ->
  append_byte st c =
  Ok (mkBufferedOutStream (o_out st) (o_top st + 1) LineBuf
        (Some (store_at (Z.to_nat (o_top st)) c b))).
Proof.
  intros Hmode Hbuf Htop Hshort Hc. unfold append_byte.
  destruct (Z.eqb_spec (o_top st) BUFSIZ) as [E | _]; [lia |].
  cbn [bind]. unfold store_byte. rewrite Hbuf.
  destruct (Z.leb_spec 0 (o_top st)); [| lia]. cbn [andb].
  destruct (Z.ltb_spec (o_top st) (len_of b)); [| lia].
  cbn [bind o_mode]. rewrite Hmode.
  destruct (Ascii.eqb_spec c newline) as [E | _]; [contradiction |].
  rewrite Bool.andb_false_r.
  unfold BUFSIZ in Hshort. rewrite size_t_small by lia. reflexivity.
Qed.

(** With [top] at the end of such a block no byte is flushed first,
    whatever the byte: it is stored past the end. *)
Lemma append_byte_line_at_capacity (st : BufferedOutStream St) (c : ascii)
    (b : list ascii) :
  o_buf st = Some b -> o_top st = len_of b -> len_of b < BUFSIZ ->
  append_byte st c = Fault (StoreOutOfBounds (len_of b) (len_of b)).
Proof.
  intros Hbuf Htop Hshort. unfold append_byte.
  destruct (Z.eqb_spec (o_top st) BUFSIZ) as [E | _]; [lia |].
  cbn [bind]. unfold store_byte. rewrite Hbuf, Htop.
  rewrite Z.ltb_irrefl, Bool.andb_false_r. reflexivity.
Qed.

Lemma BufferedOutStream_write_loop_line_fills (s : list ascii) :
  forall (st : BufferedOutStream St) (b : list ascii),
    o_mode st = LineBuf -> o_buf st = Some b ->
    0 <= o_top st -> o_top st + len_of s <= len_of b ->
    len_of b < BUFSIZ -> Forall (fun c => c <> newline) s ->
    exists b',
      BufferedOutStream_write_loop st s
      = Ok (mkBufferedOutStream (o_out st) (o_top st + len_of s) LineBuf
              (Some b')) /\
      len_of b' = len_of b.
Proof.
  induction s as [| c s IH]; intros st b Hmode Hbuf Htop Hroom Hshort Hnl;
    cbn [BufferedOutStream_write_loop].
  - exists b. change (len_of (@nil ascii)) with 0. rewrite Z.add_0_r.
    destruct st as [out top mode buf]. cbn in *. subst. auto.
  - rewrite len_of_cons in Hroom |- *. pose proof (len_of_nonneg s) as Hs.
    apply Forall_cons_iff in Hnl. destruct Hnl as [Hc Hnl].
    rewrite (append_byte_line_short_block st c b) by (assumption || lia).
    cbn [bind].
    assert (Hlen : len_of (store_at (Z.to_nat (o_top st)) c b) = len_of b)
      by (unfold len_of; rewrite store_at_length; reflexivity).
    destruct (IH (mkBufferedOutStream (o_out st) (o_top st + 1) LineBuf
                    (Some (store_at (Z.to_nat (o_top st)) c b)))
                (store_at (Z.to_nat (o_top st)) c b))
      as (b' & E & Hb'); cbn [o_mode o_buf o_top o_out]; try reflexivity;
      try lia; try assumption.
    cbn [o_out o_top] in E. exists b'. rewrite E.
    replace (o_top st + (1 + len_of s)) with (o_top st + 1 + len_of s)
      by lia.
    split; [reflexivity | congruence].
Qed.
End LineDefaultBlock.

(** C8: in Line mode the buffer is not flushed when it fills to capacity,
    and a newline that follows is not delivered.  On [mout], constructed
    without a buffer and so over a block of 4096 bytes, a [write] of 4096
    bytes with no newline among them fills the block: [top] equals the
    capacity and the descriptor has not been called.  No flush precedes
    the next byte, since [top] is compared with [BUFSIZ] (8192): [putchar]
    of any byte, a newline included, stores it outside the block, and a
    [write] of the 4096 bytes followed by a newline at position 4096 does
    the same before anything has reached the descriptor. *)
Theorem line_mode_is_not_flushed_at_capacity (k : kernel)
    (s1 s2 : list ascii) :
  len_of s1 = 4096 -> Forall (fun c => c <> newline) s1 ->
  (exists st1,
      write (mout_new k) s1 = Ok st1 /\
      o_top st1 = allocated_capacity st1 /\
      allocated_capacity st1 = 4096 /\
      o_out st1 = k /\
      forall c, putchar st1 c = Fault (StoreOutOfBounds 4096 4096)) /\
  write (mout_new k) (s1 ++ newline :: s2)
  = Fault (StoreOutOfBounds 4096 4096).
Proof.
  intros Hlen Hnl.
  change (mout_new k)
    with (mkBufferedOutStream k 0 LineBuf (Some (valloc 4096))).
  cbn [write putchar BufferedOutStream_OutStream].
  unfold BufferedOutStream_write. cbn [o_mode].
  change (mode_value LineBuf =? _IONBF) with false. cbv iota.
  destruct (BufferedOutStream_write_loop_line_fills s1
              (mkBufferedOutStream k 0 LineBuf (Some (valloc 4096)))
              (valloc 4096))
    as (b' & E & Hb'); cbn [o_mode o_buf o_top];
    try reflexivity; rewrite ?len_of_valloc by lia; unfold BUFSIZ;
    try lia; try assumption.
  rewrite len_of_valloc in Hb' by lia.
  cbn [o_out o_top] in E. rewrite Hlen in E.
  change (0 + 4096) with 4096 in E.
  assert (Hfault : forall c,
             append_byte (mkBufferedOutStream k 4096 LineBuf (Some b')) c
             = Fault (StoreOutOfBounds 4096 4096)).
  { intro c.
    rewrite (append_byte_line_at_capacity _ c b'); cbn [o_buf o_top];
      rewrite ?Hb'; unfold BUFSIZ; try reflexivity; lia. }
  split.
  - eexists. split; [exact E |].
    unfold allocated_capacity. cbn [o_top o_buf o_out].
    split; [symmetry; assumption |]. split; [assumption |].
    split; [reflexivity |].
    intro c. unfold BufferedOutStream_putchar. cbn [o_mode].
    change (mode_value LineBuf =? _IONBF) with false. cbv iota.
    apply Hfault.
  - rewrite BufferedOutStream_write_loop_app, E. cbn [bind].
    cbn [BufferedOutStream_write_loop]. rewrite Hfault. reflexivity.
Qed.

Lemma line_mode_is_not_flushed_at_capacity_witness :
  let k := fresh_kernel [] [] in
  let s1 := repeat "a"%char 4096 in
  let s2 := bytes_of "b" in
  (exists st1,
      write (mout_new k) s1 = Ok st1 /\
      o_top st1 = allocated_capacity st1 /\
      allocated_capacity st1 = 4096 /\
      o_out st1 = k /\
      forall c, putchar st1 c = Fault (StoreOutOfBounds 4096 4096)) /\
  write (mout_new k) (s1 ++ newline :: s2)
  = Fault (StoreOutOfBounds 4096 4096).
Proof.
  intros k s1 s2.
  apply (line_mode_is_not_flushed_at_capacity k s1 s2).
  - vm_compute. reflexivity.
  - apply Forall_forall. intros c Hc. apply repeat_spec in Hc. subst c.
    discriminate.
Defined.
